(** * Hyperbridge TVL adapters: a shallow embedding and its properties

    Two adapter files estimate a chain's share of the value bridged by
    Hyperbridge from the indexer's GraphQL answer:

    - [projects/hyperbridge/index.js]  (module [A] below),
    - the second, unnamed variant      (module [B] below).

    JavaScript numbers are IEEE-754 binary64 values; they are modelled by
    [spec_float] with precision 53 and maximal exponent 1024, so every
    sum, quotient and product below rounds exactly as the adapters do.

    Conventions of the embedding:
    - strings are ASCII texts; the fields of the indexer's nodes are
      strings, the numeric ones possibly absent;
    - [api.chain] ranges over the nine chains the adapters export;
    - [api] is the sequence of calls it has received, and every function
      that uses it takes the sequence and returns the extended one;
    - [coreAssets.json], which is not part of these files, is a parameter
      [ADDRESSES];
    - console output is not modelled;
    - modules [A] and [B] give each file as functions of the fetched
      answer; module [Runtime] gives the two estimators as they run, on
      objects that inherit from [Object.prototype] and with the order of
      [Object.keys] left to the rules of the language, and the last part
      shows that the runs compute these functions. *)

From Stdlib Require Import ZArith QArith List String Ascii Bool Lia Permutation.
From Stdlib Require Import Sorting.Sorted DecimalString.
From Stdlib Require Import Floats.SpecFloat.
Import ListNotations.

Local Open Scope string_scope.
Local Open Scope list_scope.
Local Open Scope Z_scope.

(* ===================================================================== *)
(** ** JavaScript numbers and the built-ins the adapters call            *)
(* ===================================================================== *)

Module JS.

Definition number := spec_float.

Definition prec : Z := 53.
Definition emax : Z := 1024.

Definition NaN : number := S754_nan.

Definition add : number -> number -> number := SFadd prec emax.
Definition mul : number -> number -> number := SFmul prec emax.
Definition div : number -> number -> number := SFdiv prec emax.

(** [x > y], [x <= y]: false as soon as one side is NaN. *)
Definition gt (x y : number) : bool := SFltb y x.
Definition le (x y : number) : bool := SFleb x y.

Definition isNaN (x : number) : bool :=
  match x with S754_nan => true | _ => false end.

Definition isFinite (x : number) : bool :=
  match x with S754_zero _ | S754_finite _ _ _ => true | _ => false end.

(** The number denoted by the decimal numeral [m * 10^e] with sign [neg],
    rounded to nearest, ties to even.  A non-negative exponent rounds the
    integer itself; a negative one rounds the quotient of two integers. *)
Definition ofDecimal (neg : bool) (m : Z) (e : Z) : number :=
  match m with
  | Zpos p =>
      if 0 <=? e
      then binary_round prec emax neg (p * Z.to_pos (10 ^ e))%positive 0
      else
        let '(q, e', l) :=
          SFdiv_core_binary prec emax (Zpos p) 0 (10 ^ (- e)) 0 in
        binary_round_aux prec emax neg q e' l
  | _ => S754_zero neg
  end.

Definition lit (m e : Z) : number := ofDecimal false m e.

(** *** Characters *)

Definition isWhiteSpace (c : ascii) : bool :=
  let n := nat_of_ascii c in
  ((9 <=? n) && (n <=? 13))%nat || (n =? 32)%nat.

Definition decDigit (c : ascii) : option Z :=
  let n := Z.of_nat (nat_of_ascii c) in
  if (48 <=? n) && (n <=? 57) then Some (n - 48) else None.

Definition hexDigit (c : ascii) : option Z :=
  let n := Z.of_nat (nat_of_ascii c) in
  if (48 <=? n) && (n <=? 57) then Some (n - 48)
  else if (97 <=? n) && (n <=? 102) then Some (n - 87)
  else if (65 <=? n) && (n <=? 70) then Some (n - 55)
  else None.

Fixpoint trimStart (s : string) : string :=
  match s with
  | String c s' => if isWhiteSpace c then trimStart s' else s
  | EmptyString => s
  end.

(** Longest prefix of digits of [s]: the digits read, most significant
    first, and what follows them. *)
Fixpoint spanDigits (digit : ascii -> option Z) (s : string)
  : list Z * string :=
  match s with
  | String c s' =>
      match digit c with
      | Some d => let '(ds, r) := spanDigits digit s' in (d :: ds, r)
      | None => ([], s)
      end
  | EmptyString => ([], s)
  end.

Definition digitsValue (radix : Z) (ds : list Z) : Z :=
  fold_left (fun acc d => acc * radix + d) ds 0.

(** An optional sign: [true] for a leading minus. *)
Definition spanSign (s : string) : bool * string :=
  match s with
  | String "-" s' => (true, s')
  | String "+" s' => (false, s')
  | _ => (false, s)
  end.

(** *** parseInt(s), no radix argument

    [None] is NaN.  The integer is returned as it is read; the adapters
    use it only as a key of [CHAIN_ID_MAP], whose keys are small integers
    that a binary64 number represents exactly, and no larger integer
    rounds to one of them. *)
Definition parseInt (s : string) : option Z :=
  let '(neg, s1) := spanSign (trimStart s) in
  let '(radix, s2) :=
    match s1 with
    | String "0" (String "x" r) | String "0" (String "X" r) => (16, r)
    | _ => (10, s1)
    end in
  let '(ds, _) :=
    spanDigits (if radix =? 16 then hexDigit else decDigit) s2 in
  match ds with
  | [] => None
  | _ => Some (if neg then - digitsValue radix ds else digitsValue radix ds)
  end.

(** *** parseFloat(s)

    The longest prefix of the trimmed string that is a decimal literal:
    sign, then [Infinity], or digits with an optional fraction and an
    optional exponent. *)
Definition spanExponent (s : string) : Z * string :=
  match s with
  | String c s' =>
      if (Ascii.eqb c "e" || Ascii.eqb c "E")%bool
      then
        let '(neg, s2) := spanSign s' in
        let '(ds, r) := spanDigits decDigit s2 in
        match ds with
        | [] => (0, s)
        | _ => ((if neg then - digitsValue 10 ds else digitsValue 10 ds), r)
        end
      else (0, s)
  | EmptyString => (0, s)
  end.

Definition parseFloat (s : string) : number :=
  let '(neg, s1) := spanSign (trimStart s) in
  if prefix "Infinity" s1 then S754_infinity neg
  else
    let '(ip, s2) := spanDigits decDigit s1 in
    let '(fp, s3) :=
      match s2 with
      | String "." r => spanDigits decDigit r
      | _ => ([], s2)
      end in
    match ip, fp with
    | [], [] => NaN
    | _, _ =>
        let '(ex, _) := spanExponent s3 in
        ofDecimal neg (digitsValue 10 (ip ++ fp))
                  (ex - Z.of_nat (List.length fp))
    end.

(** [parseFloat(v || 0)] for a string field that may be absent: an absent
    or empty string is falsy and [parseFloat(0)] reads the text "0". *)
Definition parseFloatOr0 (v : option string) : number :=
  match v with
  | None | Some EmptyString => parseFloat "0"
  | Some s => parseFloat s
  end.

(** *** Math.floor

    Its result is an integer, an infinity or NaN.  Integer results are
    kept as the integer they denote (a negative zero is the integer 0, as
    in its decimal rendering). *)
Inductive floored :=
| FInt (z : Z)
| FInf (neg : bool)
| FNaN.

Definition Math_floor (x : number) : floored :=
  match x with
  | S754_zero _ => FInt 0
  | S754_infinity s => FInf s
  | S754_nan => FNaN
  | S754_finite s m e => FInt (Z.shiftl (cond_Zopp s (Zpos m)) e)
  end.

(** *** Number.prototype.toString, on the results of Math.floor

    The text of a positive integer-valued number [z] is the shortest
    decimal numeral that reads back as [z]: digits [s] and a power of ten
    [j], with [j] as large as possible, such that [s * 10^j] lies in the
    rounding interval of [z], and [s] the closest to [z] when several do
    (the even one on a tie).  The interval ends halfway to the
    neighbouring numbers; its ends belong to it when the mantissa of [z]
    is even.  Below, values are compared after multiplication by [scale],
    which makes the ends integers. *)

Definition decimalText (z : Z) : string :=
  NilZero.string_of_int (Z.to_int z).

(** The exponent of the unit in the last place of [z = m * 2^e], where
    the mantissa [m] has 53 bits. *)
Definition ulpExponent (z : Z) : Z := Z.log2 z - 52.

Definition scale (z : Z) : Z :=
  if 0 <=? ulpExponent z then 4 else 4 * 2 ^ (- ulpExponent z).

(** Half a unit in the last place, scaled. *)
Definition halfUlp (z : Z) : Z :=
  if 0 <=? ulpExponent z then 2 * 2 ^ ulpExponent z else 2.

(** The distance to the lower end: below a power of two the numbers are
    twice as dense. *)
Definition lowerGap (z : Z) : Z :=
  if z =? 2 ^ Z.log2 z then halfUlp z / 2 else halfUlp z.

Definition closedEnds (z : Z) : bool :=
  if 0 <=? ulpExponent z then Z.even (Z.shiftr z (ulpExponent z)) else true.

(** The scaled value [v] lies in the rounding interval of [z]. *)
Definition readsBackAs (z v : Z) : bool :=
  let lo := scale z * z - lowerGap z in
  let hi := scale z * z + halfUlp z in
  if closedEnds z then (lo <=? v) && (v <=? hi) else (lo <? v) && (v <? hi).

(** The multiple of [10^j] closest to [z] among those that read back as
    [z], if there is one. *)
Definition closest (z j : Z) : option Z :=
  let P := scale z * 10 ^ j in
  let Zs := scale z * z in
  let t0 := Zs / P in
  let d0 := Zs - t0 * P in
  let d1 := (t0 + 1) * P - Zs in
  match readsBackAs z (t0 * P), readsBackAs z ((t0 + 1) * P) with
  | true, true =>
      Some (if d0 <? d1 then t0
            else if d1 <? d0 then t0 + 1
            else if Z.even t0 then t0 else t0 + 1)
  | true, false => Some t0
  | false, true => Some (t0 + 1)
  | false, false => None
  end.

(** The largest power of ten, from [j] on, a multiple of which reads back
    as [z]. *)
Fixpoint maxPower (fuel : nat) (z j : Z) : Z :=
  match fuel with
  | O => j
  | S f =>
      match closest z (j + 1) with
      | Some _ => maxPower f z (j + 1)
      | None => j
      end
  end.

(** The digits [s] and the power of ten [j] of the text of [z]. *)
Definition shortestDecimal (z : Z) : Z * Z :=
  let j := maxPower (Z.to_nat (Z.log2 z) + 1) z 0 in
  match closest z j with
  | Some s => (s, j)
  | None => (z, 0)
  end.

Fixpoint zeros (n : nat) : string :=
  match n with
  | O => ""
  | S n' => String "0" (zeros n')
  end.

(** Up to 21 digits the numeral is written out; beyond, in exponent
    form. *)
Definition renderDecimal (s j : Z) : string :=
  let digits := decimalText s in
  let n := Z.of_nat (String.length digits) + j in
  if n <=? 21 then (digits ++ zeros (Z.to_nat j))%string
  else
    match digits with
    | String c rest =>
        (String c (match rest with
                   | EmptyString => ""
                   | _ => String "." rest
                   end)
         ++ "e+" ++ decimalText (n - 1))%string
    | EmptyString => ""
    end.

Definition positiveToString (z : Z) : string :=
  let '(s, j) := shortestDecimal z in renderDecimal s j.

(** [Math.floor(x).toString()] *)
Definition Number_toString (x : floored) : string :=
  match x with
  | FNaN => "NaN"
  | FInf false => "Infinity"
  | FInf true => "-Infinity"
  | FInt 0 => "0"
  | FInt (Zpos p) => positiveToString (Zpos p)
  | FInt (Zneg p) => ("-" ++ positiveToString (Zpos p))%string
  end.

(** *** String helpers *)

(** [s.replace(pat, "")] with a string pattern: the first occurrence of
    [pat] is removed. *)
Fixpoint dropN (n : nat) (s : string) : string :=
  match n, s with
  | S n', String _ s' => dropN n' s'
  | _, _ => s
  end.

Fixpoint removeFirst (pat s : string) : string :=
  if prefix pat s then dropN (String.length pat) s
  else match s with
       | String c s' => String c (removeFirst pat s')
       | EmptyString => s
       end.

(** [s.includes(pat)]. *)
Fixpoint includes (pat s : string) : bool :=
  if prefix pat s then true
  else match s with
       | String _ s' => includes pat s'
       | EmptyString => false
       end.

(** *** Property keys

    The names every plain object inherits from [Object.prototype]: a
    lookup of one of them on an object literal is truthy although the
    literal does not define it. *)
Definition protoNames : list string :=
  [ "constructor"; "__proto__"; "hasOwnProperty"; "isPrototypeOf";
    "propertyIsEnumerable"; "toLocaleString"; "toString"; "valueOf";
    "__defineGetter__"; "__defineSetter__"; "__lookupGetter__";
    "__lookupSetter__" ].

Definition isProtoName (s : string) : bool :=
  existsb (String.eqb s) protoNames.

(** The text of an inherited value when it is used as a property key:
    [Object.prototype] itself for [__proto__], a built-in function for
    the others. *)
Definition protoKeyText (name : string) : string :=
  if String.eqb name "__proto__" then "[object Object]"
  else if String.eqb name "constructor"
       then "function Object() { [native code] }"
       else ("function " ++ name ++ "() { [native code] }")%string.

(** An array-index key: the canonical decimal text of an integer in
    [0, 2^32 - 2].  [Object.keys] lists these first, in increasing
    order, then the other keys in insertion order. *)
Definition arrayIndex (s : string) : option Z :=
  let '(ds, r) := spanDigits decDigit s in
  match ds, r with
  | [], _ => None
  | [0], EmptyString => Some 0
  | 0 :: _, _ => None
  | _, EmptyString =>
      let v := digitsValue 10 ds in
      if v <=? 4294967294 then Some v else None
  | _, _ => None
  end.

End JS.

(* ===================================================================== *)
(** ** Data shared by the two adapters                                   *)
(* ===================================================================== *)

Module Bridge.
Import JS.

(** The chains the adapters export a [tvl] entry for; [api.chain] is the
    key under which the entry was looked up, hence one of these. *)
Inductive chain :=
| ethereum | arbitrum | optimism | base | bsc | xdai
| polygon | soneium | unichain.

Definition chain_eqb (a b : chain) : bool :=
  match a, b with
  | ethereum, ethereum | arbitrum, arbitrum | optimism, optimism
  | base, base | bsc, bsc | xdai, xdai
  | polygon, polygon | soneium, soneium | unichain, unichain => true
  | _, _ => false
  end.

(** [CHAIN_ID_MAP[id]]; a NaN identifier has no entry. *)
Definition CHAIN_ID_MAP (id : option Z) : option chain :=
  match id with
  | Some 1 => Some ethereum
  | Some 10 => Some optimism
  | Some 56 => Some bsc
  | Some 100 => Some xdai
  | Some 137 => Some polygon
  | Some 1868 => Some soneium
  | Some 8453 => Some base
  | Some 42161 => Some arbitrum
  | Some 1301 => Some unichain
  | _ => None
  end.

(** [CHAIN_ID_MAP[id] === api.chain]. *)
Definition mapsTo (id : option Z) (c : chain) : bool :=
  match CHAIN_ID_MAP id with
  | Some c' => chain_eqb c' c
  | None => false
  end.

(** The nodes of the indexer's answer; the numeric fields arrive as
    decimal strings and may be absent. *)
Record ChainStat := {
  id : string;
  totalTransfersIn : option string
}.

Record Teleport := {
  assetId : string;
  amount : option string;
  sourceChain : string;
  destChain : string
}.

Record connection (A : Type) := { edges : option (list A) }.
Arguments edges {A} _.

Record gql_data := {
  hyperBridgeChainStats : option (connection ChainStat);
  tokenGatewayAssetTeleporteds : option (connection Teleport)
}.

(** [c.edges || []] *)
Definition edgesOrEmpty {A} (c : connection A) : list A :=
  match edges c with Some l => l | None => [] end.

(** [data.tokenGatewayAssetTeleporteds?.edges || []] *)
Definition teleportsOf (d : gql_data) : list Teleport :=
  match tokenGatewayAssetTeleporteds d with
  | Some c => edgesOrEmpty c
  | None => []
  end.

(** [parseInt(stat.id.replace('EVM-', ''))] *)
Definition statChainId (s : ChainStat) : option Z :=
  parseInt (removeFirst "EVM-" (id s)).

(** Calls received by the aggregation helper, in the order they are made:
    the state of [api] together with the calls to [sumTokens2].
    [api.add] is given the text of the amount, [api.addToken] the
    number. *)
Inductive call :=
| Add (token : string) (amount : string)
| AddToken (token : string) (amount : floored)
| SumTokens2 (owners tokens : list string)
| SumTokens2Pairs (tokensAndOwners : list (string * string)).

Definition api_state := list call.

Definition isDirectReport (c : call) : bool :=
  match c with Add _ _ | AddToken _ _ => true | _ => false end.

(** The calls made since the state [before]. *)
Definition issued (before after : api_state) : list call :=
  skipn (List.length before) after.

(** What the estimator settles on. *)
Inductive decision :=
| Direct (usd : number)
| Proportional (usd : number)
| Delegate.

Definition e18 : number := lit 1 18.
Definition e6 : number := lit 1 6.

Section Addresses.

(** [coreAssets.json]: per chain, the address of a token symbol. *)
Variable ADDRESSES : chain -> option (string -> option string).

(** [ADDRESSES[chain]?.SYM], kept only when truthy. *)
Definition addressOf (c : chain) (sym : string) : option string :=
  match ADDRESSES c with
  | Some tbl =>
      match tbl sym with
      | Some EmptyString => None
      | r => r
      end
  | None => None
  end.

End Addresses.

End Bridge.

(* ===================================================================== *)
(** ** Variant A: projects/hyperbridge/index.js                          *)
(* ===================================================================== *)

Module A.
Import JS Bridge.

(** The helper [post] either throws (transport error, non-success status)
    or returns the response body, whose [data] field may be missing. *)
Inductive post_result :=
| PostThrows
| PostReturns (data : option gql_data).

(** [getHyperbridgeTVL]: [try { return (await post(..)).data } catch { return null }] *)
Definition getHyperbridgeTVL (r : post_result) : option gql_data :=
  match r with
  | PostThrows => None
  | PostReturns d => d
  end.

(** [parseFloat(stat.totalTransfersIn || 0) / 1e18] *)
Definition transfersInValue (s : ChainStat) : number :=
  div (parseFloatOr0 (totalTransfersIn s)) e18.

(** First loop: [totalNetworkValue += transfersIn / 1e18] for every stat. *)
Definition totalNetworkValue (chainStats : list ChainStat) : number :=
  fold_left (fun acc s => add acc (transfersInValue s)) chainStats (lit 0 0).

(** [parseFloat(teleport.amount || 0) / 1e18] *)
Definition teleportValue (t : Teleport) : number :=
  div (parseFloatOr0 (amount t)) e18.

(** Second loop: [totalTeleportValue += amount / 1e18] for every event. *)
Definition totalTeleportValue (teleports : list Teleport) : number :=
  fold_left (fun acc t => add acc (teleportValue t)) teleports (lit 0 0).

(** The second loop also files each event under [assetAnalysis[assetId]].
    For an [assetId] naming an inherited property the lookup is truthy,
    no record is created, and [.chains.add] then throws. *)
Definition analysisThrows (teleports : list Teleport) : bool :=
  existsb (fun t => isProtoName (assetId t)) teleports.

(** [sourceChainName === api.chain || destChainName === api.chain] *)
Definition involves (c : chain) (t : Teleport) : bool :=
  mapsTo (parseInt (sourceChain t)) c || mapsTo (parseInt (destChain t)) c.

(** Third loop: the events that involve the requested chain. *)
Definition chainTeleportValue (c : chain) (teleports : list Teleport)
  : number :=
  fold_left
    (fun acc t => if involves c t then add acc (teleportValue t) else acc)
    teleports (lit 0 0).

(** [chainStats.find(({node}) => CHAIN_ID_MAP[parseInt(..)] === api.chain)] *)
Definition findChainStat (c : chain) (chainStats : list ChainStat)
  : option ChainStat :=
  find (fun s => mapsTo (statChainId s) c) chainStats.

(** [totalNetworkValue > 0 ? chainNetworkValue / totalNetworkValue : 0] *)
Definition chainProportion (chainNetworkValue total : number) : number :=
  if gt total (lit 0 0) then div chainNetworkValue total else lit 0 0.

(** The body of [calculateTVLFromAPI] from the fetched data to the
    [return] it takes; an exception inside it lands in the [catch], which
    delegates. *)
Definition estimate (c : chain) (data : option gql_data) : decision :=
  match data with
  | None => Delegate
  | Some d =>
      match hyperBridgeChainStats d with
      | None => Delegate
      | Some conn =>
          let chainStats := edgesOrEmpty conn in
          let teleports := teleportsOf d in
          let totalNetworkValue := totalNetworkValue chainStats in
          if analysisThrows teleports then Delegate
          else
            let totalTeleportValue := totalTeleportValue teleports in
            let chainTeleportValue := chainTeleportValue c teleports in
            if gt chainTeleportValue (lit 100 0)
            then Direct chainTeleportValue
            else
              match findChainStat c chainStats with
              | Some chainStat =>
                  if gt totalTeleportValue (lit 0 0)
                  then
                    let chainNetworkValue := transfersInValue chainStat in
                    let chainProportion :=
                      chainProportion chainNetworkValue totalNetworkValue in
                    let chainProportionalValue :=
                      mul totalTeleportValue chainProportion in
                    if gt chainProportionalValue (lit 1 0)
                    then Proportional chainProportionalValue
                    else Delegate
                  else Delegate
              | None => Delegate
              end
      end
  end.

Section Addresses.

Variable ADDRESSES : chain -> option (string -> option string).

(** [addTokensToAPI(api, usdValue)] *)
Definition addTokensToAPI (c : chain) (usdValue : number) (api : api_state)
  : api_state :=
  let usdcAddress := addressOf ADDRESSES c "USDC" in
  let usdtAddress := addressOf ADDRESSES c "USDT" in
  let daiAddress := addressOf ADDRESSES c "DAI" in
  let api1 :=
    match usdcAddress with
    | Some a =>
        api ++ [Add a (Number_toString
                      (Math_floor (mul (mul usdValue (lit 7 (-1))) e6)))]
    | None => api
    end in
  let api2 :=
    match usdtAddress with
    | Some a =>
        api1 ++ [Add a (Number_toString
                      (Math_floor (mul (mul usdValue (lit 2 (-1))) e6)))]
    | None => api1
    end in
  let api3 :=
    match daiAddress with
    | Some a =>
        api2 ++ [Add a (Number_toString
                      (Math_floor (mul (mul usdValue (lit 1 (-1))) e18)))]
    | None => api2
    end in
  match usdcAddress, usdtAddress, daiAddress with
  | None, None, None =>
      match addressOf ADDRESSES c "WETH" with
      | Some a =>
          api3 ++ [Add a (Number_toString
                      (Math_floor (mul (div usdValue (lit 2500 0)) e18)))]
      | None => api3
      end
  | _, _, _ => api3
  end.

Definition tokenGatewayAddresses (c : chain) : option string :=
  match c with
  | ethereum | arbitrum | optimism | base | bsc | xdai =>
      Some "0xFd413e3AFe560182C4471F4d143A96d3e259B6dE"
  | polygon => Some "0x8b536105b6Fae2aE9199f5146D3C57Dfe53b614E"
  | soneium => Some "0xCe304770236f39F9911BfCC51afBdfF3b8635718"
  | unichain => Some "0x8b536105b6Fae2aE9199f5146D3C57Dfe53b614E"
  end.

Definition DOT_BRIDGE_CONTRACT : string :=
  "0x8d010bf9c26881788b4e6bf5fd1bdc358c8f90b8".

Definition DOT_CONTRACT_CHAINS : list chain :=
  [ethereum; arbitrum; optimism; base; bsc; xdai].

(** [if (ADDRESSES[api.chain].SYM) tokens.push(..)] *)
Definition pushIf (c : chain) (sym : string) (tokens : list string)
  : list string :=
  match addressOf ADDRESSES c sym with
  | Some a => tokens ++ [a]
  | None => tokens
  end.

Definition fallbackTokens (c : chain) : list string :=
  let common :=
    fold_left (fun tokens sym => pushIf c sym tokens)
      [ "USDC"; "USDT"; "DAI"; "BUSD"; "FRAX"; "USDE";
        "WETH"; "STETH"; "WSTETH"; "RETH";
        "WBTC"; "tBTC";
        "LINK"; "UNI"; "AAVE" ] [] in
  match c with
  | polygon => pushIf c "MATIC" common
  | arbitrum => pushIf c "ARB" common
  | optimism => pushIf c "OP" common
  | bsc => pushIf c "WBNB" common
  | _ => common
  end.

Definition fallbackOwners (c : chain) : list string :=
  let owners :=
    match tokenGatewayAddresses c with
    | Some a => [a]
    | None => []
    end in
  if existsb (chain_eqb c) DOT_CONTRACT_CHAINS
  then owners ++ [DOT_BRIDGE_CONTRACT]
  else owners.

(** [fallbackContractTVL(api)]: one call to [sumTokens2]. *)
Definition fallbackContractTVL (c : chain) (api : api_state) : api_state :=
  api ++ [SumTokens2 (fallbackOwners c) (fallbackTokens c)].

(** [calculateTVLFromAPI(api)], given what [post] does. *)
Definition calculateTVLFromAPI (c : chain) (r : post_result)
  (api : api_state) : api_state :=
  match estimate c (getHyperbridgeTVL r) with
  | Direct usd | Proportional usd => addTokensToAPI c usd api
  | Delegate => fallbackContractTVL c api
  end.

End Addresses.

End A.

(* ===================================================================== *)
(** ** Variant B: the second adapter file                                *)
(* ===================================================================== *)

Module B.
Import JS Bridge.

(** What [fetch] and [response.json()] do. *)
Inductive json_body :=
| BodyUnreadable
| Body (errors : bool) (data : option gql_data).

Inductive fetch_result :=
| FetchThrows
| Response (ok : bool) (body : json_body).

(** [getHyperbridgeTVL]: a response that is not [ok] is turned into an
    exception, and every exception into [null]. *)
Definition getHyperbridgeTVL (r : fetch_result) : option gql_data :=
  match r with
  | FetchThrows => None
  | Response false _ => None
  | Response true BodyUnreadable => None
  | Response true (Body true _) => None
  | Response true (Body false d) => d
  end.

(** [ASSET_ID_MAP[assetId] || assetId], as the key it becomes in
    [assetMap].  The table maps USDC, USDT and DAI to themselves; a name
    inherited from [Object.prototype] yields the inherited value, whose
    text is the key. *)
Definition assetKey (assetId : string) : string :=
  if isProtoName assetId then protoKeyText assetId else assetId.

(** [if (!assetMap[asset]) assetMap[asset] = []; assetMap[asset].push(t)],
    on an object kept in insertion order. *)
Fixpoint pushTo (k : string) (t : Teleport)
  (m : list (string * list Teleport)) : list (string * list Teleport) :=
  match m with
  | [] => [(k, [t])]
  | (k', ts) :: m' =>
      if String.eqb k k' then (k', ts ++ [t]) :: m'
      else (k', ts) :: pushTo k t m'
  end.

Definition assetMap (teleports : list Teleport)
  : list (string * list Teleport) :=
  fold_left (fun m t => pushTo (assetKey (assetId t)) t m) teleports [].

(** [Object.keys]: array-index keys first, in increasing order, then the
    others in insertion order. *)
Fixpoint insertByIndex {V} (i : Z) (kv : string * V)
  (l : list (Z * (string * V))) : list (Z * (string * V)) :=
  match l with
  | [] => [(i, kv)]
  | (j, kv') :: l' =>
      if i <? j then (i, kv) :: l else (j, kv') :: insertByIndex i kv l'
  end.

Definition objectEntries {V} (m : list (string * V)) : list (string * V) :=
  let indexed :=
    fold_left
      (fun acc kv =>
         match arrayIndex (fst kv) with
         | Some i => insertByIndex i kv acc
         | None => acc
         end) m [] in
  map snd indexed ++
  filter (fun kv => match arrayIndex (fst kv) with
                    | None => true
                    | Some _ => false
                    end) m.

(** [teleports.reduce((sum, t) => sum + (isNaN(amount) ? 0 : amount), 0)] *)
Definition totalAmount (teleports : list Teleport) : number :=
  fold_left
    (fun sum t =>
       let amount := parseFloatOr0 (amount t) in
       add sum (if isNaN amount then lit 0 0 else amount))
    teleports (lit 0 0).

(** [asset.includes('USDC') || asset.includes('USDT') ? 6 : 18] *)
Definition decimalsOf (asset : string) : Z :=
  if includes "USDC" asset || includes "USDT" asset then 6 else 18.

(** [Math.pow(10, decimals)]; both powers used are binary64 numbers. *)
Definition Math_pow10 (decimals : Z) : number := lit 1 decimals.

(** [totalAmount / Math.pow(10, decimals)] *)
Definition usdValue (asset : string) (teleports : list Teleport) : number :=
  div (totalAmount teleports) (Math_pow10 (decimalsOf asset)).

(** [for (const asset of uniqueAssets) totalTeleportValue += usdValue] *)
Definition totalTeleportValue (teleports : list Teleport) : number :=
  fold_left (fun acc kv => add acc (usdValue (fst kv) (snd kv)))
            (objectEntries (assetMap teleports)) (lit 0 0).

(** [chainTransferData[statChain] = ..]: a later stat of the same chain
    overwrites the value and keeps the key's position. *)
Fixpoint setChain (c : chain) (v : number) (m : list (chain * number))
  : list (chain * number) :=
  match m with
  | [] => [(c, v)]
  | (c', v') :: m' =>
      if chain_eqb c c' then (c', v) :: m' else (c', v') :: setChain c v m'
  end.

Definition chainTransferData (chainStats : list ChainStat)
  : list (chain * number) :=
  fold_left
    (fun m stat =>
       match CHAIN_ID_MAP (statChainId stat) with
       | Some statChain =>
           setChain statChain
             (div (parseFloatOr0 (totalTransfersIn stat)) e18) m
       | None => m
       end) chainStats [].

(** [Object.values(chainTransferData).reduce((sum, val) => sum + val, 0)] *)
Definition totalNetworkTransfers (m : list (chain * number)) : number :=
  fold_left (fun sum kv => add sum (snd kv)) m (lit 0 0).

Fixpoint getChain (c : chain) (m : list (chain * number)) : option number :=
  match m with
  | [] => None
  | (c', v) :: m' => if chain_eqb c c' then Some v else getChain c m'
  end.

(** [chainTransferData[api.chain] || 0]: zero and NaN are falsy. *)
Definition chainTransfers (c : chain) (m : list (chain * number)) : number :=
  match getChain c m with
  | Some (S754_zero _) | Some S754_nan | None => lit 0 0
  | Some v => v
  end.

(** The body of [calculateTVLFromAPI] from the fetched data to the branch
    it takes. *)
Definition estimate (c : chain) (data : option gql_data) : decision :=
  match data with
  | None => Delegate
  | Some d =>
      match hyperBridgeChainStats d with
      | None => Delegate
      | Some conn =>
          let chainStats := edgesOrEmpty conn in
          let teleports := teleportsOf d in
          let totalTeleportValue := totalTeleportValue teleports in
          let scaledTeleportValue := totalTeleportValue in
          let chainTransferData := chainTransferData chainStats in
          let totalNetworkTransfers :=
            totalNetworkTransfers chainTransferData in
          let chainTransfers := chainTransfers c chainTransferData in
          if gt totalNetworkTransfers (lit 0 0) && gt chainTransfers (lit 0 0)
          then
            let proportion := div chainTransfers totalNetworkTransfers in
            Proportional (mul scaledTeleportValue proportion)
          else Delegate
      end
  end.

Section Addresses.

Variable ADDRESSES : chain -> option (string -> option string).

(** [addTokensToAPI(api, tvlAmount)] *)
Definition addTokensToAPI (c : chain) (tvlAmount : number) (api : api_state)
  : api_state :=
  if le tvlAmount (lit 0 0) then api
  else
    match addressOf ADDRESSES c "USDC" with
    | Some usdc =>
        api ++ [AddToken usdc (Math_floor (mul tvlAmount (Math_pow10 6)))]
    | None =>
        let usdt := addressOf ADDRESSES c "USDT" in
        let fallbackToken :=
          match usdt with
          | Some a => Some a
          | None => addressOf ADDRESSES c "DAI"
          end in
        match fallbackToken with
        | Some a =>
            let decimals := match usdt with Some _ => 6 | None => 18 end in
            api ++
            [AddToken a (Math_floor (mul tvlAmount (Math_pow10 decimals)))]
        | None => api
        end
    end.

Definition TOKEN_GATEWAY : string :=
  "0xFd413e3AFe560182C4471F4d143A96d3e259B6dE".
Definition DOT_BRIDGE : string :=
  "0x8d010bf9c26881788b4e6bf5fd1bdc358c8f90b8".

Definition tokensAndOwners (c : chain) : list (string * string) :=
  let pairs sym :=
    match addressOf ADDRESSES c sym with
    | Some a => [(a, TOKEN_GATEWAY); (a, DOT_BRIDGE)]
    | None => []
    end in
  pairs "USDC" ++ pairs "USDT" ++ pairs "DAI".

(** [fallbackContractTVL(api)]: nothing is called when no token is known. *)
Definition fallbackContractTVL (c : chain) (api : api_state) : api_state :=
  match tokensAndOwners c with
  | [] => api
  | l => api ++ [SumTokens2Pairs l]
  end.

(** [calculateTVLFromAPI(api)], given what [fetch] does. *)
Definition calculateTVLFromAPI (c : chain) (r : fetch_result)
  (api : api_state) : api_state :=
  match estimate c (getHyperbridgeTVL r) with
  | Direct usd | Proportional usd => addTokensToAPI c usd api
  | Delegate => fallbackContractTVL c api
  end.

End Addresses.

End B.

(* ===================================================================== *)
(** ** Notions the properties are stated with                            *)
(* ===================================================================== *)

Module Props.
Import JS Bridge.

(** [z] is the integer part of the finite number [x], rounded down: with
    [x = (-1)^s * m * 2^e], either [x] is the integer [z], or
    [z <= x < z + 1] after clearing the denominator [2^(-e)]. *)
Definition isFloorOf (x : number) (z : Z) : Prop :=
  match x with
  | S754_zero _ => z = 0
  | S754_finite s m e =>
      let sm := cond_Zopp s (Zpos m) in
      if 0 <=? e then z = sm * 2 ^ e
      else z * 2 ^ (- e) <= sm < (z + 1) * 2 ^ (- e)
  | _ => False
  end.

(** [text] is the numeral of the non-negative integer-valued number [z]:
    "0" for zero; otherwise the rendering of digits [s] and a power of
    ten [j] such that [s * 10^j] reads back as [z], hence lies within
    half a unit in the last place of [z] (and is [z] itself below 2^53,
    where that bound is 0), no multiple of a higher power of ten reads
    back as [z], and no multiple of [10^j] that does is closer to [z]. *)
Definition isNumeralOf (z : Z) (text : string) : Prop :=
  (z = 0 /\ text = "0") \/
  (0 < z /\
   exists s j,
     text = renderDecimal s j /\ 0 < s /\ 0 <= j /\
     readsBackAs z (scale z * (s * 10 ^ j)) = true /\
     2 * Z.abs (s * 10 ^ j - z) <= 2 ^ (Z.log2 z - 52) /\
     (forall j' t, j < j' ->
        readsBackAs z (scale z * (t * 10 ^ j')) = false) /\
     (forall t, readsBackAs z (scale z * (t * 10 ^ j)) = true ->
        Z.abs (s * 10 ^ j - z) <= Z.abs (t * 10 ^ j - z))).

(** Neither a negative number nor a negative infinity. *)
Definition notNegative (x : number) : bool :=
  match x with
  | S754_finite true _ _ | S754_infinity true => false
  | _ => true
  end.

(** A positive finite number. *)
Definition isPositive (x : number) : bool :=
  match x with
  | S754_finite false _ _ => true
  | _ => false
  end.

(** The exact value of a finite number, [(-1)^s * m * 2^e]. *)
Definition exact (x : number) : Q :=
  match x with
  | S754_finite s m e =>
      (inject_Z (cond_Zopp s (Zpos m)) * Qpower (2 # 1) e)%Q
  | _ => 0%Q
  end.

Definition sumQ (l : list Q) : Q := fold_right Qplus 0%Q l.

(** The allocations [A.addTokensToAPI] applies, read off its branches:
    a stablecoin receives [floor(usd * share * scale)]; the wrapped
    native asset receives the whole estimate, [floor(usd / price * scale)]. *)
Inductive allocation :=
| Stable (token : string) (share scale : number)
| Priced (token : string) (price scale : number).

Definition shareOf (a : allocation) : number :=
  match a with
  | Stable _ share _ => share
  | Priced _ _ _ => lit 1 0
  end.

Definition rawAmount (usd : number) (a : allocation) : number :=
  match a with
  | Stable _ share scale => mul (mul usd share) scale
  | Priced _ price scale => mul (div usd price) scale
  end.

Definition tokenOf (a : allocation) : string :=
  match a with Stable t _ _ | Priced t _ _ => t end.

Definition report (usd : number) (a : allocation) : call :=
  Add (tokenOf a) (Number_toString (Math_floor (rawAmount usd a))).

Section Addresses.

Variable ADDRESSES : chain -> option (string -> option string).

Definition stableAllocation (c : chain) (sym : string) (share scale : number)
  : list allocation :=
  match addressOf ADDRESSES c sym with
  | Some a => [Stable a share scale]
  | None => []
  end.

Definition allocationPlan (c : chain) : list allocation :=
  match stableAllocation c "USDC" (lit 7 (-1)) e6 ++
        stableAllocation c "USDT" (lit 2 (-1)) e6 ++
        stableAllocation c "DAI" (lit 1 (-1)) e18 with
  | [] =>
      match addressOf ADDRESSES c "WETH" with
      | Some a => [Priced a (lit 2500 0) e18]
      | None => []
      end
  | l => l
  end.

End Addresses.



(** The fetch of variant B raises an exception ([fetch] itself or
    [response.json()]) or reports a status that is not a success. *)
Definition fetchFails (r : B.fetch_result) : bool :=
  match r with
  | B.FetchThrows | B.Response false _ | B.Response true B.BodyUnreadable =>
      true
  | B.Response true (B.Body _ _) => false
  end.

End Props.

(* ===================================================================== *)
(** ** Sample data                                                       *)
(* ===================================================================== *)

Module Sample.
Import JS Bridge.

Definition symbols (l : list (string * string)) (sym : string)
  : option string :=
  match find (fun kv => String.eqb (fst kv) sym) l with
  | Some kv => Some (snd kv)
  | None => None
  end.

(** A registry in which Ethereum has the three stablecoins and Soneium
    only the wrapped native asset. *)
Definition addresses (c : chain) : option (string -> option string) :=
  match c with
  | ethereum =>
      Some (symbols [ ("USDC", "0xa0b8"); ("USDT", "0xdac1");
                      ("DAI", "0x6b17"); ("WETH", "0xc02a") ])
  | soneium => Some (symbols [ ("WETH", "0x4200") ])
  | _ => None
  end.

Definition teleport (asset amt src dst : string) : Teleport :=
  {| assetId := asset; amount := Some amt;
     sourceChain := src; destChain := dst |}.

Definition stat (i transfers : string) : ChainStat :=
  {| id := i; totalTransfersIn := Some transfers |}.

Definition answer (stats : list ChainStat) (teleports : list Teleport)
  : gql_data :=
  {| hyperBridgeChainStats := Some {| edges := Some stats |};
     tokenGatewayAssetTeleporteds := Some {| edges := Some teleports |} |}.

(** One unit, two hundred, fifty and 10^16 units of an 18-decimal asset
    moved from Ethereum to Optimism. *)
Definition one : Teleport := teleport "0xaa" "1000000000000000000" "1" "10".
Definition twoHundred : Teleport :=
  teleport "0xaa" "200000000000000000000" "1" "10".
Definition fifty : Teleport :=
  teleport "0xaa" "50000000000000000000" "1" "10".
Definition huge : Teleport :=
  teleport "0xaa" "10000000000000000000000000000000000" "1" "10".

(** A million raw units of an asset named USDC. *)
Definition usdcMillion : Teleport := teleport "USDC" "1000000" "1" "10".

(** An event and a stat of chains the table does not know. *)
Definition stray : Teleport :=
  teleport "0xaa" "1000000000000000000" "999" "998".
Definition strayStat : ChainStat := stat "EVM-999" "1000000000000000000".

Definition ethStat : ChainStat := stat "EVM-1" "1000000000000000000".
Definition opStat : ChainStat := stat "EVM-10" "3000000000000000000".

(** An answer whose first event is of an asset named as one of the
    fields index.js can leave on [Object.prototype], and one whose event
    is of an asset named [__proto__]. *)
Definition leftoverAnswer : gql_data :=
  answer [ethStat; opStat]
    [ teleport "totalAmount" "200000000000000000000" "1" "10";
      usdcMillion ].

Definition pollutingAnswer : gql_data :=
  answer [ethStat]
    [ teleport "__proto__" "200000000000000000000" "1" "10" ].

End Sample.

(* ===================================================================== *)
(** ** Further notions: the rest of the two files                        *)
(* ===================================================================== *)

Module Further.
Import JS Bridge.

(** [tvl(api)] of variant B: [await calculateTVLFromAPI(api)], the value
    returned being dropped.  Every exported chain uses it. *)
Definition tvl (ADDRESSES : chain -> option (string -> option string))
  (c : chain) (r : B.fetch_result) (api : api_state) : api_state :=
  B.calculateTVLFromAPI ADDRESSES c r api.

(** A zero, a positive number or the positive infinity. *)
Definition nonNegative (x : number) : bool :=
  match x with
  | S754_zero _ | S754_finite false _ _ | S754_infinity false => true
  | _ => false
  end.

(** A positive number or the positive infinity. *)
Definition aboveZero (x : number) : bool :=
  match x with
  | S754_finite false _ _ | S754_infinity false => true
  | _ => false
  end.

(** A reported amount that is a non-negative integer or +Infinity. *)
Definition nonNegativeAmount (a : floored) : Prop :=
  match a with
  | FInt z => 0 <= z
  | FInf neg => neg = false
  | FNaN => False
  end.

(** The event with its two ends exchanged. *)
Definition swapEnds (t : Teleport) : Teleport :=
  {| assetId := assetId t; amount := amount t;
     sourceChain := destChain t; destChain := sourceChain t |}.


(** The identifier under which [CHAIN_ID_MAP] lists a chain. *)
Definition chainId (c : chain) : Z :=
  match c with
  | ethereum => 1
  | optimism => 10
  | bsc => 56
  | xdai => 100
  | polygon => 137
  | soneium => 1868
  | base => 8453
  | arbitrum => 42161
  | unichain => 1301
  end.


(** The keys of an object kept in insertion order. *)
Definition keysOf {K V} (m : list (K * V)) : list K := map fst m.

(** Whether a key is an array index. *)
Definition isIndexKey (k : string) : bool :=
  match arrayIndex k with Some _ => true | None => false end.

(** A group is not empty and holds events of its key only. *)
Definition groupOfItsKey (kv : string * list Teleport) : Prop :=
  snd kv <> [] /\
  forall t, In t (snd kv) -> B.assetKey (assetId t) = fst kv.

End Further.

(* ===================================================================== *)
(** ** The two files as they run: objects, inherited names, key order    *)
(* ===================================================================== *)

Module Runtime.
Import JS Bridge Further.

(** *** What outlives an invocation

    Every object literal inherits from [Object.prototype], which lives
    as long as the process.  Lines 140 and 141 of index.js update
    [assetAnalysis[assetId]]; when [assetId] names an inherited
    property, the object they update is the inherited one:
    [Object.prototype] itself for [__proto__], a built-in function for
    the other names.  Both lines store NaN ([undefined + amount]) in it,
    under [totalAmount] and [transferCount].  Apart from the calls on
    [api], no other statement of the two files writes to an object that
    outlives the call.

    A [world] lists the inherited names whose object has been written
    to by earlier invocations. *)
Definition world := list string.

(** Once the two fields sit on [Object.prototype], every plain object
    inherits them. *)
Definition onPrototype (w : world) (key : string) : bool :=
  existsb (String.eqb "__proto__") w &&
  (String.eqb key "totalAmount" || String.eqb key "transferCount").

(** What [obj[key]] finds on a plain object: an own property, the object
    behind an inherited name (truthy), a NaN left on the prototype
    (falsy), or nothing. *)
Inductive found (V : Type) :=
| Own (v : V)
| Inherited (name : string)
| InheritedNaN
| Undefined.
Arguments Own {V} _.
Arguments Inherited {V} _.
Arguments InheritedNaN {V}.
Arguments Undefined {V}.

(** An object is the list of its own properties, in creation order. *)
Fixpoint ownProperty {V} (key : string) (own : list (string * V))
  : option V :=
  match own with
  | [] => None
  | (k, v) :: own' =>
      if String.eqb key k then Some v else ownProperty key own'
  end.

Definition get {V} (w : world) (own : list (string * V)) (key : string)
  : found V :=
  match ownProperty key own with
  | Some v => Own v
  | None =>
      if isProtoName key then Inherited key
      else if onPrototype w key then InheritedNaN
      else Undefined
  end.

(** [obj[key] = v] on an own property: the key keeps its place. *)
Fixpoint setOwn {V} (key : string) (v : V) (own : list (string * V))
  : list (string * V) :=
  match own with
  | [] => []
  | (k, v') :: own' =>
      if String.eqb key k then (k, v) :: own'
      else (k, v') :: setOwn key v own'
  end.

(** [obj[key] = v] for a key that is not an inherited accessor: the own
    property is overwritten, or created after the others. *)
Definition store {V} (key : string) (v : V) (own : list (string * V))
  : list (string * V) :=
  match ownProperty key own with
  | Some _ => setOwn key v own
  | None => own ++ [(key, v)]
  end.

(** *** The order of [Object.keys] and [Object.values]

    The language fixes it by two rules: array-index keys come first, in
    increasing numeric order; the other keys follow, in the order of
    their creation.  [ownKeys own keys] says that [keys] lists the keys
    of [own] in an order obeying the rules. *)
Fixpoint rank {V} (key : string) (own : list (string * V)) : nat :=
  match own with
  | [] => O
  | (k, _) :: own' => if String.eqb key k then O else S (rank key own')
  end.

Definition keyBefore {V} (own : list (string * V)) (a b : string) : Prop :=
  match arrayIndex a, arrayIndex b with
  | Some i, Some j => i < j
  | Some _, None => True
  | None, Some _ => False
  | None, None => (rank a own < rank b own)%nat
  end.

Definition ownKeys {V} (own : list (string * V)) (keys : list string)
  : Prop :=
  Permutation keys (keysOf own) /\ StronglySorted (keyBefore own) keys.

Definition ownValues {V} (own : list (string * V)) (values : list V)
  : Prop :=
  exists keys,
    ownKeys own keys /\
    Forall2 (fun k v => ownProperty k own = Some v) keys values.

(** *** index.js, lines 125 to 147: filing the events *)

Record analysis := {
  totalAmount : number;
  transferCount : number;
  chains : list string
}.

(** [set.add(x)] *)
Definition setAdd (x : string) (s : list string) : list string :=
  if existsb (String.eqb x) s then s else s ++ [x].

(** Lines 140 to 143 on a record of [assetAnalysis]. *)
Definition count (a : analysis) (amount : number) (t : Teleport)
  : analysis :=
  {| totalAmount := add (totalAmount a) amount;
     transferCount := add (transferCount a) (lit 1 0);
     chains := setAdd (destChain t) (setAdd (sourceChain t) (chains a)) |}.

(** [{ totalAmount: 0, transferCount: 0, chains: new Set() }] *)
Definition fresh : analysis :=
  {| totalAmount := lit 0 0; transferCount := lit 0 0; chains := [] |}.

(** The loop.  An own record is updated; a key found nowhere, or only as
    a NaN on the prototype, gets a record first.  For an inherited name
    lines 140 and 141 write to the inherited object and line 142 throws,
    since that object has no [chains].  The result is the object and the
    sum when the loop ends, nothing when it throws, and the world
    left. *)
Fixpoint fileEvents (w : world) (assetAnalysis : list (string * analysis))
  (totalTeleportValue : number) (teleports : list Teleport)
  : option (list (string * analysis) * number) * world :=
  match teleports with
  | [] => (Some (assetAnalysis, totalTeleportValue), w)
  | teleport :: rest =>
      let amount := parseFloatOr0 (Bridge.amount teleport) in
      let assetId := Bridge.assetId teleport in
      match get w assetAnalysis assetId with
      | Inherited name => (None, name :: w)
      | Own a =>
          fileEvents w (setOwn assetId (count a amount teleport) assetAnalysis)
            (add totalTeleportValue (div amount e18)) rest
      | InheritedNaN | Undefined =>
          fileEvents w
            (assetAnalysis ++ [(assetId, count fresh amount teleport)])
            (add totalTeleportValue (div amount e18)) rest
      end
  end.

(** The [try] block of [calculateTVLFromAPI] in index.js, one rule for
    each way out of it; the world is the one the block leaves. *)
Inductive A_estimates (w : world) (c : chain)
  : option gql_data -> decision -> world -> Prop :=
| A_no_data :
    A_estimates w c None Delegate w
| A_no_stats (d : gql_data) :
    hyperBridgeChainStats d = None ->
    A_estimates w c (Some d) Delegate w
| A_caught (d : gql_data) (conn : connection ChainStat) (w' : world) :
    hyperBridgeChainStats d = Some conn ->
    fileEvents w [] (lit 0 0) (teleportsOf d) = (None, w') ->
    A_estimates w c (Some d) Delegate w'
| A_direct (d : gql_data) (conn : connection ChainStat) (w' : world)
    (assetAnalysis : list (string * analysis))
    (totalTeleportValue : number) :
    hyperBridgeChainStats d = Some conn ->
    fileEvents w [] (lit 0 0) (teleportsOf d) =
      (Some (assetAnalysis, totalTeleportValue), w') ->
    gt (A.chainTeleportValue c (teleportsOf d)) (lit 100 0) = true ->
    A_estimates w c (Some d)
      (Direct (A.chainTeleportValue c (teleportsOf d))) w'
| A_proportional (d : gql_data) (conn : connection ChainStat) (w' : world)
    (assetAnalysis : list (string * analysis))
    (totalTeleportValue : number) (chainStat : ChainStat) :
    hyperBridgeChainStats d = Some conn ->
    fileEvents w [] (lit 0 0) (teleportsOf d) =
      (Some (assetAnalysis, totalTeleportValue), w') ->
    gt (A.chainTeleportValue c (teleportsOf d)) (lit 100 0) = false ->
    A.findChainStat c (edgesOrEmpty conn) = Some chainStat ->
    gt totalTeleportValue (lit 0 0) = true ->
    gt (mul totalTeleportValue
          (A.chainProportion (A.transfersInValue chainStat)
             (A.totalNetworkValue (edgesOrEmpty conn)))) (lit 1 0) = true ->
    A_estimates w c (Some d)
      (Proportional
         (mul totalTeleportValue
            (A.chainProportion (A.transfersInValue chainStat)
               (A.totalNetworkValue (edgesOrEmpty conn))))) w'
| A_small_share (d : gql_data) (conn : connection ChainStat) (w' : world)
    (assetAnalysis : list (string * analysis))
    (totalTeleportValue : number) (chainStat : ChainStat) :
    hyperBridgeChainStats d = Some conn ->
    fileEvents w [] (lit 0 0) (teleportsOf d) =
      (Some (assetAnalysis, totalTeleportValue), w') ->
    gt (A.chainTeleportValue c (teleportsOf d)) (lit 100 0) = false ->
    A.findChainStat c (edgesOrEmpty conn) = Some chainStat ->
    gt totalTeleportValue (lit 0 0) = true ->
    gt (mul totalTeleportValue
          (A.chainProportion (A.transfersInValue chainStat)
             (A.totalNetworkValue (edgesOrEmpty conn)))) (lit 1 0) = false ->
    A_estimates w c (Some d) Delegate w'
| A_no_share (d : gql_data) (conn : connection ChainStat) (w' : world)
    (assetAnalysis : list (string * analysis))
    (totalTeleportValue : number) :
    hyperBridgeChainStats d = Some conn ->
    fileEvents w [] (lit 0 0) (teleportsOf d) =
      (Some (assetAnalysis, totalTeleportValue), w') ->
    gt (A.chainTeleportValue c (teleportsOf d)) (lit 100 0) = false ->
    A.findChainStat c (edgesOrEmpty conn) = None \/
    gt totalTeleportValue (lit 0 0) = false ->
    A_estimates w c (Some d) Delegate w'.

(** *** The second file, lines 108 to 159 *)

Definition ASSET_ID_MAP : list (string * string) :=
  [ ("USDC", "USDC"); ("USDT", "USDT"); ("DAI", "DAI") ].

(** [ASSET_ID_MAP[assetId] || assetId], as the property key it is used
    for. *)
Definition assetKey (w : world) (assetId : string) : string :=
  match get w ASSET_ID_MAP assetId with
  | Own EmptyString => assetId
  | Own asset => asset
  | Inherited name => protoKeyText name
  | InheritedNaN | Undefined => assetId
  end.

(** Lines 109 to 117.  [assetMap[asset].push] on an inherited object is
    not a function: the call throws. *)
Fixpoint groupEvents (w : world) (assetMap : list (string * list Teleport))
  (teleports : list Teleport) : option (list (string * list Teleport)) :=
  match teleports with
  | [] => Some assetMap
  | teleport :: rest =>
      let asset := assetKey w (assetId teleport) in
      match get w assetMap asset with
      | Own group =>
          groupEvents w (setOwn asset (group ++ [teleport]) assetMap) rest
      | Inherited _ => None
      | InheritedNaN | Undefined =>
          groupEvents w (assetMap ++ [(asset, [teleport])]) rest
      end
  end.

(** Lines 124 to 138: [assetMap[asset]] is read for each key; reading
    anything but an own array makes [teleports.map] throw. *)
Fixpoint sumAssets (w : world) (assetMap : list (string * list Teleport))
  (uniqueAssets : list string) (totalTeleportValue : number)
  : option number :=
  match uniqueAssets with
  | [] => Some totalTeleportValue
  | asset :: rest =>
      match get w assetMap asset with
      | Own teleports =>
          sumAssets w assetMap rest
            (add totalTeleportValue (B.usdValue asset teleports))
      | _ => None
      end
  end.

(** The values of [CHAIN_ID_MAP], which are the values of [api.chain]. *)
Definition chainName (c : chain) : string :=
  match c with
  | ethereum => "ethereum"
  | optimism => "optimism"
  | bsc => "bsc"
  | xdai => "xdai"
  | polygon => "polygon"
  | base => "base"
  | arbitrum => "arbitrum"
  | soneium => "soneium"
  | unichain => "unichain"
  end.

(** Lines 149 to 156.  The key of [CHAIN_ID_MAP[statChainId]] is the
    text of a number or NaN, which names no inherited property. *)
Definition chainTransferData (chainStats : list ChainStat)
  : list (string * number) :=
  fold_left
    (fun data stat =>
       match CHAIN_ID_MAP (statChainId stat) with
       | Some statChain =>
           store (chainName statChain)
             (div (parseFloatOr0 (totalTransfersIn stat)) e18) data
       | None => data
       end) chainStats [].

(** [chainTransferData[api.chain] || 0]; an inherited object would count
    as NaN in the comparison that follows. *)
Definition orZero (x : found number) : number :=
  match x with
  | Own (S754_zero _) | Own S754_nan => lit 0 0
  | Own v => v
  | Inherited _ => NaN
  | InheritedNaN | Undefined => lit 0 0
  end.

(** The [try] block of [calculateTVLFromAPI] in the second file. *)
Inductive B_estimates (w : world) (c : chain)
  : option gql_data -> decision -> Prop :=
| B_no_data :
    B_estimates w c None Delegate
| B_no_stats (d : gql_data) :
    hyperBridgeChainStats d = None ->
    B_estimates w c (Some d) Delegate
| B_grouping_caught (d : gql_data) (conn : connection ChainStat) :
    hyperBridgeChainStats d = Some conn ->
    groupEvents w [] (teleportsOf d) = None ->
    B_estimates w c (Some d) Delegate
| B_summing_caught (d : gql_data) (conn : connection ChainStat)
    (assetMap : list (string * list Teleport)) (uniqueAssets : list string) :
    hyperBridgeChainStats d = Some conn ->
    groupEvents w [] (teleportsOf d) = Some assetMap ->
    ownKeys assetMap uniqueAssets ->
    sumAssets w assetMap uniqueAssets (lit 0 0) = None ->
    B_estimates w c (Some d) Delegate
| B_proportional (d : gql_data) (conn : connection ChainStat)
    (assetMap : list (string * list Teleport)) (uniqueAssets : list string)
    (totalTeleportValue : number) (values : list number)
    (totalNetworkTransfers chainTransfers : number) :
    hyperBridgeChainStats d = Some conn ->
    groupEvents w [] (teleportsOf d) = Some assetMap ->
    ownKeys assetMap uniqueAssets ->
    sumAssets w assetMap uniqueAssets (lit 0 0) = Some totalTeleportValue ->
    ownValues (chainTransferData (edgesOrEmpty conn)) values ->
    totalNetworkTransfers = fold_left add values (lit 0 0) ->
    chainTransfers =
      orZero (get w (chainTransferData (edgesOrEmpty conn)) (chainName c)) ->
    gt totalNetworkTransfers (lit 0 0) && gt chainTransfers (lit 0 0) = true ->
    B_estimates w c (Some d)
      (Proportional
         (mul totalTeleportValue (div chainTransfers totalNetworkTransfers)))
| B_no_volume (d : gql_data) (conn : connection ChainStat)
    (assetMap : list (string * list Teleport)) (uniqueAssets : list string)
    (totalTeleportValue : number) (values : list number)
    (totalNetworkTransfers chainTransfers : number) :
    hyperBridgeChainStats d = Some conn ->
    groupEvents w [] (teleportsOf d) = Some assetMap ->
    ownKeys assetMap uniqueAssets ->
    sumAssets w assetMap uniqueAssets (lit 0 0) = Some totalTeleportValue ->
    ownValues (chainTransferData (edgesOrEmpty conn)) values ->
    totalNetworkTransfers = fold_left add values (lit 0 0) ->
    chainTransfers =
      orZero (get w (chainTransferData (edgesOrEmpty conn)) (chainName c)) ->
    gt totalNetworkTransfers (lit 0 0) && gt chainTransfers (lit 0 0) = false ->
    B_estimates w c (Some d) Delegate.

Section Addresses.

Variable ADDRESSES : chain -> option (string -> option string).

(** [calculateTVLFromAPI(api)] of index.js: the world and the api it is
    entered with, what [post] does, the world and the api it leaves. *)
Inductive A_calculateTVLFromAPI (w : world) (c : chain)
  (r : A.post_result) (api : api_state) : world -> api_state -> Prop :=
| A_adds_direct (usd : number) (w' : world) :
    A_estimates w c (A.getHyperbridgeTVL r) (Direct usd) w' ->
    A_calculateTVLFromAPI w c r api w' (A.addTokensToAPI ADDRESSES c usd api)
| A_adds_proportional (usd : number) (w' : world) :
    A_estimates w c (A.getHyperbridgeTVL r) (Proportional usd) w' ->
    A_calculateTVLFromAPI w c r api w' (A.addTokensToAPI ADDRESSES c usd api)
| A_falls_back (w' : world) :
    A_estimates w c (A.getHyperbridgeTVL r) Delegate w' ->
    A_calculateTVLFromAPI w c r api w'
      (A.fallbackContractTVL ADDRESSES c api).

(** [calculateTVLFromAPI(api)] of the second file, which leaves the
    world as it finds it. *)
Inductive B_calculateTVLFromAPI (w : world) (c : chain)
  (r : B.fetch_result) (api : api_state) : api_state -> Prop :=
| B_adds (usd : number) :
    B_estimates w c (B.getHyperbridgeTVL r) (Proportional usd) ->
    B_calculateTVLFromAPI w c r api (B.addTokensToAPI ADDRESSES c usd api)
| B_falls_back :
    B_estimates w c (B.getHyperbridgeTVL r) Delegate ->
    B_calculateTVLFromAPI w c r api (B.fallbackContractTVL ADDRESSES c api).

End Addresses.

End Runtime.

(* ===================================================================== *)
(** ** Properties                                                        *)
(* ===================================================================== *)

Import JS Bridge Props Further.

(** *** Numbers *)

Lemma mul_comm (x y : number) : mul x y = mul y x.
Proof.
  unfold mul.
  destruct x as [sx|sx| |sx mx ex], y as [sy|sy| |sy my ey]; simpl;
    try reflexivity; try (rewrite (xorb_comm sx sy); reflexivity).
  rewrite (xorb_comm sx sy), (Pos.mul_comm mx my), (Z.add_comm ex ey).
  reflexivity.
Qed.

(** Rounding keeps the sign it is given. *)
Lemma binary_round_aux_notNegative (m e : Z) (l : location) :
  notNegative (binary_round_aux prec emax false m e l) = true.
Proof.
  unfold binary_round_aux.
  destruct (shr_fexp prec emax m e l) as [mrs' e'].
  destruct (shr_fexp prec emax _ e' loc_Exact) as [mrs'' e''].
  destruct (shr_m mrs''); [reflexivity| |reflexivity].
  destruct (e'' <=? emax - prec); reflexivity.
Qed.

Lemma mul_notNegative (x y : number) :
  notNegative x = true -> notNegative y = true ->
  notNegative (mul x y) = true.
Proof.
  unfold mul.
  destruct x as [sx|[|]| |[|] mx ex], y as [sy|[|]| |[|] my ey]; simpl;
    intros Hx Hy; try discriminate; try reflexivity.
  apply binary_round_aux_notNegative.
Qed.

Lemma div_notNegative (x y : number) :
  notNegative x = true -> isPositive y = true ->
  notNegative (div x y) = true.
Proof.
  unfold div.
  destruct y as [sy|sy| |[|] my ey]; try discriminate.
  destruct x as [sx|[|]| |[|] mx ex]; cbn [SFdiv notNegative xorb];
    intros Hx _; try discriminate; try reflexivity.
  match goal with
  | |- context [SFdiv_core_binary ?p ?q ?a ?b ?c ?d] =>
      destruct (SFdiv_core_binary p q a b c d) as [[mz ez] lz]
  end.
  apply binary_round_aux_notNegative.
Qed.

(** [0 <= x] holds of zeros, positive numbers and the positive infinity. *)
Lemma le_zero_notNegative (x : number) :
  le (lit 0 0) x = true -> notNegative x = true.
Proof.
  destruct x as [s|[|]| |[|] m e]; simpl; intros H;
    try reflexivity; discriminate H.
Qed.

(** A product with zero is a zero or NaN, hence never above 1. *)
Lemma mul_zero_not_gt_one (x : number) :
  gt (mul x (lit 0 0)) (lit 1 0) = false.
Proof. destruct x as [s|s| |s m e]; reflexivity. Qed.

(** *** Math.floor *)

Lemma Math_floor_finite (x : number) :
  isFinite x = true -> exists z, Math_floor x = FInt z /\ isFloorOf x z.
Proof.
  destruct x as [s|s| |s m e]; simpl; intros H; try discriminate H.
  - exists 0. split; reflexivity.
  - exists (Z.shiftl (cond_Zopp s (Z.pos m)) e). split; [reflexivity|].
    destruct (0 <=? e) eqn:He.
    + apply Z.leb_le in He. apply Z.shiftl_mul_pow2. exact He.
    + apply Z.leb_gt in He.
      assert (Hd : 0 < 2 ^ (- e)) by (apply Z.pow_pos_nonneg; lia).
      set (sm := cond_Zopp s (Z.pos m)). set (d := 2 ^ (- e)) in *.
      assert (Hz : Z.shiftl sm e = sm / d).
      { replace e with (- (- e)) at 1 by lia.
        rewrite Z.shiftl_opp_r. apply Z.shiftr_div_pow2. lia. }
      rewrite Hz.
      pose proof (Z.mul_div_le sm d Hd).
      pose proof (Z.mul_succ_div_gt sm d Hd).
      lia.
Qed.

Lemma Math_floor_notNegative (x : number) (z : Z) :
  notNegative x = true -> Math_floor x = FInt z -> 0 <= z.
Proof.
  destruct x as [s|s| |[|] m e]; simpl; intros Hx H; try discriminate;
    inversion H; subst; [lia|].
  apply Z.shiftl_nonneg. lia.
Qed.

(** *** The text of an integer *)

Lemma ulp_le (z : Z) : 0 < z -> 2 ^ Z.log2 z <= z < 2 * 2 ^ Z.log2 z.
Proof.
  intros H. pose proof (Z.log2_spec z H) as [H1 H2].
  rewrite Z.pow_succ_r in H2 by apply Z.log2_nonneg. lia.
Qed.

Lemma scale_facts (z : Z) :
  0 < z ->
  0 < scale z /\ 0 < lowerGap z <= halfUlp z /\ halfUlp z <= scale z * z /\
  lowerGap z < scale z * z.
Proof.
  intros Hz. pose proof (ulp_le z Hz) as Hl.
  pose proof (Z.log2_nonneg z) as Hn.
  unfold scale, lowerGap, halfUlp, ulpExponent.
  destruct (0 <=? Z.log2 z - 52) eqn:E.
  - apply Z.leb_le in E.
    assert (Hp : 0 < 2 ^ (Z.log2 z - 52)) by (apply Z.pow_pos_nonneg; lia).
    assert (Hq : 2 ^ (Z.log2 z - 52) <= 2 ^ Z.log2 z)
      by (apply Z.pow_le_mono_r; lia).
    destruct (z =? 2 ^ Z.log2 z).
    + rewrite Z.mul_comm, Z.div_mul by lia. lia.
    + lia.
  - apply Z.leb_gt in E.
    assert (Hp : 0 < 2 ^ (- (Z.log2 z - 52))) by (apply Z.pow_pos_nonneg; lia).
    assert (Hq : 2 <= 2 ^ (- (Z.log2 z - 52))).
    { change 2 with (2 ^ 1) at 1. apply Z.pow_le_mono_r; lia. }
    set (q := 2 ^ (- (Z.log2 z - 52))) in *.
    assert (Hz8 : 8 <= 4 * q * z) by nia.
    destruct (z =? 2 ^ Z.log2 z); [change (2 / 2) with 1|]; lia.
Qed.

(** The rounding interval is an interval, and holds [z]. *)
Lemma readsBackAs_between (z a b x : Z) :
  readsBackAs z a = true -> readsBackAs z b = true -> a <= x <= b ->
  readsBackAs z x = true.
Proof.
  unfold readsBackAs. destruct (closedEnds z); cbv zeta;
    rewrite !andb_true_iff, ?Z.leb_le, ?Z.ltb_lt; lia.
Qed.

Lemma readsBackAs_self (z : Z) :
  0 < z -> readsBackAs z (scale z * z) = true.
Proof.
  intros Hz. destruct (scale_facts z Hz) as (Hs & Hg & Hh & _).
  unfold readsBackAs. destruct (closedEnds z); cbv zeta;
    rewrite !andb_true_iff, ?Z.leb_le, ?Z.ltb_lt; lia.
Qed.

Lemma readsBackAs_bounds (z v : Z) :
  readsBackAs z v = true ->
  scale z * z - lowerGap z <= v <= scale z * z + halfUlp z.
Proof.
  unfold readsBackAs. destruct (closedEnds z); cbv zeta;
    rewrite !andb_true_iff, ?Z.leb_le, ?Z.ltb_lt; lia.
Qed.

Lemma closest_readsBack (z j s : Z) :
  closest z j = Some s ->
  readsBackAs z (s * (scale z * 10 ^ j)) = true.
Proof.
  unfold closest. cbv zeta.
  set (P := scale z * 10 ^ j). set (t0 := scale z * z / P).
  destruct (readsBackAs z (t0 * P)) eqn:E0,
           (readsBackAs z ((t0 + 1) * P)) eqn:E1; intros H;
    try discriminate H; injection H as <-; trivial.
  destruct (_ <? _); [exact E0|].
  destruct (_ <? _); [exact E1|].
  destruct (Z.even t0); assumption.
Qed.

(** When no candidate is found, no multiple of the power reads back. *)
Lemma closest_none (z j : Z) :
  0 < z -> 0 <= j -> closest z j = None ->
  forall t, readsBackAs z (t * (scale z * 10 ^ j)) = false.
Proof.
  intros Hz Hj. destruct (scale_facts z Hz) as (Hs & _).
  unfold closest. cbv zeta.
  assert (HP : 0 < scale z * 10 ^ j).
  { apply Z.mul_pos_pos; [exact Hs|]. apply Z.pow_pos_nonneg; lia. }
  set (P := scale z * 10 ^ j) in *. set (Zs := scale z * z).
  set (t0 := Zs / P).
  pose proof (Z.mul_div_le Zs P HP) as Hlo.
  pose proof (Z.mul_succ_div_gt Zs P HP) as Hhi.
  fold t0 in Hlo, Hhi.
  destruct (readsBackAs z (t0 * P)) eqn:E0,
           (readsBackAs z ((t0 + 1) * P)) eqn:E1; intros H;
    try discriminate H.
  intros t. destruct (readsBackAs z (t * P)) eqn:Et; [|reflexivity].
  pose proof (readsBackAs_self z Hz) as Hself. fold Zs in Hself.
  destruct (Z_le_gt_dec t t0) as [Hle|Hgt].
  - rewrite <- E0. symmetry.
    apply (readsBackAs_between z (t * P) Zs); trivial. nia.
  - rewrite <- E1. symmetry.
    apply (readsBackAs_between z Zs (t * P)); trivial. nia.
Qed.

Lemma closest_zero (z : Z) : 0 < z -> closest z 0 = Some z.
Proof.
  intros Hz. destruct (scale_facts z Hz) as (Hs & _).
  unfold closest. cbv zeta. rewrite Z.pow_0_r, Z.mul_1_r.
  assert (Ht : scale z * z / scale z = z)
    by (rewrite Z.mul_comm; apply Z.div_mul; lia).
  rewrite Ht. replace (z * scale z) with (scale z * z) by lia.
  rewrite (readsBackAs_self z Hz).
  replace (scale z * z - scale z * z) with 0 by lia.
  destruct (readsBackAs z ((z + 1) * scale z)); [|reflexivity].
  replace (0 <? (z + 1) * scale z - scale z * z) with true; [reflexivity|].
  symmetry. apply Z.ltb_lt. nia.
Qed.

Lemma maxPower_spec (fuel : nat) (z j : Z) :
  closest z j <> None ->
  closest z (maxPower fuel z j) <> None /\
  j <= maxPower fuel z j /\
  (closest z (maxPower fuel z j + 1) = None \/
   maxPower fuel z j = j + Z.of_nat fuel).
Proof.
  revert j. induction fuel as [|f IH]; intros j Hj; cbn [maxPower].
  - split; [exact Hj|]. split; [lia|]. right. cbn. lia.
  - destruct (closest z (j + 1)) eqn:E.
    + destruct (IH (j + 1)) as (H1 & H2 & H3); [rewrite E; discriminate|].
      split; [exact H1|]. split; [lia|].
      destruct H3 as [H3|H3]; [now left|right]. lia.
    + split; [exact Hj|]. split; [lia|]. now left.
Qed.

(** A power of ten that large has no multiple in the interval. *)
Lemma closest_beyond (z j : Z) :
  0 < z -> Z.log2 z + 1 <= j -> closest z (j + 1) = None.
Proof.
  intros Hz Hj. destruct (closest z (j + 1)) as [s|] eqn:E; [|reflexivity].
  exfalso. apply closest_readsBack, readsBackAs_bounds in E.
  destruct (scale_facts z Hz) as (Hs & Hg & Hh & Hlt).
  pose proof (ulp_le z Hz) as Hl. pose proof (Z.log2_nonneg z) as Hn.
  assert (H10 : 20 * 2 ^ Z.log2 z <= 10 ^ (j + 1)).
  { rewrite Z.pow_add_r, Z.pow_1_r by lia.
    assert (H2j : 2 * 2 ^ Z.log2 z <= 2 ^ j).
    { replace (2 * 2 ^ Z.log2 z) with (2 ^ (Z.log2 z + 1))
        by (rewrite Z.pow_add_r by lia; lia).
      apply Z.pow_le_mono_r; lia. }
    assert (H2t : 2 ^ j <= 10 ^ j) by (apply Z.pow_le_mono_l; lia).
    lia. }
  set (P := 10 ^ (j + 1)) in *.
  assert (HsP : 0 < s * (scale z * P)) by lia.
  assert (Hs1 : 1 <= s) by nia.
  assert (Hbig : scale z * (2 * z) < scale z * P) by nia.
  nia.
Qed.

Lemma shortestDecimal_spec (z s j : Z) :
  0 < z -> shortestDecimal z = (s, j) ->
  0 <= j /\ closest z j = Some s /\ closest z (j + 1) = None.
Proof.
  intros Hz. unfold shortestDecimal. cbv zeta.
  assert (H0 : closest z 0 <> None) by (rewrite closest_zero by exact Hz; discriminate).
  destruct (maxPower_spec (Z.to_nat (Z.log2 z) + 1) z 0 H0) as (H1 & H2 & H3).
  set (jm := maxPower _ z 0) in *.
  destruct (closest z jm) as [s'|] eqn:E; [|now destruct H1].
  intros H. injection H as <- <-. split; [exact H2|]. split; [exact E|].
  destruct H3 as [H3|H3]; [exact H3|].
  apply closest_beyond; trivial.
  pose proof (Z.log2_nonneg z). lia.
Qed.

Lemma closest_nearest (z j s : Z) :
  0 < z -> 0 <= j -> closest z j = Some s ->
  forall t, readsBackAs z (t * (scale z * 10 ^ j)) = true ->
  Z.abs (s * (scale z * 10 ^ j) - scale z * z) <=
  Z.abs (t * (scale z * 10 ^ j) - scale z * z).
Proof.
  intros Hz Hj. destruct (scale_facts z Hz) as (Hs & _).
  unfold closest. cbv zeta.
  assert (HP : 0 < scale z * 10 ^ j).
  { apply Z.mul_pos_pos; [exact Hs|]. apply Z.pow_pos_nonneg; lia. }
  set (P := scale z * 10 ^ j) in *. set (Zs := scale z * z).
  set (t0 := Zs / P).
  pose proof (Z.mul_div_le Zs P HP) as Hlo.
  pose proof (Z.mul_succ_div_gt Zs P HP) as Hhi.
  fold t0 in Hlo, Hhi.
  pose proof (readsBackAs_self z Hz) as Hself. fold Zs in Hself.
  intros H t Ht.
  assert (Hcase : t * P <= t0 * P \/ (t0 + 1) * P <= t * P)
    by (destruct (Z_le_gt_dec t t0); [left|right]; nia).
  destruct (readsBackAs z (t0 * P)) eqn:E0,
           (readsBackAs z ((t0 + 1) * P)) eqn:E1;
    try discriminate H; injection H as <-.
  - destruct (Zs - t0 * P <? (t0 + 1) * P - Zs) eqn:C1;
      [apply Z.ltb_lt in C1; lia|apply Z.ltb_ge in C1].
    destruct ((t0 + 1) * P - Zs <? Zs - t0 * P) eqn:C2;
      [apply Z.ltb_lt in C2; lia|apply Z.ltb_ge in C2].
    destruct (Z.even t0); lia.
  - destruct Hcase as [Hc|Hc]; [lia|].
    rewrite (readsBackAs_between z Zs (t * P) ((t0 + 1) * P)) in E1;
      trivial; [discriminate E1|lia].
  - destruct Hcase as [Hc|Hc]; [|lia].
    rewrite (readsBackAs_between z (t * P) Zs (t0 * P)) in E0;
      trivial; [discriminate E0|lia].
Qed.

Lemma half_ulp_bound (z v : Z) :
  0 < z -> readsBackAs z (scale z * v) = true ->
  2 * Z.abs (v - z) <= 2 ^ (Z.log2 z - 52).
Proof.
  intros Hz H. apply readsBackAs_bounds in H.
  destruct (scale_facts z Hz) as (Hs & Hg & _).
  revert H Hs Hg. unfold scale, lowerGap, halfUlp, ulpExponent.
  destruct (0 <=? Z.log2 z - 52) eqn:E.
  - set (u := 2 ^ (Z.log2 z - 52)).
    destruct (z =? 2 ^ Z.log2 z); intros; lia.
  - apply Z.leb_gt in E. rewrite (Z.pow_neg_r 2 (Z.log2 z - 52)) by lia.
    assert (Hq : 2 <= 2 ^ (- (Z.log2 z - 52))).
    { change 2 with (2 ^ 1) at 1. apply Z.pow_le_mono_r; lia. }
    set (q := 2 ^ (- (Z.log2 z - 52))) in *.
    destruct (z =? 2 ^ Z.log2 z); intros; nia.
Qed.

(** The text of a non-negative integer-valued number is its numeral. *)
Lemma Number_toString_numeral (z : Z) :
  0 <= z -> isNumeralOf z (Number_toString (FInt z)).
Proof.
  intros Hz. destruct z as [|p|p]; [left; split; reflexivity| |lia].
  right. split; [lia|]. cbn [Number_toString]. unfold positiveToString.
  destruct (shortestDecimal (Z.pos p)) as [s j] eqn:E.
  assert (Hp : 0 < Z.pos p) by lia.
  destruct (shortestDecimal_spec _ _ _ Hp E) as (Hj & Hs & Hnone).
  destruct (scale_facts _ Hp) as (Hsc & Hg & Hh & Hlt).
  pose proof (closest_readsBack _ _ _ Hs) as Hrb.
  assert (H10 : 0 < 10 ^ j) by (apply Z.pow_pos_nonneg; lia).
  assert (Heq : forall t k, scale (Z.pos p) * (t * 10 ^ k) =
                            t * (scale (Z.pos p) * 10 ^ k)) by (intros; ring).
  exists s, j. split; [reflexivity|].
  split; [|split; [exact Hj|split; [|split; [|split]]]].
  - apply readsBackAs_bounds in Hrb. nia.
  - rewrite Heq. exact Hrb.
  - apply half_ulp_bound; trivial. rewrite Heq. exact Hrb.
  - intros j' t Hlt'.
    replace (t * 10 ^ j') with (t * 10 ^ (j' - (j + 1)) * 10 ^ (j + 1)).
    + rewrite Heq. apply closest_none; trivial. lia.
    + rewrite <- Z.mul_assoc, <- Z.pow_add_r by lia. f_equal. f_equal. lia.
  - intros t Ht. rewrite Heq in Ht.
    pose proof (closest_nearest _ _ _ Hp Hj Hs t Ht) as Hn.
    rewrite <- !Heq in Hn.
    rewrite <- !Z.mul_sub_distr_l, !Z.abs_mul in Hn.
    rewrite (Z.abs_eq (scale (Z.pos p))) in Hn by lia.
    apply Z.mul_le_mono_pos_l in Hn; trivial.
Qed.

(** The text of some integers beyond 2^53, of an infinity and of NaN. *)
Lemma Number_toString_samples :
  Number_toString (FInt 99999999999999991611392) = "1e+23" /\
  Number_toString (FInt (2 ^ 64)) = "18446744073709552000" /\
  Number_toString (FInt (2 ^ 53)) = "9007199254740992" /\
  Number_toString (FInt (2 ^ 70)) = "1.1805916207174113e+21" /\
  Number_toString (FInf false) = "Infinity" /\
  Number_toString FNaN = "NaN".
Proof. repeat split; vm_compute; reflexivity. Qed.

(** *** The api state only grows *)

Lemma issued_app (api : api_state) (l : list call) :
  issued api (api ++ l) = l.
Proof.
  unfold issued. rewrite skipn_app, skipn_all, Nat.sub_diag. reflexivity.
Qed.

Lemma issued_same (api : api_state) : issued api api = [].
Proof. unfold issued. apply skipn_all. Qed.

(** *** The Token Allocator *)

Section Allocator.

Variable ADDRESSES : chain -> option (string -> option string).

(** [A.addTokensToAPI] appends one report per planned allocation. *)
Lemma addTokensToAPI_plan (c : chain) (usd : number) (api : api_state) :
  A.addTokensToAPI ADDRESSES c usd api =
  api ++ map (report usd) (allocationPlan ADDRESSES c).
Proof.
  unfold A.addTokensToAPI, allocationPlan, stableAllocation.
  destruct (addressOf ADDRESSES c "USDC"),
           (addressOf ADDRESSES c "USDT"),
           (addressOf ADDRESSES c "DAI"),
           (addressOf ADDRESSES c "WETH");
    cbn [map]; unfold report; cbn [tokenOf rawAmount];
    rewrite <- ?app_assoc, ?app_nil_r; cbn [app]; reflexivity.
Qed.

(** The entries of the plan, branch by branch. *)
Lemma allocationPlan_entries (c : chain) (a : allocation) :
  In a (allocationPlan ADDRESSES c) ->
  (exists t, addressOf ADDRESSES c "USDC" = Some t /\
             a = Stable t (lit 7 (-1)) e6) \/
  (exists t, addressOf ADDRESSES c "USDT" = Some t /\
             a = Stable t (lit 2 (-1)) e6) \/
  (exists t, addressOf ADDRESSES c "DAI" = Some t /\
             a = Stable t (lit 1 (-1)) e18) \/
  (exists t, addressOf ADDRESSES c "WETH" = Some t /\
             a = Priced t (lit 2500 0) e18 /\
             addressOf ADDRESSES c "USDC" = None /\
             addressOf ADDRESSES c "USDT" = None /\
             addressOf ADDRESSES c "DAI" = None).
Proof.
  unfold allocationPlan, stableAllocation.
  destruct (addressOf ADDRESSES c "USDC") as [u|],
           (addressOf ADDRESSES c "USDT") as [t|],
           (addressOf ADDRESSES c "DAI") as [d|],
           (addressOf ADDRESSES c "WETH") as [w|];
    cbn [app In]; intros H;
    repeat match goal with
           | H : _ \/ _ |- _ => destruct H as [H|H]
           | H : False |- _ => destruct H
           end; subst a; eauto 10.
Qed.

Lemma rawAmount_notNegative (c : chain) (usd : number) (a : allocation) :
  notNegative usd = true ->
  In a (allocationPlan ADDRESSES c) ->
  notNegative (rawAmount usd a) = true.
Proof.
  intros Hu Ha.
  destruct (allocationPlan_entries c a Ha)
    as [(t & _ & ->)|[(t & _ & ->)|[(t & _ & ->)|(t & _ & -> & _)]]];
    cbn [rawAmount].
  1-3: apply mul_notNegative;
         [apply mul_notNegative; [exact Hu|]|]; vm_compute; reflexivity.
  apply mul_notNegative;
    [apply div_notNegative; [exact Hu|]|]; vm_compute; reflexivity.
Qed.

End Allocator.

(** C5, as stated, fails in variant A.  On a chain with no stablecoin the
    allocator reports the wrapped native asset priced at 2500 per unit:
    for an estimate of 2500 the amount is 10^18, not
    floor(2500 * 100% * 10^18).  An estimate of 10^300 overflows the
    18-decimal product, so the amount reported for DAI is Infinity, not
    an integer.  And the amount is handed over as the text of the
    floored number: for an estimate of 101 the DAI product floors to
    10100000000000002048 and the text reported is 10100000000000002000,
    which is not the floor of the product. *)
Lemma C5_priced_and_overflowing_amounts :
  le (lit 0 0) (lit 2500 0) = true /\
  A.addTokensToAPI Sample.addresses soneium (lit 2500 0) [] =
    [Add "0x4200" "1000000000000000000"] /\
  Math_floor (mul (mul (lit 2500 0) (lit 1 0)) e18) = FInt (2500 * 10 ^ 18) /\
  Number_toString (FInt (2500 * 10 ^ 18)) = "2.5e+21" /\
  le (lit 0 0) (lit 1 300) = true /\
  In (Add "0x6b17" "Infinity")
     (A.addTokensToAPI Sample.addresses ethereum (lit 1 300) []) /\
  le (lit 0 0) (lit 101 0) = true /\
  Math_floor (mul (mul (lit 101 0) (lit 1 (-1))) e18) =
    FInt 10100000000000002048 /\
  In (Add "0x6b17" "10100000000000002000")
     (A.addTokensToAPI Sample.addresses ethereum (lit 101 0) []).
Proof.
  do 5 (split; [vm_compute; reflexivity|]).
  split.
  { rewrite addTokensToAPI_plan. cbn [app].
    replace (Add "0x6b17" "Infinity")
      with (report (lit 1 300) (Stable "0x6b17" (lit 1 (-1)) e18))
      by (vm_compute; reflexivity).
    apply in_map. vm_compute. right. right. left. reflexivity. }
  do 2 (split; [vm_compute; reflexivity|]).
  vm_compute. right. right. left. reflexivity.
Qed.

(** C5 (amended): for every non-negative estimate, each amount the Token
    Allocator reports comes from [Math.floor] of a product of the
    estimate: [usd * 0.7 * 1e6] for USDC, [usd * 0.2 * 1e6] for USDT,
    [usd * 0.1 * 1e18] for DAI and, when none of them exists,
    [usd / 2500 * 1e18] for WETH in variant A; in variant B
    [usd * 10^6] for USDC, or for USDT when USDC is missing, and
    [usd * 10^18] for DAI when both are missing.  Whenever that product
    is finite its floor is a non-negative integer [z] with
    [z <= product < z + 1]: it is rounded down, never up.  Variant B
    reports the number [z]; variant A reports its text, the numeral of
    [z]: the shortest decimal that reads back as [z], equal to [z] below
    2^53 and within half a unit in the last place of [z] above.  An
    estimate of 1000 on a chain that has USDC reports 700000000 of it. *)
Theorem C5_allocator_amounts_are_floors
  (ADDRESSES : chain -> option (string -> option string))
  (c : chain) (usd : number) :
  le (lit 0 0) usd = true ->
  (forall k, In k (A.addTokensToAPI ADDRESSES c usd []) ->
     exists token raw,
       k = Add token (Number_toString (Math_floor raw)) /\
       ((addressOf ADDRESSES c "USDC" = Some token /\
         raw = mul (mul usd (lit 7 (-1))) e6) \/
        (addressOf ADDRESSES c "USDT" = Some token /\
         raw = mul (mul usd (lit 2 (-1))) e6) \/
        (addressOf ADDRESSES c "DAI" = Some token /\
         raw = mul (mul usd (lit 1 (-1))) e18) \/
        (addressOf ADDRESSES c "WETH" = Some token /\
         raw = mul (div usd (lit 2500 0)) e18)) /\
       (isFinite raw = true ->
        exists z,
          Math_floor raw = FInt z /\ 0 <= z /\ isFloorOf raw z /\
          isNumeralOf z (Number_toString (Math_floor raw)))) /\
  (forall k, In k (B.addTokensToAPI ADDRESSES c usd []) ->
     exists token decimals,
       k = AddToken token (Math_floor (mul usd (B.Math_pow10 decimals))) /\
       ((addressOf ADDRESSES c "USDC" = Some token /\ decimals = 6) \/
        (addressOf ADDRESSES c "USDC" = None /\
         addressOf ADDRESSES c "USDT" = Some token /\ decimals = 6) \/
        (addressOf ADDRESSES c "USDC" = None /\
         addressOf ADDRESSES c "USDT" = None /\
         addressOf ADDRESSES c "DAI" = Some token /\ decimals = 18)) /\
       (isFinite (mul usd (B.Math_pow10 decimals)) = true ->
        exists z,
          Math_floor (mul usd (B.Math_pow10 decimals)) = FInt z /\
          0 <= z /\ isFloorOf (mul usd (B.Math_pow10 decimals)) z)) /\
  (forall usdc, addressOf ADDRESSES c "USDC" = Some usdc ->
     In (Add usdc "700000000")
        (A.addTokensToAPI ADDRESSES c (lit 1000 0) [])).
Proof.
  intros Hle.
  pose proof (le_zero_notNegative usd Hle) as Hu.
  assert (Hfloor : forall raw, notNegative raw = true -> isFinite raw = true ->
            exists z, Math_floor raw = FInt z /\ 0 <= z /\ isFloorOf raw z).
  { intros raw Hn Hf. destruct (Math_floor_finite raw Hf) as (z & Hz & Hfl).
    exists z. repeat split; trivial.
    apply (Math_floor_notNegative raw z Hn Hz). }
  split; [|split].
  - intros k Hk. rewrite addTokensToAPI_plan in Hk. cbn [app] in Hk.
    apply in_map_iff in Hk. destruct Hk as (a & <- & Ha).
    pose proof (rawAmount_notNegative ADDRESSES c usd a Hu Ha) as Hn.
    exists (tokenOf a), (rawAmount usd a).
    split; [reflexivity|]. split.
    + destruct (allocationPlan_entries ADDRESSES c a Ha)
        as [(t & E & ->)|[(t & E & ->)|[(t & E & ->)|(t & E & -> & _)]]];
        cbn [tokenOf rawAmount]; auto 6.
    + intros Hf. destruct (Hfloor _ Hn Hf) as (z & Hz & Hz0 & Hfl).
      exists z. repeat split; trivial.
      rewrite Hz. apply Number_toString_numeral, Hz0.
  - intros k Hk. unfold B.addTokensToAPI in Hk.
    destruct (le usd (lit 0 0)); [destruct Hk|].
    assert (Hn : forall d, d = 6 \/ d = 18 ->
              isFinite (mul usd (B.Math_pow10 d)) = true ->
              exists z,
                Math_floor (mul usd (B.Math_pow10 d)) = FInt z /\
                0 <= z /\ isFloorOf (mul usd (B.Math_pow10 d)) z).
    { intros d Hd. apply Hfloor.
      destruct Hd as [-> | ->]; apply mul_notNegative; trivial;
        vm_compute; reflexivity. }
    destruct (addressOf ADDRESSES c "USDC") as [u|].
    + destruct Hk as [<-|[]]. exists u, 6.
      split; [reflexivity|]. split; [auto|]. apply Hn. now left.
    + destruct (addressOf ADDRESSES c "USDT") as [t|].
      * destruct Hk as [<-|[]]. exists t, 6.
        split; [reflexivity|]. split; [auto|]. apply Hn. now left.
      * destruct (addressOf ADDRESSES c "DAI") as [d|]; [|destruct Hk].
        destruct Hk as [<-|[]]. exists d, 18.
        split; [reflexivity|]. split; [auto 6|]. apply Hn. now right.
  - intros usdc E. unfold A.addTokensToAPI. rewrite E.
    destruct (addressOf ADDRESSES c "USDT"), (addressOf ADDRESSES c "DAI");
      cbn [app]; rewrite ?in_app_iff; cbn [In];
      repeat (try (left; vm_compute; reflexivity); left).
Qed.

(** C5 at an estimate of 1000 on Ethereum, where the registry has the
    three stablecoins. *)
Lemma C5_allocator_amounts_are_floors_witness :
  le (lit 0 0) (lit 1000 0) = true /\
  In (Add "0xa0b8" "700000000")
     (A.addTokensToAPI Sample.addresses ethereum (lit 1000 0) []).
Proof.
  split; [vm_compute; reflexivity|].
  refine (proj2 (proj2 (C5_allocator_amounts_are_floors
                          Sample.addresses ethereum (lit 1000 0) _))
                "0xa0b8" _);
    vm_compute; reflexivity.
Defined.

(** C8: variant A's allocator issues exactly the reports of its
    allocation plan, and the shares of the estimate the plan applies sum
    to at most the whole estimate: the constants 0.7, 0.2 and 0.1 for
    the stablecoins that exist on the chain, or, only when none of the
    three exists, the whole estimate to WETH alone. *)
Theorem C8_allocation_shares_within_estimate
  (ADDRESSES : chain -> option (string -> option string))
  (c : chain) (usd : number) (api : api_state) :
  issued api (A.addTokensToAPI ADDRESSES c usd api) =
    map (report usd) (allocationPlan ADDRESSES c) /\
  (sumQ (map (fun a => exact (shareOf a)) (allocationPlan ADDRESSES c))
     <= 1)%Q /\
  (forall a, In a (allocationPlan ADDRESSES c) ->
     (exists t, addressOf ADDRESSES c "USDC" = Some t /\
                a = Stable t (lit 7 (-1)) e6) \/
     (exists t, addressOf ADDRESSES c "USDT" = Some t /\
                a = Stable t (lit 2 (-1)) e6) \/
     (exists t, addressOf ADDRESSES c "DAI" = Some t /\
                a = Stable t (lit 1 (-1)) e18) \/
     (exists t, addressOf ADDRESSES c "WETH" = Some t /\
                a = Priced t (lit 2500 0) e18 /\
                allocationPlan ADDRESSES c = [a] /\
                addressOf ADDRESSES c "USDC" = None /\
                addressOf ADDRESSES c "USDT" = None /\
                addressOf ADDRESSES c "DAI" = None)).
Proof.
  split; [|split].
  - rewrite addTokensToAPI_plan. apply issued_app.
  - unfold allocationPlan, stableAllocation.
    destruct (addressOf ADDRESSES c "USDC"),
             (addressOf ADDRESSES c "USDT"),
             (addressOf ADDRESSES c "DAI"),
             (addressOf ADDRESSES c "WETH");
      apply Qle_bool_imp_le; vm_compute; reflexivity.
  - intros a Ha.
    destruct (allocationPlan_entries ADDRESSES c a Ha)
      as [H|[H|[H|(t & Ew & -> & Eu & Et & Ed)]]]; auto.
    right. right. right. exists t. repeat split; trivial.
    unfold allocationPlan, stableAllocation.
    rewrite Eu, Et, Ed, Ew. reflexivity.
Qed.

(** C9: in variant B an estimate that is zero or negative makes
    [addTokensToAPI] return at once: the api state is unchanged and no
    report is issued. *)
Theorem C9_nonpositive_estimate_reports_nothing
  (ADDRESSES : chain -> option (string -> option string))
  (c : chain) (tvlAmount : number) (api : api_state) :
  le tvlAmount (lit 0 0) = true ->
  B.addTokensToAPI ADDRESSES c tvlAmount api = api /\
  issued api (B.addTokensToAPI ADDRESSES c tvlAmount api) = [].
Proof.
  intros H. unfold B.addTokensToAPI. rewrite H.
  split; [reflexivity|apply issued_same].
Qed.

(** C9 at an estimate of -5 on Ethereum. *)
Lemma C9_nonpositive_estimate_reports_nothing_witness :
  B.addTokensToAPI Sample.addresses ethereum (ofDecimal true 5 0) [] = [] /\
  issued [] (B.addTokensToAPI Sample.addresses ethereum
               (ofDecimal true 5 0) []) = [].
Proof.
  apply (C9_nonpositive_estimate_reports_nothing
           Sample.addresses ethereum (ofDecimal true 5 0) []).
  vm_compute. reflexivity.
Defined.

(** *** The sums of the estimator *)

Lemma chainTeleportValue_from (c : chain) (teleports : list Teleport)
  (acc : number) :
  fold_left
    (fun acc t => if A.involves c t then add acc (A.teleportValue t) else acc)
    teleports acc =
  fold_left add (map A.teleportValue (filter (A.involves c) teleports)) acc.
Proof.
  revert acc. induction teleports as [|t ts IH]; intros acc; cbn [fold_left filter].
  - reflexivity.
  - rewrite IH. destruct (A.involves c t); reflexivity.
Qed.

Lemma mapsTo_unmapped (i : option Z) (c : chain) :
  CHAIN_ID_MAP i = None -> mapsTo i c = false.
Proof. unfold mapsTo. intros ->. reflexivity. Qed.

Lemma findChainStat_skip (c : chain) (s : ChainStat) (l1 l2 : list ChainStat) :
  CHAIN_ID_MAP (statChainId s) = None ->
  A.findChainStat c (l1 ++ s :: l2) = A.findChainStat c (l1 ++ l2).
Proof.
  intros Hs. unfold A.findChainStat.
  induction l1 as [|x l1 IH]; cbn [app find].
  - rewrite (mapsTo_unmapped _ c Hs). reflexivity.
  - destruct (mapsTo (statChainId x) c); [reflexivity|exact IH].
Qed.

Lemma chainTransferData_skip (s : ChainStat) (l1 l2 : list ChainStat) :
  CHAIN_ID_MAP (statChainId s) = None ->
  B.chainTransferData (l1 ++ s :: l2) = B.chainTransferData (l1 ++ l2).
Proof.
  intros Hs. unfold B.chainTransferData.
  rewrite !fold_left_app. cbn [fold_left]. rewrite Hs. reflexivity.
Qed.

(** C1, as stated, fails: variant A adds every stat to the total network
    value, whatever its chain identifier, and both variants add every
    event to the total teleport value.  The stat of chain 999 and the
    event between chains 999 and 998 are unmapped and still counted. *)
Lemma C1_unmapped_records_are_counted :
  CHAIN_ID_MAP (statChainId Sample.strayStat) = None /\
  A.totalNetworkValue [] = lit 0 0 /\
  A.totalNetworkValue [Sample.strayStat] = lit 1 0 /\
  CHAIN_ID_MAP (parseInt (sourceChain Sample.stray)) = None /\
  CHAIN_ID_MAP (parseInt (destChain Sample.stray)) = None /\
  A.totalTeleportValue [] = lit 0 0 /\
  A.totalTeleportValue [Sample.stray] = lit 1 0 /\
  B.totalTeleportValue [] = lit 0 0 /\
  B.totalTeleportValue [Sample.stray] = lit 1 0 /\
  lit 1 0 <> lit 0 0.
Proof.
  repeat split; try (vm_compute; reflexivity).
  intros H. vm_compute in H. discriminate H.
Qed.

(** C1 (amended): a stat whose chain identifier is not in the table is
    excluded from the proportional numerator and denominator of variant
    B and is never the stat variant A picks for the requested chain; an
    event whose source and destination identifiers are both outside the
    table is excluded from the direct-involvement sum.  Wherever the
    record stands in the answer, removing it leaves these values
    unchanged. *)
Theorem C1_unmapped_ids_excluded
  (s : ChainStat) (t : Teleport) (c : chain)
  (l1 l2 : list ChainStat) (k1 k2 : list Teleport) :
  CHAIN_ID_MAP (statChainId s) = None ->
  CHAIN_ID_MAP (parseInt (sourceChain t)) = None ->
  CHAIN_ID_MAP (parseInt (destChain t)) = None ->
  B.totalNetworkTransfers (B.chainTransferData (l1 ++ s :: l2)) =
    B.totalNetworkTransfers (B.chainTransferData (l1 ++ l2)) /\
  B.chainTransfers c (B.chainTransferData (l1 ++ s :: l2)) =
    B.chainTransfers c (B.chainTransferData (l1 ++ l2)) /\
  A.findChainStat c (l1 ++ s :: l2) = A.findChainStat c (l1 ++ l2) /\
  A.chainTeleportValue c (k1 ++ t :: k2) = A.chainTeleportValue c (k1 ++ k2).
Proof.
  intros Hs Hsrc Hdst.
  rewrite (chainTransferData_skip s l1 l2 Hs).
  repeat split; [apply findChainStat_skip; exact Hs|].
  unfold A.chainTeleportValue. rewrite !chainTeleportValue_from.
  rewrite !filter_app. cbn [filter]. unfold A.involves at 2.
  rewrite (mapsTo_unmapped _ c Hsrc), (mapsTo_unmapped _ c Hdst).
  reflexivity.
Qed.

(** C1 on the stray stat and the stray event, placed between known
    records of an answer about Ethereum. *)
Lemma C1_unmapped_ids_excluded_witness :
  B.totalNetworkTransfers
    (B.chainTransferData ([Sample.ethStat] ++ Sample.strayStat :: [Sample.opStat])) =
    B.totalNetworkTransfers
      (B.chainTransferData ([Sample.ethStat] ++ [Sample.opStat])) /\
  B.chainTransfers ethereum
    (B.chainTransferData ([Sample.ethStat] ++ Sample.strayStat :: [Sample.opStat])) =
    B.chainTransfers ethereum
      (B.chainTransferData ([Sample.ethStat] ++ [Sample.opStat])) /\
  A.findChainStat ethereum ([Sample.ethStat] ++ Sample.strayStat :: [Sample.opStat]) =
    A.findChainStat ethereum ([Sample.ethStat] ++ [Sample.opStat]) /\
  A.chainTeleportValue ethereum ([Sample.one] ++ Sample.stray :: [Sample.fifty]) =
    A.chainTeleportValue ethereum ([Sample.one] ++ [Sample.fifty]).
Proof.
  apply (C1_unmapped_ids_excluded Sample.strayStat Sample.stray ethereum
           [Sample.ethStat] [Sample.opStat] [Sample.one] [Sample.fifty]);
    vm_compute; reflexivity.
Defined.

(** C4, as stated, fails on its order-independence: sums of binary64
    numbers depend on the order of the terms.  The same three events,
    all from Ethereum, add up to 10^16 in one order and to 10^16 + 2 in
    another. *)
Lemma C4_direct_sum_depends_on_order :
  Permutation [Sample.huge; Sample.one; Sample.one]
              [Sample.one; Sample.one; Sample.huge] /\
  A.chainTeleportValue ethereum [Sample.huge; Sample.one; Sample.one] =
    lit 10000000000000000 0 /\
  A.chainTeleportValue ethereum [Sample.one; Sample.one; Sample.huge] =
    lit 10000000000000002 0 /\
  A.chainTeleportValue ethereum [Sample.huge; Sample.one; Sample.one] <>
  A.chainTeleportValue ethereum [Sample.one; Sample.one; Sample.huge].
Proof.
  split; [|split; [|split]].
  - apply (Permutation_cons_append [Sample.one; Sample.one] Sample.huge).
  - vm_compute. reflexivity.
  - vm_compute. reflexivity.
  - intros H. vm_compute in H. discriminate H.
Qed.

(** C4 (amended): the direct-involvement sum is the sum, taken from 0 in
    the order of the answer, of amount / 10^18 over exactly the events
    whose mapped source or mapped destination chain is the requested
    chain.  It depends on the answer only through the sequence of these
    events: moving or removing the other events does not change it. *)
Theorem C4_direct_sum_over_involved_events
  (c : chain) (teleports teleports' : list Teleport) :
  A.chainTeleportValue c teleports =
    fold_left add
      (map (fun t => div (parseFloatOr0 (amount t)) e18)
           (filter (fun t => mapsTo (parseInt (sourceChain t)) c ||
                             mapsTo (parseInt (destChain t)) c)
                   teleports))
      (lit 0 0) /\
  (filter (A.involves c) teleports' = filter (A.involves c) teleports ->
   A.chainTeleportValue c teleports' = A.chainTeleportValue c teleports).
Proof.
  split.
  - apply chainTeleportValue_from.
  - intros H. unfold A.chainTeleportValue.
    rewrite !chainTeleportValue_from, H. reflexivity.
Qed.

(** C4 on two answers that differ by where the stray event stands. *)
Lemma C4_direct_sum_over_involved_events_witness :
  A.chainTeleportValue ethereum [Sample.stray; Sample.one; Sample.fifty] =
  A.chainTeleportValue ethereum [Sample.one; Sample.fifty; Sample.stray].
Proof.
  apply (proj2 (C4_direct_sum_over_involved_events ethereum
                  [Sample.one; Sample.fifty; Sample.stray]
                  [Sample.stray; Sample.one; Sample.fifty])).
  vm_compute. reflexivity.
Defined.

(** *** Normalisation of amounts *)

Lemma fold_left_pointwise {S T : Type} (f g : S -> T -> S) (l : list T) :
  (forall s t, f s t = g s t) ->
  forall s, fold_left f l s = fold_left g l s.
Proof.
  intros H. induction l as [|t l IH]; intros s; cbn [fold_left].
  - reflexivity.
  - rewrite H. apply IH.
Qed.

(** The key under which an inherited name is filed contains neither
    USDC nor USDT, as the name itself. *)
Lemma decimalsOf_assetKey (a : string) :
  B.decimalsOf (B.assetKey a) = B.decimalsOf a.
Proof.
  unfold B.assetKey. destruct (isProtoName a) eqn:E; [|reflexivity].
  unfold isProtoName in E. apply existsb_exists in E.
  destruct E as (n & Hin & Heq). apply String.eqb_eq in Heq. subst n.
  unfold protoNames in Hin. cbn [In] in Hin.
  repeat (destruct Hin as [<-|Hin]; [vm_compute; reflexivity|]).
  destruct Hin.
Qed.

Lemma objectEntries_singleton {V} (k : string) (v : V) :
  B.objectEntries [(k, v)] = [(k, v)].
Proof.
  unfold B.objectEntries. cbn [fold_left filter fst].
  destruct (arrayIndex k); reflexivity.
Qed.

Lemma scale_of_decimals (asset : string) :
  B.Math_pow10 (B.decimalsOf asset) =
  if includes "USDC" asset || includes "USDT" asset then e6 else e18.
Proof.
  unfold B.decimalsOf.
  destruct (includes "USDC" asset || includes "USDT" asset); reflexivity.
Qed.

(** C2, as stated, fails in variant B, which divides the amounts of an
    asset whose name contains USDC or USDT by 10^6: a million raw units
    of USDC count for 1, where division by 10^18 gives 10^-12. *)
Lemma C2_variant_B_scales_by_asset :
  B.totalTeleportValue [Sample.usdcMillion] = lit 1 0 /\
  add (lit 0 0) (div (parseFloatOr0 (amount Sample.usdcMillion)) e18) =
    lit 1 (-12) /\
  lit 1 0 <> lit 1 (-12).
Proof.
  repeat split; try (vm_compute; reflexivity).
  intros H. vm_compute in H. discriminate H.
Qed.

(** C2 (amended): in variant A every event adds amount / 10^18 to the
    total teleport value and, when it involves the requested chain, to
    the direct-involvement sum, whatever its asset.  Variant B adds, for
    each asset, the sum of its events' amounts (NaN counted as 0)
    divided by 10^6 when the asset's name contains USDC or USDT, and by
    10^18 otherwise; for an answer with a single event that is this
    event's amount divided by the scale of its asset. *)
Theorem C2_normalisation_of_amounts :
  (forall (teleports : list Teleport) (t : Teleport),
     A.totalTeleportValue (teleports ++ [t]) =
       add (A.totalTeleportValue teleports)
           (div (parseFloatOr0 (amount t)) e18)) /\
  (forall (c : chain) (teleports : list Teleport) (t : Teleport),
     A.chainTeleportValue c (teleports ++ [t]) =
       if A.involves c t
       then add (A.chainTeleportValue c teleports)
                (div (parseFloatOr0 (amount t)) e18)
       else A.chainTeleportValue c teleports) /\
  (forall teleports : list Teleport,
     B.totalTeleportValue teleports =
       fold_left
         (fun acc kv =>
            add acc
              (div (B.totalAmount (snd kv))
                   (if includes "USDC" (fst kv) || includes "USDT" (fst kv)
                    then e6 else e18)))
         (B.objectEntries (B.assetMap teleports)) (lit 0 0)) /\
  (forall t : Teleport,
     B.totalTeleportValue [t] =
       add (lit 0 0)
         (div (add (lit 0 0)
                   (if isNaN (parseFloatOr0 (amount t)) then lit 0 0
                    else parseFloatOr0 (amount t)))
              (if includes "USDC" (assetId t) || includes "USDT" (assetId t)
               then e6 else e18))).
Proof.
  split; [|split; [|split]].
  - intros teleports t. unfold A.totalTeleportValue.
    rewrite fold_left_app. reflexivity.
  - intros c teleports t. unfold A.chainTeleportValue.
    rewrite fold_left_app. cbn [fold_left].
    destruct (A.involves c t); reflexivity.
  - intros teleports. unfold B.totalTeleportValue.
    apply fold_left_pointwise. intros s kv.
    unfold B.usdValue. rewrite scale_of_decimals. reflexivity.
  - intros t. unfold B.totalTeleportValue, B.assetMap.
    cbn [fold_left B.pushTo]. rewrite objectEntries_singleton.
    cbn [fold_left fst snd]. unfold B.usdValue.
    rewrite decimalsOf_assetKey, scale_of_decimals. reflexivity.
Qed.

(** *** Variant B looks at assets and amounts only *)

Section Relabel.

(** A change of the events that keeps their assets and amounts. *)
Variable g : Teleport -> Teleport.
Hypothesis g_assetId : forall t, assetId (g t) = assetId t.
Hypothesis g_amount : forall t, amount (g t) = amount t.

Let onGroups (m : list (string * list Teleport)) :=
  map (fun kv => (fst kv, map g (snd kv))) m.

Let onIndexed (l : list (Z * (string * list Teleport))) :=
  map (fun ikv => (fst ikv, (fst (snd ikv), map g (snd (snd ikv))))) l.

Lemma pushTo_relabel (k : string) (t : Teleport)
  (m : list (string * list Teleport)) :
  B.pushTo k (g t) (onGroups m) = onGroups (B.pushTo k t m).
Proof.
  induction m as [|[k' ts] m IH]; cbn [B.pushTo onGroups map fst snd].
  - reflexivity.
  - destruct (String.eqb k k'); cbn [map fst snd].
    + rewrite map_app. reflexivity.
    + fold (onGroups m). rewrite IH. reflexivity.
Qed.

Lemma assetMap_relabel (teleports : list Teleport) :
  B.assetMap (map g teleports) = onGroups (B.assetMap teleports).
Proof.
  unfold B.assetMap. change (@nil (string * list Teleport)) with (onGroups []) at 1.
  generalize (@nil (string * list Teleport)) as acc.
  induction teleports as [|t ts IH]; intros acc; cbn [map fold_left].
  - reflexivity.
  - rewrite g_assetId, pushTo_relabel. apply IH.
Qed.

Lemma insertByIndex_relabel (i : Z) (kv : string * list Teleport)
  (l : list (Z * (string * list Teleport))) :
  B.insertByIndex i (fst kv, map g (snd kv)) (onIndexed l) =
  onIndexed (B.insertByIndex i kv l).
Proof.
  induction l as [|[j kv'] l IH]; cbn [B.insertByIndex onIndexed map fst snd].
  - reflexivity.
  - destruct (i <? j); cbn [map fst snd]; [reflexivity|].
    fold (onIndexed l). rewrite IH. reflexivity.
Qed.

Lemma objectEntries_relabel (m : list (string * list Teleport)) :
  B.objectEntries (onGroups m) = onGroups (B.objectEntries m).
Proof.
  unfold B.objectEntries. unfold onGroups at 3. rewrite map_app. f_equal.
  - change (@nil (Z * (string * list Teleport))) with (onIndexed []) at 1.
    generalize (@nil (Z * (string * list Teleport))) as acc.
    induction m as [|kv m IH]; intros acc; cbn [onGroups map fold_left fst].
    + unfold onIndexed. rewrite !map_map. reflexivity.
    + fold (onGroups m). destruct (arrayIndex (fst kv)).
      * rewrite insertByIndex_relabel. apply IH.
      * apply IH.
  - induction m as [|kv m IH]; cbn [onGroups map filter fst].
    + reflexivity.
    + fold (onGroups m). destruct (arrayIndex (fst kv)); cbn [map].
      * exact IH.
      * rewrite IH. reflexivity.
Qed.

Lemma totalAmount_relabel (ts : list Teleport) :
  B.totalAmount (map g ts) = B.totalAmount ts.
Proof.
  unfold B.totalAmount. set (zero := lit 0 0). generalize zero at 2 4 as acc.
  induction ts as [|t ts IH]; intros acc; cbn [map fold_left].
  - reflexivity.
  - rewrite g_amount. apply IH.
Qed.

Lemma totalTeleportValue_relabel (teleports : list Teleport) :
  B.totalTeleportValue (map g teleports) = B.totalTeleportValue teleports.
Proof.
  unfold B.totalTeleportValue.
  rewrite assetMap_relabel, objectEntries_relabel.
  generalize (B.objectEntries (B.assetMap teleports)) as es.
  generalize (lit 0 0) as acc. intros acc es. revert acc.
  induction es as [|kv es IH]; intros acc; cbn [onGroups map fold_left fst snd].
  - reflexivity.
  - fold (onGroups es). rewrite IH. unfold B.usdValue.
    rewrite totalAmount_relabel. reflexivity.
Qed.

End Relabel.


(** *** Variant B's network volume *)

Lemma chain_eqb_eq (a b : chain) : chain_eqb a b = true <-> a = b.
Proof. destruct a, b; split; intros H; try reflexivity; discriminate H. Qed.

Lemma setChain_fresh (c : chain) (v : number) (m : list (chain * number)) :
  ~ In c (map fst m) -> B.setChain c v m = m ++ [(c, v)].
Proof.
  induction m as [|[c' v'] m IH]; cbn [B.setChain map fst In app]; intros H.
  - reflexivity.
  - destruct (chain_eqb c c') eqn:E.
    + apply chain_eqb_eq in E. subst c'. exfalso. apply H. now left.
    + rewrite IH; [reflexivity|]. intros Hin. apply H. now right.
Qed.

Lemma chainTransferData_distinct (stats : list ChainStat) (cs : list chain) :
  map (fun s => CHAIN_ID_MAP (statChainId s)) stats = map Some cs ->
  NoDup cs ->
  B.chainTransferData stats = combine cs (map A.transfersInValue stats).
Proof.
  unfold B.chainTransferData.
  change (combine cs (map A.transfersInValue stats))
    with ([] ++ combine cs (map A.transfersInValue stats)).
  assert (Hacc : forall c, In c cs -> ~ In c (map fst (@nil (chain * number))))
    by (intros c _ []).
  revert Hacc. generalize (@nil (chain * number)) as acc. revert cs.
  induction stats as [|s stats IH]; intros [|c cs] acc Hacc Hmap Hnd;
    cbn [map] in Hmap; try discriminate Hmap;
    cbn [fold_left map combine].
  - symmetry. apply app_nil_r.
  - injection Hmap as Hs Hmap. inversion Hnd as [|? ? Hnotin Hnd']; subst.
    rewrite Hs, setChain_fresh by (apply Hacc; now left).
    rewrite (IH cs); trivial.
    + rewrite <- app_assoc. reflexivity.
    + intros c' Hc'. rewrite map_app, in_app_iff. cbn [map fst In].
      intros [Hin|[->|[]]].
      * apply (Hacc c'); [now right|exact Hin].
      * exact (Hnotin Hc').
Qed.

Lemma sum_of_combine (cs : list chain) (vs : list number) (acc : number) :
  List.length cs = List.length vs ->
  fold_left (fun sum kv => add sum (snd kv)) (combine cs vs) acc =
  fold_left add vs acc.
Proof.
  revert vs acc. induction cs as [|c cs IH]; intros [|v vs] acc H;
    try discriminate H; cbn [combine fold_left snd].
  - reflexivity.
  - apply IH. now injection H.
Qed.

Lemma sum_of_map {T} (f : T -> number) (l : list T) (acc : number) :
  fold_left (fun sum t => add sum (f t)) l acc = fold_left add (map f l) acc.
Proof.
  revert acc. induction l as [|t l IH]; intros acc; cbn [map fold_left].
  - reflexivity.
  - apply IH.
Qed.

(** When every stat is of a known chain and no chain has two stats,
    variant B's network volume is the sum of all the stats' volumes, as
    in variant A. *)
Lemma network_volume_of_distinct_chains
  (stats : list ChainStat) (cs : list chain) :
  map (fun s => CHAIN_ID_MAP (statChainId s)) stats = map Some cs ->
  NoDup cs ->
  B.totalNetworkTransfers (B.chainTransferData stats) =
  A.totalNetworkValue stats.
Proof.
  intros Hmap Hnd. rewrite (chainTransferData_distinct stats cs Hmap Hnd).
  unfold B.totalNetworkTransfers, A.totalNetworkValue.
  rewrite sum_of_combine;
    [symmetry; apply (sum_of_map A.transfersInValue)|].
  apply (f_equal (@List.length _)) in Hmap.
  rewrite !length_map in Hmap. rewrite length_map. symmetry. exact Hmap.
Qed.

(** *** The strategies of the estimator *)

(** C3, as stated, fails in variant A: the direct strategy comes first,
    so an answer with no stat at all (V = 0) and 200 units teleported
    from Ethereum is not delegated; the allocator reports tokens. *)
Lemma C3_zero_volume_without_fallback :
  A.totalNetworkValue [] = lit 0 0 /\
  A.estimate ethereum (Some (Sample.answer [] [Sample.twoHundred])) =
    Direct (lit 200 0) /\
  A.calculateTVLFromAPI Sample.addresses ethereum
    (A.PostReturns (Some (Sample.answer [] [Sample.twoHundred]))) [] =
    [ Add "0xa0b8" "140000000"; Add "0xdac1" "40000000";
      Add "0x6b17" "20000000000000000000" ] /\
  A.calculateTVLFromAPI Sample.addresses ethereum
    (A.PostReturns (Some (Sample.answer [] [Sample.twoHundred]))) [] <>
  A.fallbackContractTVL Sample.addresses ethereum [].
Proof.
  repeat split; try (vm_compute; reflexivity).
  intros H. vm_compute in H. discriminate H.
Qed.

(** C3 (amended): with V the total network volume, v the requested
    chain's volume and T the total teleport value, the proportional
    estimate is (v / V) * T.  In variant A it is computed when the direct
    sum does not exceed 100, a stat of the chain exists and T > 0, and it
    is used when it exceeds 1; in variant B when V > 0 and v > 0.  When V
    is not positive, in particular when V = 0, no quotient by V is
    taken and the estimator delegates: in variant B always, in variant A
    whenever the direct sum does not exceed 100.  V is the sum of
    totalTransfersIn / 10^18 over all stats in variant A, and over one
    stat per known chain in variant B; the two agree when every stat is
    of a known chain and no chain has two stats. *)
Theorem C3_proportional_estimate
  (c : chain) (d : gql_data) (conn : connection ChainStat) :
  hyperBridgeChainStats d = Some conn ->
  (gt (A.chainTeleportValue c (teleportsOf d)) (lit 100 0) = false ->
   (gt (A.totalNetworkValue (edgesOrEmpty conn)) (lit 0 0) = false ->
    (forall x, A.chainProportion x (A.totalNetworkValue (edgesOrEmpty conn))
               = lit 0 0) /\
    A.estimate c (Some d) = Delegate) /\
   (forall chainStat,
      A.analysisThrows (teleportsOf d) = false ->
      gt (A.totalNetworkValue (edgesOrEmpty conn)) (lit 0 0) = true ->
      A.findChainStat c (edgesOrEmpty conn) = Some chainStat ->
      gt (A.totalTeleportValue (teleportsOf d)) (lit 0 0) = true ->
      A.estimate c (Some d) =
        let p := mul (div (A.transfersInValue chainStat)
                          (A.totalNetworkValue (edgesOrEmpty conn)))
                     (A.totalTeleportValue (teleportsOf d)) in
        if gt p (lit 1 0) then Proportional p else Delegate)) /\
  (gt (B.totalNetworkTransfers (B.chainTransferData (edgesOrEmpty conn)))
      (lit 0 0) = false ->
   B.estimate c (Some d) = Delegate) /\
  (gt (B.totalNetworkTransfers (B.chainTransferData (edgesOrEmpty conn)))
      (lit 0 0) = true ->
   gt (B.chainTransfers c (B.chainTransferData (edgesOrEmpty conn)))
      (lit 0 0) = true ->
   B.estimate c (Some d) =
     Proportional
       (mul (div (B.chainTransfers c (B.chainTransferData (edgesOrEmpty conn)))
                 (B.totalNetworkTransfers
                    (B.chainTransferData (edgesOrEmpty conn))))
            (B.totalTeleportValue (teleportsOf d)))) /\
  A.totalNetworkValue (edgesOrEmpty conn) =
    fold_left add
      (map (fun s => div (parseFloatOr0 (totalTransfersIn s)) e18)
           (edgesOrEmpty conn))
      (lit 0 0) /\
  (forall cs,
     map (fun s => CHAIN_ID_MAP (statChainId s)) (edgesOrEmpty conn) =
       map Some cs ->
     NoDup cs ->
     B.totalNetworkTransfers (B.chainTransferData (edgesOrEmpty conn)) =
     A.totalNetworkValue (edgesOrEmpty conn)).
Proof.
  intros Hd. split; [|split; [|split; [|split]]].
  - intros Hdirect. split.
    + intros HV. split.
      * intros x. unfold A.chainProportion. rewrite HV. reflexivity.
      * unfold A.estimate. rewrite Hd.
        destruct (A.analysisThrows (teleportsOf d)); [reflexivity|].
        rewrite Hdirect.
        destruct (A.findChainStat c (edgesOrEmpty conn)); [|reflexivity].
        destruct (gt (A.totalTeleportValue (teleportsOf d)) (lit 0 0));
          [|reflexivity].
        unfold A.chainProportion. rewrite HV, mul_zero_not_gt_one.
        reflexivity.
    + intros chainStat Hthrow HV Hfind HT. unfold A.estimate.
      rewrite Hd, Hthrow, Hdirect, Hfind, HT.
      unfold A.chainProportion. rewrite HV.
      cbv zeta. rewrite (mul_comm (A.totalTeleportValue (teleportsOf d))).
      reflexivity.
  - intros HV. unfold B.estimate. rewrite Hd. cbv zeta. rewrite HV.
    reflexivity.
  - intros HV Hv. unfold B.estimate. rewrite Hd. cbv zeta. rewrite HV, Hv.
    cbn [andb]. rewrite mul_comm. reflexivity.
  - apply (sum_of_map A.transfersInValue).
  - apply network_volume_of_distinct_chains.
Qed.

(** C3 on an answer with 50 units teleported and stats for Ethereum (1)
    and Optimism (3): Ethereum's share is a quarter, 12.5 units. *)
Lemma C3_proportional_estimate_witness :
  A.estimate ethereum
    (Some (Sample.answer [Sample.ethStat; Sample.opStat] [Sample.fifty])) =
    Proportional (lit 125 (-1)) /\
  B.estimate ethereum
    (Some (Sample.answer [Sample.ethStat; Sample.opStat] [Sample.fifty])) =
    Proportional (lit 125 (-1)).
Proof.
  pose proof (C3_proportional_estimate ethereum
                (Sample.answer [Sample.ethStat; Sample.opStat] [Sample.fifty])
                {| edges := Some [Sample.ethStat; Sample.opStat] |}
                eq_refl) as [HA [_ [HB _]]].
  split.
  - specialize (HA ltac:(vm_compute; reflexivity)).
    destruct HA as [_ HA].
    rewrite (HA Sample.ethStat); vm_compute; reflexivity.
  - rewrite HB; vm_compute; reflexivity.
Defined.




(** *** Failure of the fetch *)

Section Invocation.

Variable ADDRESSES : chain -> option (string -> option string).

Lemma A_fallback_appends (c : chain) (api : api_state) :
  A.fallbackContractTVL ADDRESSES c api =
  api ++ A.fallbackContractTVL ADDRESSES c [].
Proof. reflexivity. Qed.

Lemma B_fallback_appends (c : chain) (api : api_state) :
  B.fallbackContractTVL ADDRESSES c api =
  api ++ B.fallbackContractTVL ADDRESSES c [].
Proof.
  unfold B.fallbackContractTVL.
  destruct (B.tokensAndOwners ADDRESSES c);
    [symmetry; apply app_nil_r|reflexivity].
Qed.

Lemma B_addTokens_appends (c : chain) (usd : number) (api : api_state) :
  B.addTokensToAPI ADDRESSES c usd api =
  api ++ B.addTokensToAPI ADDRESSES c usd [].
Proof.
  unfold B.addTokensToAPI.
  destruct (le usd (lit 0 0)); [symmetry; apply app_nil_r|].
  destruct (addressOf ADDRESSES c "USDC"); [reflexivity|].
  destruct (addressOf ADDRESSES c "USDT"); [reflexivity|].
  destruct (addressOf ADDRESSES c "DAI");
    [reflexivity|symmetry; apply app_nil_r].
Qed.

(** An invocation appends its calls to whatever the api already holds. *)
Lemma A_calculate_appends (c : chain) (r : A.post_result) (api : api_state) :
  A.calculateTVLFromAPI ADDRESSES c r api =
  api ++ A.calculateTVLFromAPI ADDRESSES c r [].
Proof.
  unfold A.calculateTVLFromAPI.
  destruct (A.estimate c (A.getHyperbridgeTVL r));
    try apply A_fallback_appends;
    rewrite (addTokensToAPI_plan ADDRESSES c usd api),
            (addTokensToAPI_plan ADDRESSES c usd []); reflexivity.
Qed.

Lemma B_calculate_appends (c : chain) (r : B.fetch_result) (api : api_state) :
  B.calculateTVLFromAPI ADDRESSES c r api =
  api ++ B.calculateTVLFromAPI ADDRESSES c r [].
Proof.
  unfold B.calculateTVLFromAPI.
  destruct (B.estimate c (B.getHyperbridgeTVL r));
    try apply B_fallback_appends; apply B_addTokens_appends.
Qed.

Lemma B_fallback_no_direct_report (c : chain) :
  filter isDirectReport (B.fallbackContractTVL ADDRESSES c []) = [].
Proof.
  unfold B.fallbackContractTVL.
  destruct (B.tokensAndOwners ADDRESSES c); reflexivity.
Qed.

End Invocation.

(** C6: when the fetch fails (the helper [post] throws in variant A;
    [fetch] or [response.json()] throws, or the status is not a success,
    in variant B) the fetcher returns no data, the invocation does
    exactly what the Fallback Prober does for the same chain, and none
    of the calls it issues is a direct report. *)
Theorem C6_fetch_failure_delegates
  (ADDRESSES : chain -> option (string -> option string))
  (c : chain) (r : B.fetch_result) (api : api_state) :
  fetchFails r = true ->
  (A.getHyperbridgeTVL A.PostThrows = None /\
   A.calculateTVLFromAPI ADDRESSES c A.PostThrows api =
     A.fallbackContractTVL ADDRESSES c api /\
   filter isDirectReport
     (issued api (A.calculateTVLFromAPI ADDRESSES c A.PostThrows api)) = []) /\
  (B.getHyperbridgeTVL r = None /\
   B.calculateTVLFromAPI ADDRESSES c r api =
     B.fallbackContractTVL ADDRESSES c api /\
   filter isDirectReport
     (issued api (B.calculateTVLFromAPI ADDRESSES c r api)) = []).
Proof.
  intros Hr. split.
  - split; [reflexivity|]. split; [reflexivity|].
    rewrite A_calculate_appends, issued_app. reflexivity.
  - assert (Hnone : B.getHyperbridgeTVL r = None).
    { destruct r as [|[|] [|e d]]; try reflexivity; discriminate Hr. }
    split; [exact Hnone|].
    assert (Hcalc : forall a, B.calculateTVLFromAPI ADDRESSES c r a =
                              B.fallbackContractTVL ADDRESSES c a).
    { intros a. unfold B.calculateTVLFromAPI. rewrite Hnone. reflexivity. }
    split; [apply Hcalc|].
    rewrite Hcalc, B_fallback_appends, issued_app.
    apply B_fallback_no_direct_report.
Qed.

(** C6 on Ethereum with a response whose status is not a success. *)
Lemma C6_fetch_failure_delegates_witness :
  A.calculateTVLFromAPI Sample.addresses ethereum A.PostThrows [] =
    A.fallbackContractTVL Sample.addresses ethereum [] /\
  B.calculateTVLFromAPI Sample.addresses ethereum
    (B.Response false B.BodyUnreadable) [] =
    B.fallbackContractTVL Sample.addresses ethereum [].
Proof.
  pose proof (C6_fetch_failure_delegates Sample.addresses ethereum
                (B.Response false B.BodyUnreadable) [] eq_refl)
    as [(_ & HA & _) (_ & HB & _)].
  split; [exact HA|exact HB].
Defined.

(* ===================================================================== *)
(** ** Further properties of the two files                               *)
(* ===================================================================== *)

(** *** Signs of products and quotients *)

Lemma shr_1_nonneg (mrs : shr_record) :
  0 <= shr_m mrs -> 0 <= shr_m (shr_1 mrs).
Proof.
  destruct mrs as [[|[p|p|]|p] r s]; cbn [shr_1 shr_m]; lia.
Qed.

Lemma iter_shr_1_nonneg (p : positive) (mrs : shr_record) :
  0 <= shr_m mrs -> 0 <= shr_m (iter_pos shr_1 p mrs).
Proof.
  revert mrs. induction p as [p IH|p IH|]; intros mrs H; cbn [iter_pos].
  - apply IH, IH, shr_1_nonneg, H.
  - apply IH, IH, H.
  - apply shr_1_nonneg, H.
Qed.

Lemma shr_fexp_nonneg (m e : Z) (l : location) :
  0 <= m -> 0 <= shr_m (fst (shr_fexp prec emax m e l)).
Proof.
  intros H. unfold shr_fexp, shr.
  assert (H0 : 0 <= shr_m (shr_record_of_loc m l))
    by (destruct l as [|[| |]]; exact H).
  destruct (fexp prec emax (Zdigits2 m + e) - e); cbn [fst]; trivial.
  apply iter_shr_1_nonneg, H0.
Qed.

Lemma round_nearest_even_nonneg (m : Z) (l : location) :
  0 <= m -> 0 <= round_nearest_even m l.
Proof.
  intros H. destruct l as [|[| |]]; cbn [round_nearest_even]; try lia.
  destruct (Z.even m); lia.
Qed.

(** Rounding a non-negative mantissa with the positive sign gives a zero,
    a positive number or the positive infinity. *)
Lemma binary_round_aux_nonNegative (m e : Z) (l : location) :
  0 <= m -> nonNegative (binary_round_aux prec emax false m e l) = true.
Proof.
  intros H. unfold binary_round_aux.
  pose proof (shr_fexp_nonneg m e l H) as H1.
  destruct (shr_fexp prec emax m e l) as [mrs' e']. cbn [fst] in H1.
  pose proof (shr_fexp_nonneg _ e' loc_Exact
                (round_nearest_even_nonneg _ (loc_of_shr_record mrs') H1))
    as H2.
  destruct (shr_fexp prec emax _ e' loc_Exact) as [mrs'' e''].
  cbn [fst] in H2.
  destruct (shr_m mrs''); [reflexivity| |lia].
  destruct (e'' <=? emax - prec); reflexivity.
Qed.

Lemma mul_nonNegative (x y : number) :
  nonNegative x = true -> isPositive y = true ->
  nonNegative (mul x y) = true.
Proof.
  unfold mul.
  destruct y as [sy|sy| |[|] my ey]; try discriminate.
  destruct x as [sx|[|]| |[|] mx ex]; cbn [SFmul nonNegative xorb];
    intros Hx _; try discriminate; try reflexivity.
  apply binary_round_aux_nonNegative. lia.
Qed.

Lemma div_nonNegative (x y : number) :
  nonNegative x = true -> isPositive y = true ->
  nonNegative (div x y) = true.
Proof.
  unfold div.
  destruct y as [sy|sy| |[|] my ey]; try discriminate.
  destruct x as [sx|[|]| |[|] mx ex]; cbn [SFdiv nonNegative xorb];
    intros Hx _; try discriminate; try reflexivity.
  unfold SFdiv_core_binary.
  set (s := ex - ey - _).
  set (m' := match s with Z.pos _ => Z.shiftl (Z.pos mx) s
                        | 0 => Z.pos mx | Z.neg _ => 0 end).
  assert (Hm : 0 <= m').
  { subst m'. destruct s; try lia. apply Z.shiftl_nonneg. lia. }
  pose proof (Z_div_mod m' (Z.pos my) eq_refl) as Hdiv.
  destruct (Z.div_eucl m' (Z.pos my)) as [q r].
  apply binary_round_aux_nonNegative. nia.
Qed.

Lemma aboveZero_nonNegative (x : number) :
  aboveZero x = true -> nonNegative x = true.
Proof. destruct x as [s|[|]| |[|] m e]; intros H; trivial; discriminate. Qed.

(** [x > y] for a positive [y] makes [x] positive. *)
Lemma gt_aboveZero (x y : number) :
  isPositive y = true -> gt x y = true -> aboveZero x = true.
Proof.
  destruct y as [sy|sy| |[|] my ey]; try discriminate. intros _.
  destruct x as [sx|[|]| |[|] mx ex]; intros H; trivial; discriminate H.
Qed.

(** Neither NaN nor [x <= 0]: [x] is positive. *)
Lemma not_le_zero_aboveZero (x : number) :
  le x (lit 0 0) = false -> isNaN x = false -> aboveZero x = true.
Proof.
  destruct x as [sx|[|]| |[|] mx ex]; intros H N; trivial; discriminate.
Qed.

Lemma Math_floor_nonNegative (x : number) :
  nonNegative x = true -> nonNegativeAmount (Math_floor x).
Proof.
  destruct x as [s|[|]| |[|] m e]; intros H; try discriminate H;
    cbn [Math_floor nonNegativeAmount cond_Zopp]; try reflexivity.
  apply Z.shiftl_nonneg. lia.
Qed.

(** *** What an invocation reports *)

(** X1: an estimate that variant A hands to the allocator has passed its
    threshold: a direct estimate exceeds 100 and a proportional one
    exceeds 1.  In particular it is never NaN, zero or negative. *)
Theorem A_estimate_exceeds_its_threshold (c : chain) (data : option gql_data) :
  match A.estimate c data with
  | Direct usd => gt usd (lit 100 0) = true
  | Proportional usd => gt usd (lit 1 0) = true
  | Delegate => True
  end.
Proof.
  unfold A.estimate.
  destruct data as [d|]; [|exact I].
  destruct (hyperBridgeChainStats d) as [conn|]; [|exact I].
  cbv zeta.
  destruct (A.analysisThrows (teleportsOf d)); [exact I|].
  destruct (gt (A.chainTeleportValue c (teleportsOf d)) (lit 100 0)) eqn:Hd;
    [exact Hd|].
  destruct (A.findChainStat c (edgesOrEmpty conn)) as [st|]; [|exact I].
  destruct (gt (A.totalTeleportValue (teleportsOf d)) (lit 0 0)); [|exact I].
  destruct (gt (mul _ _) (lit 1 0)) eqn:Hp; [exact Hp|exact I].
Qed.

(** The estimates of variant A are positive. *)
Lemma A_estimate_aboveZero (c : chain) (data : option gql_data) (usd : number) :
  A.estimate c data = Direct usd \/ A.estimate c data = Proportional usd ->
  aboveZero usd = true.
Proof.
  unfold A.estimate.
  destruct data as [d|]; [|intros [H|H]; discriminate H].
  destruct (hyperBridgeChainStats d) as [conn|];
    [|intros [H|H]; discriminate H].
  cbv zeta.
  destruct (A.analysisThrows (teleportsOf d));
    [intros [H|H]; discriminate H|].
  destruct (gt (A.chainTeleportValue c (teleportsOf d)) (lit 100 0)) eqn:Hd.
  - intros [H|H]; [|discriminate H]. injection H as <-.
    apply (gt_aboveZero _ (lit 100 0)); [vm_compute; reflexivity|exact Hd].
  - destruct (A.findChainStat c (edgesOrEmpty conn)) as [st|];
      [|intros [H|H]; discriminate H].
    destruct (gt (A.totalTeleportValue (teleportsOf d)) (lit 0 0));
      [|intros [H|H]; discriminate H].
    destruct (gt (mul _ _) (lit 1 0)) eqn:Hp;
      [|intros [H|H]; discriminate H].
    intros [H|H]; [discriminate H|]. injection H as <-.
    apply (gt_aboveZero _ (lit 1 0)); [vm_compute; reflexivity|exact Hp].
Qed.

Section Reports.

Variable ADDRESSES : chain -> option (string -> option string).

Lemma A_allocator_amounts (c : chain) (usd : number) (k : call) :
  aboveZero usd = true ->
  In k (A.addTokensToAPI ADDRESSES c usd []) ->
  exists token amt,
    k = Add token (Number_toString amt) /\ nonNegativeAmount amt.
Proof.
  intros Hu Hk. rewrite addTokensToAPI_plan in Hk. cbn [app] in Hk.
  apply in_map_iff in Hk. destruct Hk as (a & <- & Ha).
  exists (tokenOf a), (Math_floor (rawAmount usd a)).
  split; [reflexivity|]. apply Math_floor_nonNegative.
  apply aboveZero_nonNegative in Hu.
  destruct (allocationPlan_entries ADDRESSES c a Ha)
    as [(t & _ & ->)|[(t & _ & ->)|[(t & _ & ->)|(t & _ & -> & _)]]];
    cbn [rawAmount].
  1-3: apply mul_nonNegative;
         [apply mul_nonNegative; [exact Hu|]|]; vm_compute; reflexivity.
  apply mul_nonNegative;
    [apply div_nonNegative; [exact Hu|]|]; vm_compute; reflexivity.
Qed.

Lemma B_allocator_amounts (c : chain) (tvlAmount : number) (k : call) :
  In k (B.addTokensToAPI ADDRESSES c tvlAmount []) ->
  exists token amt,
    k = AddToken token amt /\ (amt = FNaN \/ nonNegativeAmount amt).
Proof.
  unfold B.addTokensToAPI. intros Hk.
  destruct (le tvlAmount (lit 0 0)) eqn:Hle; [destruct Hk|].
  assert (Hamt : forall d, d = 6 \/ d = 18 ->
            Math_floor (mul tvlAmount (B.Math_pow10 d)) = FNaN \/
            nonNegativeAmount (Math_floor (mul tvlAmount (B.Math_pow10 d)))).
  { intros d Hd. destruct (isNaN tvlAmount) eqn:Hn.
    - left. destruct tvlAmount; try discriminate Hn. reflexivity.
    - right. apply Math_floor_nonNegative, mul_nonNegative.
      + apply aboveZero_nonNegative, not_le_zero_aboveZero; assumption.
      + destruct Hd as [-> | ->]; vm_compute; reflexivity. }
  destruct (addressOf ADDRESSES c "USDC") as [u|].
  - destruct Hk as [<-|[]]. eexists _, _. split; [reflexivity|].
    apply Hamt. now left.
  - destruct (addressOf ADDRESSES c "USDT") as [t|].
    + destruct Hk as [<-|[]]. eexists _, _. split; [reflexivity|].
      apply Hamt. now left.
    + destruct (addressOf ADDRESSES c "DAI") as [d|]; [|destruct Hk].
      destruct Hk as [<-|[]]. eexists _, _. split; [reflexivity|].
      apply Hamt. now right.
Qed.

End Reports.

(** X2: whatever the fetch returns, every call an invocation of variant
    A issues is either a report [api.add] of the text of a non-negative
    integer or of +Infinity (never NaN, never a negative amount), or the
    one call to [sumTokens2] made by the Fallback Prober. *)
Theorem A_invocation_reports_nonnegative_amounts
  (ADDRESSES : chain -> option (string -> option string))
  (c : chain) (r : A.post_result) (api : api_state) (k : call) :
  In k (issued api (A.calculateTVLFromAPI ADDRESSES c r api)) ->
  match k with
  | Add _ text =>
      exists amt, text = Number_toString amt /\ nonNegativeAmount amt
  | SumTokens2 owners tokens =>
      owners = A.fallbackOwners c /\ tokens = A.fallbackTokens ADDRESSES c
  | _ => False
  end.
Proof.
  rewrite A_calculate_appends, issued_app. unfold A.calculateTVLFromAPI.
  pose proof (A_estimate_aboveZero c (A.getHyperbridgeTVL r)) as Ht.
  destruct (A.estimate c (A.getHyperbridgeTVL r)) as [usd|usd|]; intros Hk.
  - destruct (A_allocator_amounts ADDRESSES c usd k) as (t & amt & -> & Ha);
      eauto.
  - destruct (A_allocator_amounts ADDRESSES c usd k) as (t & amt & -> & Ha);
      eauto.
  - destruct Hk as [<-|[]]. split; reflexivity.
Qed.

(** X2 on the answer with 200 units teleported from Ethereum: the DAI
    report is the text of a non-negative amount. *)
Lemma A_invocation_reports_nonnegative_amounts_witness :
  exists amt,
    "20000000000000000000" = Number_toString amt /\ nonNegativeAmount amt.
Proof.
  apply (A_invocation_reports_nonnegative_amounts Sample.addresses ethereum
           (A.PostReturns (Some (Sample.answer [] [Sample.twoHundred]))) []
           (Add "0x6b17" "20000000000000000000")).
  vm_compute. right. right. left. reflexivity.
Defined.

(** X3: every call an invocation of variant B issues is either a report
    [api.addToken] whose amount is NaN, a non-negative integer or
    +Infinity (never a negative amount), or the one call to [sumTokens2]
    on a non-empty list of token and owner pairs. *)
Theorem B_invocation_never_reports_negative_amounts
  (ADDRESSES : chain -> option (string -> option string))
  (c : chain) (r : B.fetch_result) (api : api_state) (k : call) :
  In k (issued api (B.calculateTVLFromAPI ADDRESSES c r api)) ->
  match k with
  | AddToken _ amt => amt = FNaN \/ nonNegativeAmount amt
  | SumTokens2Pairs l => l = B.tokensAndOwners ADDRESSES c /\ l <> []
  | _ => False
  end.
Proof.
  rewrite B_calculate_appends, issued_app. unfold B.calculateTVLFromAPI.
  destruct (B.estimate c (B.getHyperbridgeTVL r)) as [usd|usd|]; intros Hk.
  - destruct (B_allocator_amounts ADDRESSES c usd k Hk) as (t & amt & -> & Ha).
    exact Ha.
  - destruct (B_allocator_amounts ADDRESSES c usd k Hk) as (t & amt & -> & Ha).
    exact Ha.
  - unfold B.fallbackContractTVL in Hk.
    destruct (B.tokensAndOwners ADDRESSES c) as [|p l] eqn:E; [destruct Hk|].
    destruct Hk as [<-|[]]. split; [reflexivity|discriminate].
Qed.

(** X3 on an answer whose two events carry +Infinity and -Infinity: the
    total is NaN, and so is the amount reported for USDC. *)
Lemma B_invocation_never_reports_negative_amounts_witness :
  FNaN = FNaN \/ nonNegativeAmount FNaN.
Proof.
  apply (B_invocation_never_reports_negative_amounts Sample.addresses ethereum
           (B.Response true (B.Body false
              (Some (Sample.answer [Sample.ethStat; Sample.opStat]
                       [ Sample.teleport "0xaa" "Infinity" "1" "10";
                         Sample.teleport "0xbb" "-Infinity" "1" "10" ]))))
           [] (AddToken "0xa0b8" FNaN)).
  vm_compute. left. reflexivity.
Defined.

(** *** Answers without events *)

(** X4: when the answer carries no teleport event (the list is empty, or
    the field or its edges are missing) variant A delegates to the
    Fallback Prober, whatever the chain stats say; it also delegates
    when the answer or its chain stats are missing. *)
Theorem A_delegates_without_events (c : chain) (d : gql_data) :
  teleportsOf d = [] ->
  A.estimate c (Some d) = Delegate /\
  A.estimate c None = Delegate /\
  (hyperBridgeChainStats d = None -> B.estimate c (Some d) = Delegate).
Proof.
  intros Ht. split; [|split].
  - unfold A.estimate. rewrite Ht.
    destruct (hyperBridgeChainStats d) as [conn|]; [|reflexivity].
    cbv zeta. cbn [A.analysisThrows existsb].
    replace (gt (A.chainTeleportValue c []) (lit 100 0)) with false
      by (vm_compute; reflexivity).
    destruct (A.findChainStat c (edgesOrEmpty conn)); [|reflexivity].
    replace (gt (A.totalTeleportValue []) (lit 0 0)) with false
      by (vm_compute; reflexivity).
    reflexivity.
  - reflexivity.
  - intros Hs. unfold B.estimate. rewrite Hs. reflexivity.
Qed.

(** X4 on an answer with stats for Ethereum and Optimism and no event. *)
Lemma A_delegates_without_events_witness :
  A.estimate ethereum
    (Some (Sample.answer [Sample.ethStat; Sample.opStat] [])) = Delegate.
Proof.
  apply (proj1 (A_delegates_without_events ethereum
                  (Sample.answer [Sample.ethStat; Sample.opStat] [])
                  eq_refl)).
Defined.

Lemma mul_zero_finite (x : number) :
  isFinite x = true ->
  le (mul (lit 0 0) x) (lit 0 0) = true.
Proof. destruct x as [s|s| |s m e]; intros H; try discriminate H; reflexivity. Qed.

(** X5: on the same kind of answer variant B does not delegate.  When
    the network volume and the chain's volume are positive and their
    quotient is finite, the estimate is zero, [addTokensToAPI] returns
    at once, and the invocation issues no call at all: neither a report
    nor the Fallback Prober's. *)
Theorem B_issues_nothing_without_events
  (ADDRESSES : chain -> option (string -> option string))
  (c : chain) (d : gql_data) (conn : connection ChainStat)
  (api : api_state) :
  hyperBridgeChainStats d = Some conn ->
  teleportsOf d = [] ->
  gt (B.totalNetworkTransfers (B.chainTransferData (edgesOrEmpty conn)))
     (lit 0 0) = true ->
  gt (B.chainTransfers c (B.chainTransferData (edgesOrEmpty conn)))
     (lit 0 0) = true ->
  isFinite
    (div (B.chainTransfers c (B.chainTransferData (edgesOrEmpty conn)))
         (B.totalNetworkTransfers (B.chainTransferData (edgesOrEmpty conn))))
    = true ->
  B.calculateTVLFromAPI ADDRESSES c
    (B.Response true (B.Body false (Some d))) api = api.
Proof.
  intros Hd Ht HV Hv Hfin.
  unfold B.calculateTVLFromAPI, B.getHyperbridgeTVL, B.estimate.
  rewrite Hd, Ht. cbv zeta. rewrite HV, Hv. cbn [andb].
  replace (B.totalTeleportValue []) with (lit 0 0)
    by (vm_compute; reflexivity).
  unfold B.addTokensToAPI. rewrite (mul_zero_finite _ Hfin). reflexivity.
Qed.

(** X5 on an answer with stats for Ethereum and Optimism and no event. *)
Lemma B_issues_nothing_without_events_witness :
  B.calculateTVLFromAPI Sample.addresses ethereum
    (B.Response true (B.Body false
       (Some (Sample.answer [Sample.ethStat; Sample.opStat] [])))) [] = [].
Proof.
  apply (B_issues_nothing_without_events Sample.addresses ethereum
           (Sample.answer [Sample.ethStat; Sample.opStat] [])
           {| edges := Some [Sample.ethStat; Sample.opStat] |} []);
    vm_compute; reflexivity.
Defined.

(** *** Chain identifiers *)

(** X6: the table of chain identifiers is one-to-one onto the exported
    chains: an identifier is mapped to a chain exactly when it is that
    chain's identifier, so each exported chain is recognised under one
    identifier and no identifier names two chains. *)
Theorem CHAIN_ID_MAP_one_to_one (i : Z) (c : chain) :
  CHAIN_ID_MAP (Some i) = Some c <-> i = chainId c.
Proof.
  split.
  - intros H. destruct i as [|p|p]; try discriminate H.
    repeat (destruct p as [p|p|]; try discriminate H);
      destruct c; try discriminate H; reflexivity.
  - intros ->. destruct c; reflexivity.
Qed.

(** X6 on Base, whose identifier is 8453. *)
Lemma CHAIN_ID_MAP_one_to_one_witness :
  CHAIN_ID_MAP (Some 8453) = Some base.
Proof.
  apply (proj2 (CHAIN_ID_MAP_one_to_one 8453 base)). reflexivity.
Defined.


Lemma mapsTo_chainId (i : option Z) (c : chain) :
  mapsTo i c = true <-> i = Some (chainId c).
Proof.
  unfold mapsTo. split.
  - destruct i as [[|p|p]|]; try discriminate.
    repeat (destruct p as [p|p|]; try discriminate);
      destruct c; try discriminate; reflexivity.
  - intros ->. destruct c; reflexivity.
Qed.

Lemma removeFirst_absent (pat s : string) :
  includes pat s = false -> removeFirst pat s = s.
Proof.
  induction s as [|a s IH]; cbn [includes removeFirst].
  - destruct (prefix pat ""); [discriminate|reflexivity].
  - destruct (prefix pat (String a s)); [discriminate|].
    intros H. rewrite (IH H). reflexivity.
Qed.

(** X7: a stat is attributed to a chain through its [id] with the first
    "EVM-" removed: the stat "EVM-" followed by [s] and the stat whose
    id is [s] itself, when [s] does not contain "EVM-", are read as the
    same identifier [parseInt(s)]; such a stat belongs to chain [c]
    exactly when that identifier is the one of [c]. *)
Theorem stat_id_prefix_is_dropped (s : string) (v : option string) (c : chain) :
  statChainId {| id := "EVM-" ++ s; totalTransfersIn := v |} = parseInt s /\
  (includes "EVM-" s = false ->
   statChainId {| id := s; totalTransfersIn := v |} = parseInt s) /\
  (mapsTo (statChainId {| id := "EVM-" ++ s; totalTransfersIn := v |}) c = true
   <-> parseInt s = Some (chainId c)).
Proof.
  assert (H : statChainId {| id := "EVM-" ++ s; totalTransfersIn := v |}
              = parseInt s).
  { unfold statChainId. cbn [id].
    replace (removeFirst "EVM-" ("EVM-" ++ s)%string) with s; [reflexivity|].
    destruct s; reflexivity. }
  split; [exact H|]. split.
  - intros Hs. unfold statChainId. cbn [id].
    rewrite (removeFirst_absent _ _ Hs). reflexivity.
  - rewrite H. apply mapsTo_chainId.
Qed.

(** X7 on the id "42161", which does not contain the prefix. *)
Lemma stat_id_prefix_is_dropped_witness :
  statChainId {| id := "42161"; totalTransfersIn := None |}
  = parseInt "42161".
Proof.
  apply (proj1 (proj2 (stat_id_prefix_is_dropped "42161" None arbitrum))).
  vm_compute. reflexivity.
Defined.

(** *** The two ends of an event *)

Lemma involves_swapEnds (c : chain) (t : Teleport) :
  A.involves c (swapEnds t) = A.involves c t.
Proof. unfold A.involves. cbn [swapEnds sourceChain destChain]. apply orb_comm. Qed.

Lemma chainTeleportValue_swapEnds (c : chain) (teleports : list Teleport) :
  A.chainTeleportValue c (map swapEnds teleports) =
  A.chainTeleportValue c teleports.
Proof.
  unfold A.chainTeleportValue. generalize (lit 0 0) as acc.
  induction teleports as [|t ts IH]; intros acc; cbn [map fold_left].
  - reflexivity.
  - rewrite involves_swapEnds. apply IH.
Qed.

Lemma totalTeleportValue_swapEnds (teleports : list Teleport) :
  A.totalTeleportValue (map swapEnds teleports) =
  A.totalTeleportValue teleports.
Proof.
  unfold A.totalTeleportValue. generalize (lit 0 0) as acc.
  induction teleports as [|t ts IH]; intros acc; cbn [map fold_left].
  - reflexivity.
  - apply IH.
Qed.

Lemma analysisThrows_swapEnds (teleports : list Teleport) :
  A.analysisThrows (map swapEnds teleports) = A.analysisThrows teleports.
Proof.
  unfold A.analysisThrows.
  induction teleports as [|t ts IH]; cbn [map existsb].
  - reflexivity.
  - rewrite IH. reflexivity.
Qed.

(** X8: an event counts for its source chain and for its destination
    chain alike.  Exchanging the two ends of every event of an answer
    changes neither variant's decision for any chain. *)
Theorem estimates_ignore_direction (c : chain) (d d' : gql_data) :
  hyperBridgeChainStats d' = hyperBridgeChainStats d ->
  teleportsOf d' = map swapEnds (teleportsOf d) ->
  A.estimate c (Some d') = A.estimate c (Some d) /\
  B.estimate c (Some d') = B.estimate c (Some d).
Proof.
  intros Hs Ht. split.
  - unfold A.estimate. rewrite Hs, Ht.
    destruct (hyperBridgeChainStats d) as [conn|]; [|reflexivity].
    cbv zeta.
    rewrite analysisThrows_swapEnds, chainTeleportValue_swapEnds,
            totalTeleportValue_swapEnds.
    reflexivity.
  - unfold B.estimate. rewrite Hs, Ht.
    destruct (hyperBridgeChainStats d) as [conn|]; [|reflexivity].
    cbv zeta.
    rewrite (totalTeleportValue_relabel swapEnds
               (fun _ => eq_refl) (fun _ => eq_refl)).
    reflexivity.
Qed.

(** X8 on 200 units sent from Ethereum to Optimism, then from Optimism to
    Ethereum. *)
Lemma estimates_ignore_direction_witness :
  A.estimate ethereum
    (Some (Sample.answer [] [Sample.teleport "0xaa" "200000000000000000000"
                               "10" "1"])) =
  A.estimate ethereum (Some (Sample.answer [] [Sample.twoHundred])).
Proof.
  apply (proj1 (estimates_ignore_direction ethereum
                  (Sample.answer [] [Sample.twoHundred])
                  (Sample.answer [] [Sample.teleport "0xaa"
                                       "200000000000000000000" "10" "1"])
                  eq_refl eq_refl)).
Defined.

(** *** The per-chain volumes of variant B *)

Lemma getChain_setChain_same (c : chain) (v : number) (m : list (chain * number)) :
  B.getChain c (B.setChain c v m) = Some v.
Proof.
  induction m as [|[c' v'] m IH]; cbn [B.setChain B.getChain].
  - rewrite (proj2 (chain_eqb_eq c c) eq_refl). reflexivity.
  - destruct (chain_eqb c c') eqn:E; cbn [B.getChain]; rewrite E.
    + reflexivity.
    + exact IH.
Qed.

Lemma getChain_setChain_other (c c' : chain) (v : number)
  (m : list (chain * number)) :
  c' <> c -> B.getChain c' (B.setChain c v m) = B.getChain c' m.
Proof.
  intros Hne.
  assert (Hcc : chain_eqb c' c = false).
  { destruct (chain_eqb c' c) eqn:E; [|reflexivity].
    apply chain_eqb_eq in E. contradiction. }
  induction m as [|[c0 v0] m IH]; cbn [B.setChain B.getChain].
  - rewrite Hcc. reflexivity.
  - destruct (chain_eqb c c0) eqn:E; cbn [B.getChain].
    + apply chain_eqb_eq in E. subst c0. rewrite Hcc. reflexivity.
    + rewrite IH. reflexivity.
Qed.

(** X9: a stat that comes later in the answer replaces the volume
    variant B holds for its chain and leaves the other chains' volumes
    as they are, whereas variant A keeps the first stat of the chain:
    on an answer with two stats of one chain the two variants read
    different volumes for it. *)
Theorem later_stat_overwrites_in_B
  (c : chain) (s : ChainStat) (stats : list ChainStat) :
  CHAIN_ID_MAP (statChainId s) = Some c ->
  B.getChain c (B.chainTransferData (stats ++ [s])) =
    Some (A.transfersInValue s) /\
  (forall c', c' <> c ->
     B.getChain c' (B.chainTransferData (stats ++ [s])) =
     B.getChain c' (B.chainTransferData stats)) /\
  A.findChainStat c (s :: stats) = Some s.
Proof.
  intros Hs. unfold B.chainTransferData.
  rewrite fold_left_app. cbn [fold_left]. rewrite Hs.
  split; [apply getChain_setChain_same|].
  split; [intros c' Hne; apply getChain_setChain_other; exact Hne|].
  unfold A.findChainStat. cbn [find]. unfold mapsTo. rewrite Hs.
  rewrite (proj2 (chain_eqb_eq c c) eq_refl). reflexivity.
Qed.

(** X9 on two stats of Ethereum, of volumes 1 and 3: variant B reads 3. *)
Lemma later_stat_overwrites_in_B_witness :
  B.getChain ethereum
    (B.chainTransferData
       ([Sample.ethStat] ++ [Sample.stat "EVM-1" "3000000000000000000"])) =
  Some (A.transfersInValue (Sample.stat "EVM-1" "3000000000000000000")).
Proof.
  apply (proj1 (later_stat_overwrites_in_B ethereum
                  (Sample.stat "EVM-1" "3000000000000000000")
                  [Sample.ethStat] eq_refl)).
Defined.

Lemma keys_setChain (c : chain) (v : number) (m : list (chain * number)) :
  keysOf (B.setChain c v m) =
  if existsb (chain_eqb c) (keysOf m) then keysOf m else keysOf m ++ [c].
Proof.
  unfold keysOf.
  induction m as [|[c' v'] m IH]; cbn [B.setChain map fst existsb app].
  - reflexivity.
  - destruct (chain_eqb c c') eqn:E; cbn [map fst orb].
    + reflexivity.
    + rewrite IH. destruct (existsb (chain_eqb c) (map fst m)); reflexivity.
Qed.

Lemma keys_chainTransferData_NoDup (stats : list ChainStat) :
  NoDup (keysOf (B.chainTransferData stats)).
Proof.
  unfold B.chainTransferData.
  assert (H0 : NoDup (keysOf (@nil (chain * number)))) by constructor.
  revert H0. generalize (@nil (chain * number)) as acc.
  induction stats as [|s stats IH]; intros acc Hacc; cbn [fold_left].
  - exact Hacc.
  - apply IH. destruct (CHAIN_ID_MAP (statChainId s)) as [c|]; [|exact Hacc].
    rewrite keys_setChain.
    destruct (existsb (chain_eqb c) (keysOf acc)) eqn:E; [exact Hacc|].
    apply NoDup_app; trivial.
    + constructor; [intros []|constructor].
    + intros x Hx [->|[]].
      assert (Hex : existsb (chain_eqb x) (keysOf acc) = true).
      { apply existsb_exists. exists x. split; [exact Hx|].
        apply chain_eqb_eq. reflexivity. }
      rewrite Hex in E. discriminate E.
Qed.

(** X10: the object in which variant B collects the volumes has one
    entry per chain: its keys are pairwise distinct, so it never holds
    more than nine entries, however many stats the answer carries, and a
    chain has an entry exactly when some stat is attributed to it. *)
Theorem chainTransferData_one_entry_per_chain (stats : list ChainStat) :
  NoDup (keysOf (B.chainTransferData stats)) /\
  (List.length (B.chainTransferData stats) <= 9)%nat /\
  (forall c,
     In c (keysOf (B.chainTransferData stats)) <->
     exists s, In s stats /\ CHAIN_ID_MAP (statChainId s) = Some c).
Proof.
  pose proof (keys_chainTransferData_NoDup stats) as Hnd.
  split; [exact Hnd|]. split.
  - replace (List.length (B.chainTransferData stats))
      with (List.length (keysOf (B.chainTransferData stats)))
      by apply length_map.
    apply (NoDup_incl_length
             (l' := [ethereum; arbitrum; optimism; base; bsc; xdai;
                     polygon; soneium; unichain]) Hnd).
    intros c _. destruct c; cbn [In]; tauto.
  - intros c. unfold B.chainTransferData.
    assert (Hgen : forall acc,
              In c (keysOf (fold_left
                (fun m stat =>
                   match CHAIN_ID_MAP (statChainId stat) with
                   | Some statChain =>
                       B.setChain statChain
                         (div (parseFloatOr0 (totalTransfersIn stat)) e18) m
                   | None => m
                   end) stats acc)) <->
              In c (keysOf acc) \/
              exists s, In s stats /\ CHAIN_ID_MAP (statChainId s) = Some c).
    { induction stats as [|s stats IH]; intros acc; cbn [fold_left In].
      - split; [auto|]. intros [H|(s & [] & _)]. exact H.
      - rewrite IH by apply (keys_chainTransferData_NoDup stats).
        destruct (CHAIN_ID_MAP (statChainId s)) as [c0|] eqn:E.
        + rewrite keys_setChain.
          destruct (existsb (chain_eqb c0) (keysOf acc)) eqn:Ex.
          * split.
            -- intros [H|(s' & Hs' & Hc)]; [auto|]. right. eauto.
            -- intros [H|(s' & [->|Hs'] & Hc)]; [auto| |right; eauto].
               left. rewrite E in Hc. injection Hc as ->.
               apply existsb_exists in Ex. destruct Ex as (x & Hx & Hxc).
               apply chain_eqb_eq in Hxc. now subst x.
          * rewrite in_app_iff. cbn [In]. split.
            -- intros [[H|[->|[]]]|(s' & Hs' & Hc)]; [auto| |right; eauto].
               right. exists s. auto.
            -- intros [H|(s' & [->|Hs'] & Hc)]; [auto| |right; eauto].
               left. right. left. rewrite E in Hc. now injection Hc.
        + split.
          * intros [H|(s' & Hs' & Hc)]; [auto|]. right. eauto.
          * intros [H|(s' & [->|Hs'] & Hc)]; [auto| |right; eauto].
            rewrite E in Hc. discriminate Hc. }
    rewrite Hgen. cbn [keysOf map In]. tauto.
Qed.

(** X10 on the stats of Ethereum and Optimism: Optimism has an entry. *)
Lemma chainTransferData_one_entry_per_chain_witness :
  In optimism (keysOf (B.chainTransferData [Sample.ethStat; Sample.opStat])).
Proof.
  apply (proj2 (proj2 (chainTransferData_one_entry_per_chain
                         [Sample.ethStat; Sample.opStat]))).
  exists Sample.opStat. split; [right; left; reflexivity|reflexivity].
Defined.


(** *** The asset groups of variant B *)

Lemma pushTo_events (k : string) (t : Teleport)
  (m : list (string * list Teleport)) :
  Permutation (flat_map snd (B.pushTo k t m)) (t :: flat_map snd m).
Proof.
  induction m as [|[k' ts] m IH]; cbn [B.pushTo flat_map snd app].
  - reflexivity.
  - destruct (String.eqb k k'); cbn [flat_map snd].
    + rewrite <- app_assoc. cbn [app]. symmetry. apply Permutation_middle.
    + rewrite IH. symmetry. apply Permutation_middle.
Qed.

Lemma pushTo_keys (k : string) (t : Teleport)
  (m : list (string * list Teleport)) :
  keysOf (B.pushTo k t m) =
  if existsb (String.eqb k) (keysOf m) then keysOf m else keysOf m ++ [k].
Proof.
  unfold keysOf.
  induction m as [|[k' ts] m IH]; cbn [B.pushTo map fst existsb app].
  - reflexivity.
  - destruct (String.eqb k k') eqn:E; cbn [map fst orb].
    + reflexivity.
    + rewrite IH. destruct (existsb (String.eqb k) (map fst m)); reflexivity.
Qed.

Lemma pushTo_groups (t : Teleport) (m : list (string * list Teleport)) :
  Forall groupOfItsKey m ->
  Forall groupOfItsKey (B.pushTo (B.assetKey (assetId t)) t m).
Proof.
  induction m as [|[k' ts] m IH]; cbn [B.pushTo]; intros H.
  - constructor; [|constructor]. split; cbn [fst snd].
    + discriminate.
    + intros t' [<-|[]]. reflexivity.
  - inversion H as [|? ? [Hne Hk] Hm]; subst.
    destruct (String.eqb (B.assetKey (assetId t)) k') eqn:E.
    + apply String.eqb_eq in E. constructor; [|exact Hm].
      split; cbn [fst snd] in *.
      * destruct ts; discriminate.
      * intros t' Ht'. apply in_app_iff in Ht'.
        destruct Ht' as [Ht'|[<-|[]]]; [apply Hk, Ht'|exact E].
    + constructor; [split; assumption|apply IH, Hm].
Qed.

Lemma assetMap_invariants (teleports : list Teleport) :
  Permutation (flat_map snd (B.assetMap teleports)) teleports /\
  NoDup (keysOf (B.assetMap teleports)) /\
  Forall groupOfItsKey (B.assetMap teleports).
Proof.
  unfold B.assetMap.
  set (step := fun m t => B.pushTo (B.assetKey (assetId t)) t m).
  assert (Hgen : forall acc,
            NoDup (keysOf acc) -> Forall groupOfItsKey acc ->
            Permutation (flat_map snd (fold_left step teleports acc))
                        (flat_map snd acc ++ teleports) /\
            NoDup (keysOf (fold_left step teleports acc)) /\
            Forall groupOfItsKey (fold_left step teleports acc)).
  { induction teleports as [|t ts IH]; intros acc Hnd Hg; cbn [fold_left].
    - rewrite app_nil_r. auto.
    - destruct (IH (step acc t)) as (Hp & Hn & Hf).
      + unfold step. rewrite pushTo_keys.
        destruct (existsb _ (keysOf acc)) eqn:E; [exact Hnd|].
        apply NoDup_app; trivial.
        * constructor; [intros []|constructor].
        * intros x Hx [Heq|[]]. subst x.
          assert (Hex : existsb (String.eqb (B.assetKey (assetId t)))
                          (keysOf acc) = true).
          { apply existsb_exists. exists (B.assetKey (assetId t)).
            split; [exact Hx|]. apply String.eqb_refl. }
          rewrite Hex in E. discriminate E.
      + apply pushTo_groups, Hg.
      + split; [|auto]. rewrite Hp. unfold step.
        rewrite (pushTo_events (B.assetKey (assetId t)) t acc).
        cbn [app]. apply Permutation_middle. }
  destruct (Hgen [] (NoDup_nil _) (Forall_nil _)) as (Hp & Hn & Hf).
  auto.
Qed.

Lemma insertByIndex_perm {V} (i : Z) (kv : string * V)
  (l : list (Z * (string * V))) :
  Permutation (B.insertByIndex i kv l) ((i, kv) :: l).
Proof.
  induction l as [|[j kv'] l IH]; cbn [B.insertByIndex].
  - reflexivity.
  - destruct (i <? j); [reflexivity|].
    rewrite IH. apply perm_swap.
Qed.

Lemma filter_split {T} (p : T -> bool) (l : list T) :
  Permutation (filter p l ++ filter (fun x => negb (p x)) l) l.
Proof.
  induction l as [|x l IH]; cbn [filter].
  - reflexivity.
  - destruct (p x); cbn [negb app].
    + apply perm_skip, IH.
    + rewrite <- Permutation_middle. apply perm_skip, IH.
Qed.

(** [Object.keys] lists every key once. *)
Lemma objectEntries_perm {V} (m : list (string * V)) :
  Permutation (B.objectEntries m) m.
Proof.
  unfold B.objectEntries.
  rewrite <- (filter_split (fun kv => isIndexKey (fst kv)) m) at 3.
  apply Permutation_app.
  - assert (Hgen : forall acc,
              Permutation
                (map snd
                   (fold_left
                      (fun acc kv =>
                         match arrayIndex (fst kv) with
                         | Some i => B.insertByIndex i kv acc
                         | None => acc
                         end) m acc))
                (map snd acc ++ filter (fun kv => isIndexKey (fst kv)) m)).
    { induction m as [|kv m IH]; intros acc; cbn [fold_left filter].
      - rewrite app_nil_r. reflexivity.
      - rewrite IH. unfold isIndexKey at 2.
        destruct (arrayIndex (fst kv)) as [i|].
        + rewrite (Permutation_map snd (insertByIndex_perm i kv acc)).
          cbn [map snd app]. apply Permutation_middle.
        + reflexivity. }
    apply (Hgen []).
  - erewrite filter_ext; [reflexivity|].
    intros kv. unfold isIndexKey. destruct (arrayIndex (fst kv)); reflexivity.
Qed.

(** X11: variant B sums each event exactly once.  The groups it walks
    through, in the order of [Object.keys], hold between them the events
    of the answer, each once; no two groups share a key, no group is
    empty, and every event lies in the group of its asset's key. *)
Theorem B_groups_partition_the_events (teleports : list Teleport) :
  Permutation
    (flat_map snd (B.objectEntries (B.assetMap teleports))) teleports /\
  NoDup (keysOf (B.objectEntries (B.assetMap teleports))) /\
  (forall k ts,
     In (k, ts) (B.objectEntries (B.assetMap teleports)) ->
     ts <> [] /\ forall t, In t ts -> B.assetKey (assetId t) = k).
Proof.
  destruct (assetMap_invariants teleports) as (Hp & Hn & Hf).
  pose proof (objectEntries_perm (B.assetMap teleports)) as Ho.
  split; [|split].
  - rewrite <- Hp at 2. apply Permutation_flat_map, Ho.
  - apply (Permutation_NoDup
             (Permutation_map fst (Permutation_sym Ho)) Hn).
  - intros k ts Hin.
    apply (Permutation_in _ Ho) in Hin.
    rewrite Forall_forall in Hf. apply (Hf (k, ts) Hin).
Qed.

(** X11 on an answer with one event of asset 0xaa and one of USDC: the
    group filed under USDC holds events of that asset only. *)
Lemma B_groups_partition_the_events_witness :
  [Sample.usdcMillion] <> [] /\
  forall t, In t [Sample.usdcMillion] -> B.assetKey (assetId t) = "USDC".
Proof.
  apply (proj2 (proj2 (B_groups_partition_the_events
                         [Sample.one; Sample.usdcMillion]))).
  vm_compute. right. left. reflexivity.
Defined.


(** *** The Fallback Prober *)

Section Prober.

Variable ADDRESSES : chain -> option (string -> option string).



End Prober.




(** X13: the Fallback Prober of variant B pairs every stablecoin the
    registry has for the chain (USDC, USDT, DAI) with both bridge
    contracts, the same two on every chain, and with nothing else.  It
    calls [sumTokens2] once with these pairs, and makes no call at all
    exactly when the chain has none of the three. *)
Theorem B_fallback_pairs_stablecoins_with_both_bridges
  (ADDRESSES : chain -> option (string -> option string))
  (c : chain) (api : api_state) :
  (forall t o,
     In (t, o) (B.tokensAndOwners ADDRESSES c) <->
     (o = B.TOKEN_GATEWAY \/ o = B.DOT_BRIDGE) /\
     (addressOf ADDRESSES c "USDC" = Some t \/
      addressOf ADDRESSES c "USDT" = Some t \/
      addressOf ADDRESSES c "DAI" = Some t)) /\
  (B.fallbackContractTVL ADDRESSES c api = api <->
   addressOf ADDRESSES c "USDC" = None /\
   addressOf ADDRESSES c "USDT" = None /\
   addressOf ADDRESSES c "DAI" = None) /\
  (B.fallbackContractTVL ADDRESSES c api = api \/
   B.fallbackContractTVL ADDRESSES c api =
     api ++ [SumTokens2Pairs (B.tokensAndOwners ADDRESSES c)]).
Proof.
  split; [|split].
  - intros t o. unfold B.tokensAndOwners.
    assert (Hp : forall sym,
              In (t, o)
                 match addressOf ADDRESSES c sym with
                 | Some a => [(a, B.TOKEN_GATEWAY); (a, B.DOT_BRIDGE)]
                 | None => []
                 end <->
              (o = B.TOKEN_GATEWAY \/ o = B.DOT_BRIDGE) /\
              addressOf ADDRESSES c sym = Some t).
    { intros sym. destruct (addressOf ADDRESSES c sym) as [a|]; cbn [In].
      - split.
        + intros [H|[H|[]]]; injection H as -> <-; auto.
        + intros [[-> | ->] H]; injection H as ->; auto.
      - split; [intros []|intros [_ H]; discriminate H]. }
    rewrite !in_app_iff, !Hp. tauto.
  - unfold B.fallbackContractTVL, B.tokensAndOwners.
    destruct (addressOf ADDRESSES c "USDC") as [u|],
             (addressOf ADDRESSES c "USDT") as [s|],
             (addressOf ADDRESSES c "DAI") as [d|];
      cbn [app]; split;
      try (intros (H1 & H2 & H3); discriminate);
      try (intros _; auto; reflexivity);
      intros H; apply (f_equal (@List.length _)) in H;
      rewrite length_app in H; cbn [List.length] in H; lia.
  - unfold B.fallbackContractTVL.
    destruct (B.tokensAndOwners ADDRESSES c); [left|right]; reflexivity.
Qed.

(** X13 on Soneium, for which the sample registry has no stablecoin. *)
Lemma B_fallback_pairs_stablecoins_with_both_bridges_witness :
  B.fallbackContractTVL Sample.addresses soneium [] = [].
Proof.
  apply (proj2 (proj1 (proj2 (B_fallback_pairs_stablecoins_with_both_bridges
                                Sample.addresses soneium [])))).
  repeat split.
Defined.


(** *** How much an invocation issues *)

Lemma allocationPlan_length
  (ADDRESSES : chain -> option (string -> option string)) (c : chain) :
  (List.length (allocationPlan ADDRESSES c) <= 3)%nat.
Proof.
  unfold allocationPlan, stableAllocation.
  destruct (addressOf ADDRESSES c "USDC"),
           (addressOf ADDRESSES c "USDT"),
           (addressOf ADDRESSES c "DAI"),
           (addressOf ADDRESSES c "WETH"); cbn [app List.length]; lia.
Qed.

(** X14: an invocation of variant A issues at most three calls and one
    of variant B at most one.  The one token variant B reports is USDC
    when the chain has it, USDT only when USDC is missing, and DAI only
    when both are missing. *)
Theorem invocations_issue_few_calls
  (ADDRESSES : chain -> option (string -> option string))
  (c : chain) (ra : A.post_result) (rb : B.fetch_result) (api : api_state) :
  (List.length (issued api (A.calculateTVLFromAPI ADDRESSES c ra api)) <= 3)%nat /\
  (List.length (issued api (B.calculateTVLFromAPI ADDRESSES c rb api)) <= 1)%nat /\
  (forall token amt,
     In (AddToken token amt)
        (issued api (B.calculateTVLFromAPI ADDRESSES c rb api)) ->
     addressOf ADDRESSES c "USDC" = Some token \/
     (addressOf ADDRESSES c "USDC" = None /\
      (addressOf ADDRESSES c "USDT" = Some token \/
       (addressOf ADDRESSES c "USDT" = None /\
        addressOf ADDRESSES c "DAI" = Some token)))).
Proof.
  rewrite A_calculate_appends, B_calculate_appends, !issued_app.
  split; [|split].
  - unfold A.calculateTVLFromAPI.
    destruct (A.estimate c (A.getHyperbridgeTVL ra));
      try rewrite addTokensToAPI_plan; cbn [app];
      try rewrite length_map; try apply allocationPlan_length.
    cbn. lia.
  - unfold B.calculateTVLFromAPI, B.addTokensToAPI, B.fallbackContractTVL.
    destruct (B.estimate c (B.getHyperbridgeTVL rb)) as [usd|usd|];
      try destruct (le usd (lit 0 0));
      try destruct (addressOf ADDRESSES c "USDC");
      try destruct (addressOf ADDRESSES c "USDT");
      try destruct (addressOf ADDRESSES c "DAI");
      try destruct (B.tokensAndOwners ADDRESSES c);
      cbn [app List.length]; lia.
  - intros token amt. unfold B.calculateTVLFromAPI, B.addTokensToAPI,
      B.fallbackContractTVL.
    destruct (B.estimate c (B.getHyperbridgeTVL rb)) as [usd|usd|];
      try destruct (le usd (lit 0 0));
      try destruct (addressOf ADDRESSES c "USDC");
      try destruct (addressOf ADDRESSES c "USDT");
      try destruct (addressOf ADDRESSES c "DAI");
      try destruct (B.tokensAndOwners ADDRESSES c);
      cbn [app In]; intros H;
      solve [ destruct H
            | destruct H as [H|[]]; discriminate H
            | destruct H as [H|[]]; injection H as <- _; auto 10 ].
Qed.

(** X14 on the answer where Ethereum holds a quarter of the volume: the
    token reported by variant B is the chain's USDC. *)
Lemma invocations_issue_few_calls_witness :
  addressOf Sample.addresses ethereum "USDC" = Some "0xa0b8" \/
  (addressOf Sample.addresses ethereum "USDC" = None /\
   (addressOf Sample.addresses ethereum "USDT" = Some "0xa0b8" \/
    (addressOf Sample.addresses ethereum "USDT" = None /\
     addressOf Sample.addresses ethereum "DAI" = Some "0xa0b8"))).
Proof.
  apply (proj2 (proj2 (invocations_issue_few_calls Sample.addresses ethereum
                         A.PostThrows
                         (B.Response true (B.Body false
                            (Some (Sample.answer
                                     [Sample.ethStat; Sample.opStat]
                                     [Sample.twoHundred]))))
                         []))
               "0xa0b8" (FInt 50000000)).
  vm_compute. left. reflexivity.
Defined.

(** X15: variant A does not fall back once it has an estimate.  On a
    chain for which the registry has none of USDC, USDT, DAI and WETH,
    an invocation whose estimate passed its threshold issues no call at
    all: nothing is reported and [sumTokens2] is not called. *)
Theorem A_estimate_without_tokens_issues_nothing
  (ADDRESSES : chain -> option (string -> option string))
  (c : chain) (r : A.post_result) (api : api_state) :
  A.estimate c (A.getHyperbridgeTVL r) <> Delegate ->
  addressOf ADDRESSES c "USDC" = None ->
  addressOf ADDRESSES c "USDT" = None ->
  addressOf ADDRESSES c "DAI" = None ->
  addressOf ADDRESSES c "WETH" = None ->
  A.calculateTVLFromAPI ADDRESSES c r api = api.
Proof.
  intros He Hu Ht Hd Hw. unfold A.calculateTVLFromAPI.
  destruct (A.estimate c (A.getHyperbridgeTVL r)) as [usd|usd|];
    [| |now destruct He];
    unfold A.addTokensToAPI; rewrite Hu, Ht, Hd, Hw; reflexivity.
Qed.

(** X15 on Polygon, which the sample registry does not know, with 200
    units teleported from it. *)
Lemma A_estimate_without_tokens_issues_nothing_witness :
  A.calculateTVLFromAPI Sample.addresses polygon
    (A.PostReturns
       (Some (Sample.answer []
                [Sample.teleport "0xaa" "200000000000000000000" "137" "1"])))
    [] = [].
Proof.
  apply (A_estimate_without_tokens_issues_nothing Sample.addresses polygon);
    try reflexivity.
  vm_compute. discriminate.
Defined.

(** *** Asset identifiers that name inherited properties *)

Lemma assetKey_not_inherited (a : string) :
  isProtoName (B.assetKey a) = false.
Proof.
  unfold B.assetKey. destruct (isProtoName a) eqn:E; [|exact E].
  unfold isProtoName in E. apply existsb_exists in E.
  destruct E as (n & Hin & Heq). apply String.eqb_eq in Heq. subst n.
  unfold protoNames in Hin. cbn [In] in Hin.
  repeat (destruct Hin as [<-|Hin]; [vm_compute; reflexivity|]).
  destruct Hin.
Qed.

(** X16: one event whose [assetId] is a name every object inherits
    (constructor, toString, __proto__, ...) makes variant A delegate to
    the Fallback Prober, wherever the event stands and whatever the
    other records are: filing it throws.  Variant B files the event
    under a key that is not such a name, as an 18-decimal asset, and
    goes on. *)
Theorem inherited_asset_name_makes_A_delegate
  (c : chain) (d : gql_data) (t : Teleport) :
  In t (teleportsOf d) ->
  isProtoName (assetId t) = true ->
  A.estimate c (Some d) = Delegate /\
  isProtoName (B.assetKey (assetId t)) = false /\
  B.decimalsOf (B.assetKey (assetId t)) = 18.
Proof.
  intros Hin Hp. split; [|split].
  - unfold A.estimate.
    destruct (hyperBridgeChainStats d) as [conn|]; [|reflexivity].
    cbv zeta.
    assert (Ht : A.analysisThrows (teleportsOf d) = true).
    { unfold A.analysisThrows. apply existsb_exists. exists t. auto. }
    rewrite Ht. reflexivity.
  - apply assetKey_not_inherited.
  - rewrite decimalsOf_assetKey.
    unfold isProtoName in Hp. apply existsb_exists in Hp.
    destruct Hp as (n & Hn & Heq). apply String.eqb_eq in Heq. subst n.
    unfold protoNames in Hn. cbn [In] in Hn.
    repeat (destruct Hn as [<-|Hn]; [vm_compute; reflexivity|]).
    destruct Hn.
Qed.

(** X16 on an answer where 200 units from Ethereum are followed by an
    event of the asset "constructor". *)
Lemma inherited_asset_name_makes_A_delegate_witness :
  A.estimate ethereum
    (Some (Sample.answer []
             [Sample.twoHundred; Sample.teleport "constructor" "1" "1" "10"]))
  = Delegate.
Proof.
  apply (proj1 (inherited_asset_name_makes_A_delegate ethereum
                  (Sample.answer []
                     [Sample.twoHundred;
                      Sample.teleport "constructor" "1" "1" "10"])
                  (Sample.teleport "constructor" "1" "1" "10")
                  (or_intror (or_introl eq_refl)) eq_refl)).
Defined.

(* ===================================================================== *)
(** ** The invocations as they run                                       *)
(* ===================================================================== *)

(** *** Own properties *)

Lemma ownProperty_key {V} (k : string) (v : V) (own : list (string * V)) :
  Runtime.ownProperty k own = Some v -> In k (keysOf own).
Proof.
  unfold keysOf.
  induction own as [|[k' v'] own IH]; cbn [Runtime.ownProperty map fst In].
  - discriminate.
  - destruct (String.eqb k k') eqn:E.
    + apply String.eqb_eq in E. intros _. left. symmetry. exact E.
    + intros H. right. apply IH, H.
Qed.

Lemma ownProperty_absent {V} (k : string) (own : list (string * V)) :
  Runtime.ownProperty k own = None -> ~ In k (keysOf own).
Proof.
  unfold keysOf.
  induction own as [|[k' v'] own IH]; cbn [Runtime.ownProperty map fst In].
  - intros _ [].
  - destruct (String.eqb k k') eqn:E; [discriminate|].
    apply String.eqb_neq in E. intros H [Heq|Hin].
    + apply E. symmetry. exact Heq.
    + exact (IH H Hin).
Qed.

Lemma ownProperty_of_entry {V} (k : string) (v : V) (own : list (string * V)) :
  NoDup (keysOf own) -> In (k, v) own -> Runtime.ownProperty k own = Some v.
Proof.
  unfold keysOf.
  induction own as [|[k' v'] own IH]; cbn [Runtime.ownProperty map fst In];
    intros Hnd Hin.
  - destruct Hin.
  - inversion Hnd as [|? ? Hnotin Hnd']; subst.
    destruct Hin as [Heq|Hin].
    + inversion Heq; subst. rewrite String.eqb_refl. reflexivity.
    + destruct (String.eqb k k') eqn:E.
      * apply String.eqb_eq in E. subst k'. exfalso. apply Hnotin.
        apply (in_map fst) in Hin. exact Hin.
      * apply IH; assumption.
Qed.

Lemma keysOf_setOwn {V} (k : string) (v : V) (own : list (string * V)) :
  keysOf (Runtime.setOwn k v own) = keysOf own.
Proof.
  unfold keysOf.
  induction own as [|[k' v'] own IH]; cbn [Runtime.setOwn map fst].
  - reflexivity.
  - destruct (String.eqb k k'); cbn [map fst]; [reflexivity|].
    rewrite IH. reflexivity.
Qed.

Lemma keysOf_app {K V} (m m' : list (K * V)) :
  keysOf (m ++ m') = keysOf m ++ keysOf m'.
Proof. apply map_app. Qed.

(** What a lookup finds, by cases. *)
Lemma get_cases {V} (w : Runtime.world) (own : list (string * V)) (k : string) :
  (exists v, Runtime.ownProperty k own = Some v /\
             Runtime.get w own k = Runtime.Own v) \/
  (Runtime.ownProperty k own = None /\ isProtoName k = true /\
   Runtime.get w own k = Runtime.Inherited k) \/
  (Runtime.ownProperty k own = None /\ isProtoName k = false /\
   (Runtime.get w own k = Runtime.InheritedNaN \/
    Runtime.get w own k = Runtime.Undefined)).
Proof.
  unfold Runtime.get.
  destruct (Runtime.ownProperty k own) as [v|].
  - left. exists v. split; reflexivity.
  - right. destruct (isProtoName k).
    + left. repeat split.
    + right. repeat split.
      destruct (Runtime.onPrototype w k); [left|right]; reflexivity.
Qed.

(** *** index.js: filing the events *)

Lemma fileEvents_spec (w : Runtime.world) (teleports : list Teleport) :
  forall (assetAnalysis : list (string * Runtime.analysis)) (total : number),
    (forall k, In k (keysOf assetAnalysis) -> isProtoName k = false) ->
    if A.analysisThrows teleports
    then exists name,
        isProtoName name = true /\
        Runtime.fileEvents w assetAnalysis total teleports = (None, name :: w)
    else exists assetAnalysis',
        Runtime.fileEvents w assetAnalysis total teleports =
        (Some (assetAnalysis',
               fold_left (fun acc t => add acc (A.teleportValue t))
                         teleports total), w).
Proof.
  unfold A.analysisThrows.
  induction teleports as [|t rest IH]; intros own total Hown;
    cbn [existsb fold_left Runtime.fileEvents].
  - exists own. reflexivity.
  - destruct (get_cases w own (assetId t))
      as [(a & Ha & Hget)|[(Hnone & Hp & Hget)|(Hnone & Hp & Hget)]].
    + rewrite Hget.
      rewrite (Hown _ (ownProperty_key _ _ _ Ha)). cbn [orb].
      apply IH. intros k. rewrite keysOf_setOwn. apply Hown.
    + rewrite Hget, Hp. cbn [orb]. exists (assetId t). split; [exact Hp|].
      reflexivity.
    + rewrite Hp. cbn [orb].
      assert (Hown' : forall k,
                 In k (keysOf (own ++ [(assetId t,
                    Runtime.count Runtime.fresh
                      (parseFloatOr0 (amount t)) t)])) ->
                 isProtoName k = false).
      { intros k. rewrite keysOf_app. intros Hin.
        apply in_app_or in Hin. destruct Hin as [Hin|[Heq|[]]].
        - apply Hown, Hin.
        - cbn [fst] in Heq. subst k. exact Hp. }
      destruct Hget as [Hget|Hget]; rewrite Hget; apply IH; exact Hown'.
Qed.

(** The filing loop throws exactly when an event names an inherited
    property; otherwise it leaves the world alone and its sum is the sum
    of all the events. *)
Lemma fileEvents_throws (w : Runtime.world) (teleports : list Teleport) :
  A.analysisThrows teleports = true ->
  exists name,
    Runtime.fileEvents w [] (lit 0 0) teleports = (None, name :: w).
Proof.
  intros H.
  pose proof (fileEvents_spec w teleports [] (lit 0 0)
                (fun k (Hin : In k (keysOf [])) => match Hin with end)) as Hs.
  rewrite H in Hs. destruct Hs as (name & _ & Hs). exists name. exact Hs.
Qed.

Lemma fileEvents_ends (w : Runtime.world) (teleports : list Teleport) :
  A.analysisThrows teleports = false ->
  exists assetAnalysis,
    Runtime.fileEvents w [] (lit 0 0) teleports =
    (Some (assetAnalysis, A.totalTeleportValue teleports), w).
Proof.
  intros H.
  pose proof (fileEvents_spec w teleports [] (lit 0 0)
                (fun k (Hin : In k (keysOf [])) => match Hin with end)) as Hs.
  rewrite H in Hs. exact Hs.
Qed.

Lemma fileEvents_result (w w' : Runtime.world) (teleports : list Teleport)
  (result : option (list (string * Runtime.analysis) * number)) :
  Runtime.fileEvents w [] (lit 0 0) teleports = (result, w') ->
  match result with
  | None => A.analysisThrows teleports = true
  | Some (_, total) =>
      A.analysisThrows teleports = false /\
      total = A.totalTeleportValue teleports /\ w' = w
  end.
Proof.
  intros H. destruct (A.analysisThrows teleports) eqn:E.
  - destruct (fileEvents_throws w teleports E) as (name & Hn).
    rewrite Hn in H. inversion H; subst. reflexivity.
  - destruct (fileEvents_ends w teleports E) as (aa & Hn).
    rewrite Hn in H. inversion H; subst. repeat split.
Qed.

(** Every way out of the [try] block of index.js is the one
    [A.estimate] computes, whatever the world. *)
Lemma A_estimates_agree (w w' : Runtime.world) (c : chain)
  (data : option gql_data) (d : decision) :
  Runtime.A_estimates w c data d w' -> d = A.estimate c data.
Proof.
  intros H.
  destruct H as [ | d0 Hs | d0 conn w' Hs Hf
                | d0 conn w' aa total Hs Hf Hgt
                | d0 conn w' aa total st Hs Hf Hgt Hfind Htot Hprop
                | d0 conn w' aa total st Hs Hf Hgt Hfind Htot Hprop
                | d0 conn w' aa total Hs Hf Hgt Hno ];
    unfold A.estimate; try rewrite Hs; try reflexivity;
    apply fileEvents_result in Hf.
  - rewrite Hf. reflexivity.
  - destruct Hf as (Hth & _ & _). rewrite Hth, Hgt. reflexivity.
  - destruct Hf as (Hth & -> & _). cbv zeta.
    rewrite Hth, Hgt, Hfind, Htot, Hprop. reflexivity.
  - destruct Hf as (Hth & -> & _). cbv zeta.
    rewrite Hth, Hgt, Hfind, Htot, Hprop. reflexivity.
  - destruct Hf as (Hth & -> & _). cbv zeta. rewrite Hth, Hgt.
    destruct Hno as [Hfind|Htot].
    + rewrite Hfind. reflexivity.
    + rewrite Htot. destruct (A.findChainStat c (edgesOrEmpty conn));
        reflexivity.
Qed.

(** The block always has a way out. *)
Lemma A_estimates_exist (w : Runtime.world) (c : chain)
  (data : option gql_data) :
  exists d w', Runtime.A_estimates w c data d w'.
Proof.
  destruct data as [d|]; [|exists Delegate, w; constructor].
  destruct (hyperBridgeChainStats d) as [conn|] eqn:Hs;
    [|exists Delegate, w; apply Runtime.A_no_stats; exact Hs].
  destruct (A.analysisThrows (teleportsOf d)) eqn:Hth.
  - destruct (fileEvents_throws w _ Hth) as (name & Hf).
    exists Delegate, (name :: w).
    apply (Runtime.A_caught w c d conn _ Hs Hf).
  - destruct (fileEvents_ends w _ Hth) as (aa & Hf).
    destruct (gt (A.chainTeleportValue c (teleportsOf d)) (lit 100 0))
      eqn:Hgt.
    + eexists _, w. apply (Runtime.A_direct w c d conn w aa _ Hs Hf Hgt).
    + destruct (A.findChainStat c (edgesOrEmpty conn)) as [st|] eqn:Hfind.
      * destruct (gt (A.totalTeleportValue (teleportsOf d)) (lit 0 0))
          eqn:Htot.
        -- destruct (gt (mul (A.totalTeleportValue (teleportsOf d))
                          (A.chainProportion (A.transfersInValue st)
                             (A.totalNetworkValue (edgesOrEmpty conn))))
                        (lit 1 0)) eqn:Hprop.
           ++ eexists _, w.
              apply (Runtime.A_proportional w c d conn w aa _ st
                       Hs Hf Hgt Hfind Htot Hprop).
           ++ exists Delegate, w.
              apply (Runtime.A_small_share w c d conn w aa _ st
                       Hs Hf Hgt Hfind Htot Hprop).
        -- exists Delegate, w.
           apply (Runtime.A_no_share w c d conn w aa _ Hs Hf Hgt).
           right. exact Htot.
      * exists Delegate, w.
        apply (Runtime.A_no_share w c d conn w aa _ Hs Hf Hgt).
        left. exact Hfind.
Qed.

(** *** The second file: grouping the events *)

(** The key an event is grouped under does not depend on the world. *)
Lemma assetKey_agrees (w : Runtime.world) (a : string) :
  Runtime.assetKey w a = B.assetKey a.
Proof.
  unfold Runtime.assetKey, B.assetKey, Runtime.get, Runtime.ASSET_ID_MAP.
  cbn [Runtime.ownProperty].
  destruct (String.eqb a "USDC") eqn:E1.
  { apply String.eqb_eq in E1. subst a. reflexivity. }
  destruct (String.eqb a "USDT") eqn:E2.
  { apply String.eqb_eq in E2. subst a. reflexivity. }
  destruct (String.eqb a "DAI") eqn:E3.
  { apply String.eqb_eq in E3. subst a. reflexivity. }
  destruct (isProtoName a); [reflexivity|].
  destruct (Runtime.onPrototype w a); reflexivity.
Qed.

Lemma pushTo_store (k : string) (t : Teleport)
  (m : list (string * list Teleport)) :
  B.pushTo k t m =
  match Runtime.ownProperty k m with
  | Some group => Runtime.setOwn k (group ++ [t]) m
  | None => m ++ [(k, [t])]
  end.
Proof.
  induction m as [|[k' ts] m IH];
    cbn [B.pushTo Runtime.ownProperty Runtime.setOwn app].
  - reflexivity.
  - destruct (String.eqb k k') eqn:E.
    + reflexivity.
    + rewrite IH. destruct (Runtime.ownProperty k m) as [g|]; reflexivity.
Qed.

(** Grouping never throws, and builds the object [B.assetMap]
    describes, whatever the world. *)
Lemma groupEvents_spec (w : Runtime.world) (teleports : list Teleport) :
  forall assetMap,
    Runtime.groupEvents w assetMap teleports =
    Some (fold_left (fun m t => B.pushTo (B.assetKey (assetId t)) t m)
                    teleports assetMap).
Proof.
  induction teleports as [|t rest IH]; intros m;
    cbn [Runtime.groupEvents fold_left].
  - reflexivity.
  - rewrite assetKey_agrees, pushTo_store.
    destruct (get_cases w m (B.assetKey (assetId t)))
      as [(g & Hg & Hget)|[(Hnone & Hp & Hget)|(Hnone & Hp & Hget)]].
    + rewrite Hget, Hg. apply IH.
    + rewrite assetKey_not_inherited in Hp. discriminate Hp.
    + rewrite Hnone. destruct Hget as [Hget|Hget]; rewrite Hget; apply IH.
Qed.

Lemma groupEvents_assetMap (w : Runtime.world) (teleports : list Teleport) :
  Runtime.groupEvents w [] teleports = Some (B.assetMap teleports).
Proof. apply groupEvents_spec. Qed.

(** *** Array-index keys are canonical numerals *)

Lemma decDigit_range (c : ascii) (d : Z) :
  decDigit c = Some d -> 0 <= d <= 9.
Proof.
  unfold decDigit.
  destruct ((48 <=? Z.of_nat (nat_of_ascii c)) &&
            (Z.of_nat (nat_of_ascii c) <=? 57)) eqn:E; [|discriminate].
  apply andb_true_iff in E. destruct E as [E1 E2].
  apply Z.leb_le in E1. apply Z.leb_le in E2.
  intros H. inversion H. lia.
Qed.

Lemma decDigit_inj (c c' : ascii) (d : Z) :
  decDigit c = Some d -> decDigit c' = Some d -> c = c'.
Proof.
  unfold decDigit.
  destruct ((48 <=? Z.of_nat (nat_of_ascii c)) &&
            (Z.of_nat (nat_of_ascii c) <=? 57)); [|discriminate].
  destruct ((48 <=? Z.of_nat (nat_of_ascii c')) &&
            (Z.of_nat (nat_of_ascii c') <=? 57)); [|discriminate].
  intros H H'. inversion H. inversion H'.
  assert (Hn : nat_of_ascii c = nat_of_ascii c') by lia.
  rewrite <- (ascii_nat_embedding c), <- (ascii_nat_embedding c'), Hn.
  reflexivity.
Qed.

Lemma spanDigits_range (s : string) :
  forall ds r, spanDigits decDigit s = (ds, r) ->
               Forall (fun d => 0 <= d <= 9) ds.
Proof.
  induction s as [|c s IH]; intros ds r; cbn [spanDigits].
  - intros H. inversion H. constructor.
  - destruct (decDigit c) as [d|] eqn:Ed.
    + destruct (spanDigits decDigit s) as [ds0 r0] eqn:Es.
      intros H. inversion H; subst. constructor.
      * apply (decDigit_range c), Ed.
      * eapply IH. reflexivity.
    + intros H. inversion H. constructor.
Qed.

Lemma spanDigits_inj (s : string) :
  forall s' ds,
    spanDigits decDigit s = (ds, "") ->
    spanDigits decDigit s' = (ds, "") -> s = s'.
Proof.
  induction s as [|c s IH]; intros s' ds; cbn [spanDigits].
  - intros H. inversion H; subst ds.
    destruct s' as [|c' s']; [reflexivity|]. cbn [spanDigits].
    destruct (decDigit c'); [|discriminate].
    destruct (spanDigits decDigit s'). discriminate.
  - destruct (decDigit c) as [d|] eqn:Ed; [|discriminate].
    destruct (spanDigits decDigit s) as [ds0 r0] eqn:Es.
    intros H. inversion H; subst.
    destruct s' as [|c' s']; cbn [spanDigits]; [discriminate|].
    destruct (decDigit c') as [d'|] eqn:Ed'; [|discriminate].
    destruct (spanDigits decDigit s') as [ds1 r1] eqn:Es'.
    intros H'. inversion H'; subst.
    rewrite (decDigit_inj c c' d Ed Ed').
    rewrite (IH s' ds0 eq_refl Es'). reflexivity.
Qed.

Lemma digitsValue_from (ds : list Z) (a : Z) :
  fold_left (fun acc d => acc * 10 + d) ds a =
  a * 10 ^ Z.of_nat (List.length ds) + digitsValue 10 ds.
Proof.
  unfold digitsValue. revert a.
  induction ds as [|d ds IH]; intros a; cbn [fold_left List.length].
  - cbn. lia.
  - rewrite IH, (IH (0 * 10 + d)).
    rewrite Nat2Z.inj_succ, Z.pow_succ_r by lia. lia.
Qed.

Lemma digitsValue_cons (d : Z) (ds : list Z) :
  digitsValue 10 (d :: ds) =
  d * 10 ^ Z.of_nat (List.length ds) + digitsValue 10 ds.
Proof.
  unfold digitsValue at 1. cbn [fold_left].
  rewrite digitsValue_from. lia.
Qed.

Lemma digitsValue_bound (ds : list Z) :
  Forall (fun d => 0 <= d <= 9) ds ->
  0 <= digitsValue 10 ds < 10 ^ Z.of_nat (List.length ds).
Proof.
  induction 1 as [|d ds Hd _ IH].
  - cbn. lia.
  - rewrite digitsValue_cons. cbn [List.length].
    rewrite Nat2Z.inj_succ, Z.pow_succ_r by lia. nia.
Qed.

Lemma digitsValue_inj (ds : list Z) :
  forall ds',
    List.length ds = List.length ds' ->
    Forall (fun d => 0 <= d <= 9) ds ->
    Forall (fun d => 0 <= d <= 9) ds' ->
    digitsValue 10 ds = digitsValue 10 ds' -> ds = ds'.
Proof.
  induction ds as [|d ds IH]; intros [|d' ds'] Hlen Hds Hds' Hv;
    try discriminate Hlen; [reflexivity|].
  cbn [List.length] in Hlen. injection Hlen as Hlen.
  inversion Hds as [|? ? Hd Hds0]; subst.
  inversion Hds' as [|? ? Hd' Hds0']; subst.
  rewrite !digitsValue_cons, <- Hlen in Hv.
  pose proof (digitsValue_bound ds Hds0) as Hb.
  pose proof (digitsValue_bound ds' Hds0') as Hb'.
  rewrite <- Hlen in Hb'.
  assert (Hdd : d = d') by nia. subst d'.
  f_equal. apply IH; try assumption. lia.
Qed.

(** What [arrayIndex] accepts: the whole key is digits, with no leading
    zero unless the key is "0". *)
Lemma arrayIndex_digits (s : string) (i : Z) :
  arrayIndex s = Some i ->
  exists ds,
    spanDigits decDigit s = (ds, "") /\ i = digitsValue 10 ds /\
    (ds = [0] \/ exists d tl, ds = d :: tl /\ 1 <= d).
Proof.
  unfold arrayIndex.
  destruct (spanDigits decDigit s) as [ds r] eqn:Es.
  pose proof (spanDigits_range s ds r Es) as Hr.
  destruct ds as [|d tl]; [discriminate|].
  inversion Hr as [|? ? Hd _]; subst.
  destruct d as [|p|p]; [| |lia].
  - destruct tl as [|d' tl]; [|discriminate].
    destruct r; [|discriminate].
    intros H. inversion H. exists [0]. repeat split. left. reflexivity.
  - destruct r; [|destruct tl; discriminate].
    intros H. exists (Z.pos p :: tl). split; [reflexivity|].
    split.
    + destruct (digitsValue 10 (Z.pos p :: tl) <=? 4294967294);
        [|destruct tl; discriminate].
      destruct tl; inversion H; reflexivity.
    + right. exists (Z.pos p), tl. split; [reflexivity|lia].
Qed.

Lemma arrayIndex_inj (s s' : string) (i : Z) :
  arrayIndex s = Some i -> arrayIndex s' = Some i -> s = s'.
Proof.
  intros H H'.
  destruct (arrayIndex_digits s i H) as (ds & Hs & Hi & Hc).
  destruct (arrayIndex_digits s' i H') as (ds' & Hs' & Hi' & Hc').
  pose proof (spanDigits_range s ds _ Hs) as Hr.
  pose proof (spanDigits_range s' ds' _ Hs') as Hr'.
  assert (Heq : ds = ds').
  { assert (Hlead : forall d tl,
               Forall (fun d => 0 <= d <= 9) (d :: tl) -> 1 <= d ->
               10 ^ Z.of_nat (List.length tl) <= digitsValue 10 (d :: tl) <
               10 ^ Z.of_nat (List.length (d :: tl))).
    { intros d tl Hf Hd. split; [|apply digitsValue_bound, Hf].
      rewrite digitsValue_cons. inversion Hf as [|? ? _ Hf']; subst.
      pose proof (digitsValue_bound tl Hf'). nia. }
    destruct Hc as [->|(d & tl & -> & Hd)];
      destruct Hc' as [->|(d' & tl' & -> & Hd')].
    - reflexivity.
    - pose proof (Hlead d' tl' Hr' Hd') as Hb.
      assert (0 < 10 ^ Z.of_nat (List.length tl'))
        by (apply Z.pow_pos_nonneg; lia).
      change (digitsValue 10 [0]) with 0 in Hi. lia.
    - pose proof (Hlead d tl Hr Hd) as Hb.
      assert (0 < 10 ^ Z.of_nat (List.length tl))
        by (apply Z.pow_pos_nonneg; lia).
      change (digitsValue 10 [0]) with 0 in Hi'. lia.
    - pose proof (Hlead d tl Hr Hd) as Hb.
      pose proof (Hlead d' tl' Hr' Hd') as Hb'.
      apply digitsValue_inj; try assumption; [|congruence].
      cbn [List.length] in *. f_equal.
      rewrite <- Hi in Hb. rewrite <- Hi' in Hb'.
      destruct (Nat.lt_trichotomy (List.length tl) (List.length tl'))
        as [Hlt|[Heq|Hlt]]; [exfalso|exact Heq|exfalso].
      + assert (10 ^ Z.of_nat (S (List.length tl)) <=
                10 ^ Z.of_nat (List.length tl'))
          by (apply Z.pow_le_mono_r; lia).
        lia.
      + assert (10 ^ Z.of_nat (S (List.length tl')) <=
                10 ^ Z.of_nat (List.length tl))
          by (apply Z.pow_le_mono_r; lia).
        lia. }
  subst ds'. apply (spanDigits_inj s s' ds Hs Hs').
Qed.

(** *** The order of the keys is determined by the two rules *)

Lemma sorted_permutation_unique {T} (R : T -> T -> Prop) (l : list T) :
  (forall a b, R a b -> R b a -> False) ->
  forall l',
    StronglySorted R l -> StronglySorted R l' -> Permutation l l' -> l = l'.
Proof.
  intros Hasym. induction l as [|a l IH]; intros l' Hl Hl' Hp.
  - apply Permutation_nil in Hp. symmetry. exact Hp.
  - destruct l' as [|b l'].
    + apply Permutation_sym, Permutation_nil in Hp. discriminate Hp.
    + apply StronglySorted_inv in Hl. destruct Hl as [Hl Ha].
      apply StronglySorted_inv in Hl'. destruct Hl' as [Hl' Hb].
      assert (Hab : a = b).
      { assert (Hina : In a (b :: l'))
          by (apply (Permutation_in _ Hp); left; reflexivity).
        assert (Hinb : In b (a :: l))
          by (apply (Permutation_in _ (Permutation_sym Hp)); left;
              reflexivity).
        destruct Hina as [Heq|Hina]; [symmetry; exact Heq|].
        destruct Hinb as [Heq|Hinb]; [exact Heq|].
        exfalso. rewrite Forall_forall in Ha, Hb.
        exact (Hasym a b (Ha b Hinb) (Hb a Hina)). }
      subst b. f_equal. apply IH; try assumption.
      apply (Permutation_cons_inv Hp).
Qed.

Lemma keyBefore_asym {V} (own : list (string * V)) (a b : string) :
  Runtime.keyBefore own a b -> Runtime.keyBefore own b a -> False.
Proof.
  unfold Runtime.keyBefore.
  destruct (arrayIndex a), (arrayIndex b); lia.
Qed.

(** [Object.keys] has one possible result. *)
Lemma ownKeys_unique {V} (own : list (string * V)) (keys keys' : list string) :
  Runtime.ownKeys own keys -> Runtime.ownKeys own keys' -> keys = keys'.
Proof.
  intros [Hp Hs] [Hp' Hs'].
  apply (sorted_permutation_unique (Runtime.keyBefore own));
    try assumption.
  - apply keyBefore_asym.
  - rewrite Hp, Hp'. reflexivity.
Qed.

Lemma StronglySorted_app {T} (R : T -> T -> Prop) (l1 l2 : list T) :
  StronglySorted R l1 -> StronglySorted R l2 ->
  (forall a b, In a l1 -> In b l2 -> R a b) ->
  StronglySorted R (l1 ++ l2).
Proof.
  induction l1 as [|x l1 IH]; intros H1 H2 H12; cbn [app].
  - exact H2.
  - apply StronglySorted_inv in H1. destruct H1 as [H1 Hx].
    constructor.
    + apply IH; try assumption.
      intros a b Ha Hb. apply H12; [right; exact Ha|exact Hb].
    + apply Forall_app. split; [exact Hx|].
      apply Forall_forall. intros b Hb. apply H12; [left; reflexivity|exact Hb].
Qed.

Lemma StronglySorted_map_in {S T} (R : S -> S -> Prop) (R' : T -> T -> Prop)
  (f : S -> T) (l : list S) :
  (forall x y, In x l -> In y l -> R x y -> R' (f x) (f y)) ->
  StronglySorted R l -> StronglySorted R' (map f l).
Proof.
  induction l as [|x l IH]; intros Hf Hs; cbn [map].
  - constructor.
  - apply StronglySorted_inv in Hs. destruct Hs as [Hs Hx].
    constructor.
    + apply IH; [|exact Hs].
      intros a b Ha Hb. apply Hf; right; assumption.
    + apply Forall_forall. intros y Hy.
      apply in_map_iff in Hy. destruct Hy as (z & <- & Hz).
      rewrite Forall_forall in Hx.
      apply Hf; [left; reflexivity|right; exact Hz|apply Hx, Hz].
Qed.

Lemma StronglySorted_filter {T} (R : T -> T -> Prop) (p : T -> bool)
  (l : list T) :
  StronglySorted R l -> StronglySorted R (filter p l).
Proof.
  induction l as [|x l IH]; intros Hs; cbn [filter].
  - constructor.
  - apply StronglySorted_inv in Hs. destruct Hs as [Hs Hx].
    destruct (p x); [|apply IH, Hs].
    constructor; [apply IH, Hs|].
    apply Forall_forall. intros y Hy. apply filter_In in Hy.
    rewrite Forall_forall in Hx. apply Hx, Hy.
Qed.

(** Keys created one after the other are ranked in that order. *)
Lemma rank_sorted {V} (own : list (string * V)) :
  NoDup (keysOf own) ->
  StronglySorted (fun a b => (Runtime.rank a own < Runtime.rank b own)%nat)
                 (keysOf own).
Proof.
  unfold keysOf.
  induction own as [|[k v] own IH]; cbn [map fst]; intros Hnd.
  - constructor.
  - inversion Hnd as [|? ? Hnotin Hnd']; subst.
    assert (Hne : forall b, In b (map fst own) -> String.eqb b k = false).
    { intros b Hb. apply String.eqb_neq. intros ->. exact (Hnotin Hb). }
    constructor.
    + rewrite <- (map_id (map fst own)).
      apply (StronglySorted_map_in
               (fun a b => (Runtime.rank a own < Runtime.rank b own)%nat));
        [|apply IH, Hnd'].
      intros a b Ha Hb Hab. cbn [Runtime.rank].
      rewrite (Hne a Ha), (Hne b Hb). lia.
    + apply Forall_forall. intros b Hb. cbn [Runtime.rank].
      rewrite String.eqb_refl, (Hne b Hb). lia.
Qed.

Lemma insertByIndex_sorted {V} (i : Z) (kv : string * V)
  (l : list (Z * (string * V))) :
  StronglySorted (fun x y => fst x < fst y) l ->
  ~ In i (map fst l) ->
  StronglySorted (fun x y => fst x < fst y) (B.insertByIndex i kv l).
Proof.
  induction l as [|[j kv'] l IH]; cbn [B.insertByIndex map fst In];
    intros Hs Hnotin.
  - constructor; constructor.
  - apply StronglySorted_inv in Hs. destruct Hs as [Hs Hj].
    destruct (i <? j) eqn:E.
    + apply Z.ltb_lt in E. constructor.
      * constructor; assumption.
      * constructor; [exact E|].
        apply Forall_forall. intros y Hy. rewrite Forall_forall in Hj.
        specialize (Hj y Hy). cbn [fst] in *. lia.
    + apply Z.ltb_ge in E.
      assert (Hji : j < i).
      { destruct (Z.eq_dec j i) as [->|Hne]; [|lia].
        exfalso. apply Hnotin. left. reflexivity. }
      constructor.
      * apply IH; [exact Hs|]. intros Hin. apply Hnotin. right. exact Hin.
      * apply Forall_forall. intros y Hy.
        apply (Permutation_in _ (insertByIndex_perm i kv l)) in Hy.
        destruct Hy as [<-|Hy]; [exact Hji|].
        rewrite Forall_forall in Hj. apply Hj, Hy.
Qed.

(** The order [B.objectEntries] lists the keys in obeys the two rules. *)
Lemma ownKeys_objectEntries {V} (own : list (string * V)) :
  NoDup (keysOf own) ->
  Runtime.ownKeys own (keysOf (B.objectEntries own)).
Proof.
  intros Hnd. split.
  { unfold keysOf. apply Permutation_map, objectEntries_perm. }
  unfold B.objectEntries.
  set (step := fun (acc : list (Z * (string * V))) (kv : string * V) =>
                 match arrayIndex (fst kv) with
                 | Some i => B.insertByIndex i kv acc
                 | None => acc
                 end).
  assert (Hidx : forall done todo acc,
             own = done ++ todo ->
             StronglySorted (fun x y => fst x < fst y) acc ->
             (forall x, In x acc ->
                arrayIndex (fst (snd x)) = Some (fst x) /\
                In (fst (snd x)) (keysOf done)) ->
             StronglySorted (fun x y => fst x < fst y)
                            (fold_left step todo acc) /\
             (forall x, In x (fold_left step todo acc) ->
                arrayIndex (fst (snd x)) = Some (fst x))).
  { intros done todo. revert done.
    induction todo as [|kv todo IH]; intros done acc Hown Hs Hacc;
      cbn [fold_left].
    - split; [exact Hs|]. intros x Hx. apply Hacc, Hx.
    - apply (IH (done ++ [kv])).
      + rewrite <- app_assoc. exact Hown.
      + unfold step. destruct (arrayIndex (fst kv)) as [i|] eqn:Ei;
          [|exact Hs].
        apply insertByIndex_sorted; [exact Hs|].
        intros Hin. apply in_map_iff in Hin.
        destruct Hin as (x & Hxi & Hx).
        destruct (Hacc x Hx) as [Hax Hdone]. rewrite Hxi in Hax.
        rewrite (arrayIndex_inj _ _ _ Hax Ei) in Hdone.
        rewrite Hown in Hnd. unfold keysOf in Hnd, Hdone.
        rewrite map_app in Hnd. cbn [map] in Hnd.
        apply NoDup_remove_2 in Hnd. apply Hnd.
        apply in_or_app. left. exact Hdone.
      + intros x Hx. unfold step in Hx.
        assert (Hold : In x acc ->
                       arrayIndex (fst (snd x)) = Some (fst x) /\
                       In (fst (snd x)) (keysOf (done ++ [kv]))).
        { intros Hin. destruct (Hacc x Hin) as [H1 H2]. split; [exact H1|].
          unfold keysOf. rewrite map_app. apply in_or_app. left. exact H2. }
        destruct (arrayIndex (fst kv)) as [i|] eqn:Ei; [|apply Hold, Hx].
        apply (Permutation_in _ (insertByIndex_perm i kv acc)) in Hx.
        destruct Hx as [<-|Hx]; [|apply Hold, Hx].
        cbn [fst snd]. split; [exact Ei|].
        unfold keysOf. rewrite map_app. apply in_or_app. right.
        left. reflexivity. }
  destruct (Hidx [] own [] eq_refl (SSorted_nil _)
              (fun x (Hx : In x []) => match Hx with end))
    as [Hsorted Hindex].
  fold step. unfold keysOf. rewrite map_app.
  apply StronglySorted_app.
  - rewrite map_map.
    apply (StronglySorted_map_in (fun x y => fst x < fst y));
      [|exact Hsorted].
    intros x y Hx Hy Hxy. unfold Runtime.keyBefore.
    rewrite (Hindex x Hx), (Hindex y Hy). exact Hxy.
  - pose proof (rank_sorted own Hnd) as Hr.
    set (p := fun kv : string * V =>
                match arrayIndex (fst kv) with
                | Some _ => false
                | None => true
                end).
    assert (Hmf : map fst (filter p own) =
                  filter (fun k => match arrayIndex k with
                                   | Some _ => false
                                   | None => true
                                   end) (map fst own)).
    { clear. induction own as [|kv own IH]; cbn [filter map]; [reflexivity|].
      unfold p at 1. destruct (arrayIndex (fst kv)); cbn [map];
        rewrite IH; reflexivity. }
    rewrite Hmf. rewrite <- (map_id (filter _ (map fst own))).
    apply (StronglySorted_map_in
             (fun a b => (Runtime.rank a own < Runtime.rank b own)%nat));
      [|apply StronglySorted_filter, Hr].
    intros a b Ha Hb Hab. apply filter_In in Ha, Hb.
    unfold Runtime.keyBefore.
    destruct (arrayIndex a); [destruct Ha; discriminate|].
    destruct (arrayIndex b); [destruct Hb; discriminate|].
    exact Hab.
  - intros a b Ha Hb. rewrite map_map in Ha.
    apply in_map_iff in Ha. destruct Ha as (x & <- & Hx).
    apply in_map_iff in Hb. destruct Hb as (kv & <- & Hkv).
    apply filter_In in Hkv. destruct Hkv as [_ Hkv].
    unfold Runtime.keyBefore. rewrite (Hindex x Hx).
    destruct (arrayIndex (fst kv)); [discriminate|exact I].
Qed.

(** Hence [Object.keys] returns the keys of [B.objectEntries]. *)
Lemma ownKeys_are_objectEntries {V} (own : list (string * V))
  (keys : list string) :
  NoDup (keysOf own) ->
  Runtime.ownKeys own keys -> keys = keysOf (B.objectEntries own).
Proof.
  intros Hnd Hk.
  apply (ownKeys_unique own); [exact Hk|apply ownKeys_objectEntries, Hnd].
Qed.

(** *** The second file: the sums *)

Lemma sumAssets_entries (w : Runtime.world)
  (assetMap entries : list (string * list Teleport)) :
  (forall kv, In kv entries ->
              Runtime.ownProperty (fst kv) assetMap = Some (snd kv)) ->
  forall total,
    Runtime.sumAssets w assetMap (keysOf entries) total =
    Some (fold_left (fun acc kv => add acc (B.usdValue (fst kv) (snd kv)))
                    entries total).
Proof.
  unfold keysOf.
  induction entries as [|kv entries IH]; intros Hown total;
    cbn [map Runtime.sumAssets fold_left].
  - reflexivity.
  - unfold Runtime.get. rewrite (Hown kv (or_introl eq_refl)).
    apply IH. intros kv' Hin. apply Hown. right. exact Hin.
Qed.

(** Summing over the keys [Object.keys] returns gives the total
    [B.totalTeleportValue] describes. *)
Lemma sumAssets_total (w : Runtime.world) (teleports : list Teleport)
  (uniqueAssets : list string) :
  Runtime.ownKeys (B.assetMap teleports) uniqueAssets ->
  Runtime.sumAssets w (B.assetMap teleports) uniqueAssets (lit 0 0) =
  Some (B.totalTeleportValue teleports).
Proof.
  intros Hk.
  destruct (assetMap_invariants teleports) as (_ & Hnd & _).
  rewrite (ownKeys_are_objectEntries _ _ Hnd Hk).
  apply sumAssets_entries. intros [k ts] Hin. cbn [fst snd].
  apply ownProperty_of_entry; [exact Hnd|].
  apply (Permutation_in _ (objectEntries_perm _)), Hin.
Qed.

(** *** The second file: the volumes of the chains *)

Lemma chainName_eqb (c c' : chain) :
  String.eqb (Runtime.chainName c) (Runtime.chainName c') = chain_eqb c c'.
Proof. destruct c, c'; reflexivity. Qed.

Lemma chainName_inj (c c' : chain) :
  Runtime.chainName c = Runtime.chainName c' -> c = c'.
Proof.
  intros H. apply chain_eqb_eq. rewrite <- chainName_eqb.
  apply String.eqb_eq, H.
Qed.

(** A chain's name is an ordinary key: not an array index, not an
    inherited name, not a field index.js can leave on the prototype. *)
Lemma chainName_plain (w : Runtime.world) (c : chain) :
  arrayIndex (Runtime.chainName c) = None /\
  isProtoName (Runtime.chainName c) = false /\
  Runtime.onPrototype w (Runtime.chainName c) = false.
Proof.
  split; [destruct c; reflexivity|].
  split; [destruct c; reflexivity|].
  unfold Runtime.onPrototype.
  replace (String.eqb (Runtime.chainName c) "totalAmount" ||
           String.eqb (Runtime.chainName c) "transferCount") with false
    by (destruct c; reflexivity).
  apply andb_false_r.
Qed.

Lemma store_cons {V} (k k' : string) (v v' : V) (own : list (string * V)) :
  Runtime.store k v ((k', v') :: own) =
  if String.eqb k k' then (k', v) :: own else (k', v') :: Runtime.store k v own.
Proof.
  unfold Runtime.store. cbn [Runtime.ownProperty Runtime.setOwn].
  destruct (String.eqb k k'); [reflexivity|].
  destruct (Runtime.ownProperty k own); reflexivity.
Qed.

Lemma store_setChain (c : chain) (v : number) (m : list (chain * number)) :
  Runtime.store (Runtime.chainName c) v
    (map (fun cv => (Runtime.chainName (fst cv), snd cv)) m) =
  map (fun cv => (Runtime.chainName (fst cv), snd cv)) (B.setChain c v m).
Proof.
  induction m as [|[c' v'] m IH]; cbn [map B.setChain fst snd].
  - reflexivity.
  - rewrite store_cons, chainName_eqb.
    destruct (chain_eqb c c'); cbn [map fst snd]; [reflexivity|].
    rewrite IH. reflexivity.
Qed.

Lemma chainTransferData_named (chainStats : list ChainStat) :
  Runtime.chainTransferData chainStats =
  map (fun cv => (Runtime.chainName (fst cv), snd cv))
      (B.chainTransferData chainStats).
Proof.
  unfold Runtime.chainTransferData, B.chainTransferData.
  change (@nil (string * number))
    with (map (fun cv : chain * number =>
                 (Runtime.chainName (fst cv), snd cv)) []) at 1.
  generalize (@nil (chain * number)) as acc.
  induction chainStats as [|s chainStats IH]; intros acc; cbn [fold_left].
  - reflexivity.
  - destruct (CHAIN_ID_MAP (statChainId s)) as [c|]; [|apply IH].
    rewrite store_setChain. apply IH.
Qed.

Lemma ownProperty_named (c : chain) (m : list (chain * number)) :
  Runtime.ownProperty (Runtime.chainName c)
    (map (fun cv => (Runtime.chainName (fst cv), snd cv)) m) =
  B.getChain c m.
Proof.
  induction m as [|[c' v'] m IH];
    cbn [map Runtime.ownProperty B.getChain fst snd].
  - reflexivity.
  - rewrite chainName_eqb. destruct (chain_eqb c c'); [reflexivity|exact IH].
Qed.

(** [chainTransferData[api.chain] || 0] does not depend on the world. *)
Lemma chainTransfers_agree (w : Runtime.world) (c : chain)
  (chainStats : list ChainStat) :
  Runtime.orZero
    (Runtime.get w (Runtime.chainTransferData chainStats)
       (Runtime.chainName c)) =
  B.chainTransfers c (B.chainTransferData chainStats).
Proof.
  rewrite chainTransferData_named. unfold Runtime.get, B.chainTransfers.
  rewrite ownProperty_named.
  destruct (B.getChain c (B.chainTransferData chainStats)) as [v|];
    [reflexivity|].
  destruct (chainName_plain w c) as (_ & -> & ->). reflexivity.
Qed.

Lemma NoDup_map_inj {S T} (f : S -> T) (l : list S) :
  (forall x y, f x = f y -> x = y) -> NoDup l -> NoDup (map f l).
Proof.
  intros Hf. induction 1 as [|x l Hx _ IH]; cbn [map]; constructor.
  - intros Hin. apply in_map_iff in Hin. destruct Hin as (y & Hy & Hin).
    apply Hf in Hy. subst y. exact (Hx Hin).
  - exact IH.
Qed.

Lemma objectEntries_plain {V} (own : list (string * V)) :
  (forall k, In k (keysOf own) -> arrayIndex k = None) ->
  B.objectEntries own = own.
Proof.
  intros Hplain. unfold B.objectEntries.
  assert (Hfold : forall acc,
             fold_left
               (fun (acc : list (Z * (string * V))) kv =>
                  match arrayIndex (fst kv) with
                  | Some i => B.insertByIndex i kv acc
                  | None => acc
                  end) own acc = acc).
  { revert Hplain. unfold keysOf.
    induction own as [|kv own IH]; intros Hplain acc; cbn [fold_left].
    - reflexivity.
    - rewrite (Hplain (fst kv) (or_introl eq_refl)).
      apply IH. intros k Hk. apply Hplain. right. exact Hk. }
  rewrite Hfold. clear Hfold. cbn [map app].
  revert Hplain. unfold keysOf.
  induction own as [|kv own IH]; intros Hplain; cbn [filter].
  - reflexivity.
  - rewrite (Hplain (fst kv) (or_introl eq_refl)). f_equal.
    apply IH. intros k Hk. apply Hplain. right. exact Hk.
Qed.

Lemma values_of_entries {V} (own entries : list (string * V)) :
  (forall kv, In kv entries ->
              Runtime.ownProperty (fst kv) own = Some (snd kv)) ->
  Forall2 (fun k v => Runtime.ownProperty k own = Some v)
          (keysOf entries) (map snd entries) /\
  forall values,
    Forall2 (fun k v => Runtime.ownProperty k own = Some v)
            (keysOf entries) values ->
    values = map snd entries.
Proof.
  unfold keysOf.
  induction entries as [|kv entries IH]; intros Hown; cbn [map].
  - split; [constructor|]. intros values H. inversion H. reflexivity.
  - destruct IH as [IH1 IH2].
    { intros kv' Hin. apply Hown. right. exact Hin. }
    pose proof (Hown kv (or_introl eq_refl)) as Hkv.
    split; [constructor; assumption|].
    intros values H. inversion H as [|? v ? vs Hv Hvs]; subst.
    rewrite Hkv in Hv. inversion Hv. f_equal. apply IH2, Hvs.
Qed.

Lemma keysOf_named (m : list (chain * number)) :
  keysOf (map (fun cv => (Runtime.chainName (fst cv), snd cv)) m) =
  map Runtime.chainName (keysOf m).
Proof. unfold keysOf. rewrite !map_map. reflexivity. Qed.

(** [Object.values(chainTransferData)] has one possible result: the
    volumes in the order the chains first appear among the stats. *)
Lemma ownValues_chainTransferData (chainStats : list ChainStat) :
  Runtime.ownValues (Runtime.chainTransferData chainStats)
    (map snd (B.chainTransferData chainStats)) /\
  forall values,
    Runtime.ownValues (Runtime.chainTransferData chainStats) values ->
    values = map snd (B.chainTransferData chainStats).
Proof.
  rewrite chainTransferData_named.
  set (m := B.chainTransferData chainStats).
  set (data := map (fun cv => (Runtime.chainName (fst cv), snd cv)) m).
  assert (Hnd : NoDup (keysOf data)).
  { unfold data. rewrite keysOf_named.
    apply NoDup_map_inj; [apply chainName_inj|].
    apply keys_chainTransferData_NoDup. }
  assert (Hplain : B.objectEntries data = data).
  { apply objectEntries_plain. intros k Hk. unfold data in Hk.
    rewrite keysOf_named in Hk. apply in_map_iff in Hk.
    destruct Hk as (c & <- & _). apply (chainName_plain [] c). }
  assert (Hown : forall kv, In kv data ->
                   Runtime.ownProperty (fst kv) data = Some (snd kv)).
  { intros [k v] Hin. apply ownProperty_of_entry; assumption. }
  destruct (values_of_entries data data Hown) as [H1 H2].
  assert (Hsnd : map snd data = map snd m).
  { unfold data. rewrite map_map. reflexivity. }
  split.
  - exists (keysOf data). split.
    + rewrite <- Hplain at 2. apply ownKeys_objectEntries, Hnd.
    + rewrite <- Hsnd. exact H1.
  - intros values (keys & Hk & Hv).
    rewrite (ownKeys_are_objectEntries _ _ Hnd Hk), Hplain in Hv.
    rewrite <- Hsnd. apply H2, Hv.
Qed.

Lemma fold_left_add_values (m : list (chain * number)) (a : number) :
  fold_left add (map snd m) a = fold_left (fun sum kv => add sum (snd kv)) m a.
Proof.
  revert a. induction m as [|kv m IH]; intros a; cbn [map fold_left].
  - reflexivity.
  - apply IH.
Qed.

(** Every way out of the [try] block of the second file is the one
    [B.estimate] computes, whatever the world. *)
Lemma B_estimates_agree (w : Runtime.world) (c : chain)
  (data : option gql_data) (d : decision) :
  Runtime.B_estimates w c data d -> d = B.estimate c data.
Proof.
  intros H.
  destruct H as [ | d0 Hs | d0 conn Hs Hg
                | d0 conn am keys Hs Hg Hk Hsum
                | d0 conn am keys total values tn ct Hs Hg Hk Hsum Hv Htn Hct Hgt
                | d0 conn am keys total values tn ct Hs Hg Hk Hsum Hv Htn Hct Hgt ];
    unfold B.estimate; try rewrite Hs; try reflexivity;
    rewrite groupEvents_assetMap in Hg; try discriminate Hg;
    inversion Hg; subst am; clear Hg;
    rewrite (sumAssets_total w _ _ Hk) in Hsum; try discriminate Hsum;
    inversion Hsum; subst total; clear Hsum;
    apply (proj2 (ownValues_chainTransferData _)) in Hv; subst values;
    rewrite fold_left_add_values in Htn;
    rewrite chainTransfers_agree in Hct;
    fold (B.totalNetworkTransfers (B.chainTransferData (edgesOrEmpty conn)))
      in Htn;
    subst tn ct; cbv zeta; rewrite Hgt; reflexivity.
Qed.

(** The block always has a way out. *)
Lemma B_estimates_exist (w : Runtime.world) (c : chain)
  (data : option gql_data) :
  exists d, Runtime.B_estimates w c data d.
Proof.
  destruct data as [d|]; [|exists Delegate; constructor].
  destruct (hyperBridgeChainStats d) as [conn|] eqn:Hs;
    [|exists Delegate; apply Runtime.B_no_stats; exact Hs].
  destruct (assetMap_invariants (teleportsOf d)) as (_ & Hnd & _).
  pose proof (ownKeys_objectEntries _ Hnd) as Hk.
  pose proof (sumAssets_total w _ _ Hk) as Hsum.
  pose proof (proj1 (ownValues_chainTransferData (edgesOrEmpty conn))) as Hv.
  destruct (gt (fold_left add
                  (map snd (B.chainTransferData (edgesOrEmpty conn)))
                  (lit 0 0)) (lit 0 0) &&
            gt (Runtime.orZero
                  (Runtime.get w
                     (Runtime.chainTransferData (edgesOrEmpty conn))
                     (Runtime.chainName c))) (lit 0 0)) eqn:Hgt.
  - eexists.
    apply (Runtime.B_proportional w c d conn _ _ _ _ _ _ Hs
             (groupEvents_assetMap w _) Hk Hsum Hv eq_refl eq_refl Hgt).
  - exists Delegate.
    apply (Runtime.B_no_volume w c d conn _ _ _ _ _ _ Hs
             (groupEvents_assetMap w _) Hk Hsum Hv eq_refl eq_refl Hgt).
Qed.

(** *** Invocations *)

Section Runs.

Variable ADDRESSES : chain -> option (string -> option string).

(** A run of index.js issues what [A.calculateTVLFromAPI] computes. *)
Lemma A_run_agrees (w w' : Runtime.world) (c : chain) (r : A.post_result)
  (api api' : api_state) :
  Runtime.A_calculateTVLFromAPI ADDRESSES w c r api w' api' ->
  api' = A.calculateTVLFromAPI ADDRESSES c r api.
Proof.
  intros [usd w1 H|usd w1 H|w1 H]; apply A_estimates_agree in H;
    unfold A.calculateTVLFromAPI; rewrite <- H; reflexivity.
Qed.

(** A run of the second file issues what [B.calculateTVLFromAPI]
    computes. *)
Lemma B_run_agrees (w : Runtime.world) (c : chain) (r : B.fetch_result)
  (api api' : api_state) :
  Runtime.B_calculateTVLFromAPI ADDRESSES w c r api api' ->
  api' = B.calculateTVLFromAPI ADDRESSES c r api.
Proof.
  intros [usd H|H]; apply B_estimates_agree in H;
    unfold B.calculateTVLFromAPI; rewrite <- H; reflexivity.
Qed.

Lemma A_run_exists (w : Runtime.world) (c : chain) (r : A.post_result)
  (api : api_state) :
  exists w' api', Runtime.A_calculateTVLFromAPI ADDRESSES w c r api w' api'.
Proof.
  destruct (A_estimates_exist w c (A.getHyperbridgeTVL r)) as (d & w' & H).
  exists w'. destruct d as [usd|usd|]; eexists.
  - apply (Runtime.A_adds_direct ADDRESSES w c r api usd w' H).
  - apply (Runtime.A_adds_proportional ADDRESSES w c r api usd w' H).
  - apply (Runtime.A_falls_back ADDRESSES w c r api w' H).
Qed.

Lemma B_run_exists (w : Runtime.world) (c : chain) (r : B.fetch_result)
  (api : api_state) :
  exists api', Runtime.B_calculateTVLFromAPI ADDRESSES w c r api api'.
Proof.
  destruct (B_estimates_exist w c (B.getHyperbridgeTVL r)) as (d & H).
  pose proof (B_estimates_agree w c _ d H) as Hd.
  destruct d as [usd|usd|].
  - exfalso. unfold B.estimate in Hd.
    destruct (B.getHyperbridgeTVL r) as [d0|]; [|discriminate Hd].
    destruct (hyperBridgeChainStats d0); [|discriminate Hd].
    cbv zeta in Hd. destruct (gt _ _ && gt _ _); discriminate Hd.
  - eexists. apply (Runtime.B_adds ADDRESSES w c r api usd H).
  - eexists. apply (Runtime.B_falls_back ADDRESSES w c r api H).
Qed.

End Runs.

(** C10: two runs of an adapter on the same fetch result and the same
    chain issue the same sequence of calls, with the same tokens and the
    same amounts, in both variants.  The runs may start from different
    states of the process (whatever earlier invocations have left on
    [Object.prototype] and on the objects behind its names) and from
    different contents of the api; [Object.keys] and [Object.values] may
    return any order the language allows.  Every run ends, and what it
    issues is what [A.calculateTVLFromAPI] and [B.calculateTVLFromAPI]
    compute. *)
Theorem C10_invocations_are_deterministic
  (ADDRESSES : chain -> option (string -> option string)) (c : chain) :
  (forall (r : A.post_result) (w1 w2 w1' w2' : Runtime.world)
          (api1 api2 api1' api2' : api_state),
     Runtime.A_calculateTVLFromAPI ADDRESSES w1 c r api1 w1' api1' ->
     Runtime.A_calculateTVLFromAPI ADDRESSES w2 c r api2 w2' api2' ->
     issued api1 api1' = issued api2 api2') /\
  (forall (r : B.fetch_result) (w1 w2 : Runtime.world)
          (api1 api2 api1' api2' : api_state),
     Runtime.B_calculateTVLFromAPI ADDRESSES w1 c r api1 api1' ->
     Runtime.B_calculateTVLFromAPI ADDRESSES w2 c r api2 api2' ->
     issued api1 api1' = issued api2 api2') /\
  (forall (r : A.post_result) (w : Runtime.world) (api : api_state),
     exists w' api',
       Runtime.A_calculateTVLFromAPI ADDRESSES w c r api w' api') /\
  (forall (r : B.fetch_result) (w : Runtime.world) (api : api_state),
     exists api', Runtime.B_calculateTVLFromAPI ADDRESSES w c r api api') /\
  (forall (r : A.post_result) (w w' : Runtime.world) (api api' : api_state),
     Runtime.A_calculateTVLFromAPI ADDRESSES w c r api w' api' ->
     api' = A.calculateTVLFromAPI ADDRESSES c r api) /\
  (forall (r : B.fetch_result) (w : Runtime.world) (api api' : api_state),
     Runtime.B_calculateTVLFromAPI ADDRESSES w c r api api' ->
     api' = B.calculateTVLFromAPI ADDRESSES c r api).
Proof.
  split; [|split; [|split; [|split; [|split]]]].
  - intros r w1 w2 w1' w2' api1 api2 api1' api2' H1 H2.
    apply A_run_agrees in H1. apply A_run_agrees in H2. subst api1' api2'.
    rewrite (A_calculate_appends ADDRESSES c r api1),
            (A_calculate_appends ADDRESSES c r api2), !issued_app.
    reflexivity.
  - intros r w1 w2 api1 api2 api1' api2' H1 H2.
    apply B_run_agrees in H1. apply B_run_agrees in H2. subst api1' api2'.
    rewrite (B_calculate_appends ADDRESSES c r api1),
            (B_calculate_appends ADDRESSES c r api2), !issued_app.
    reflexivity.
  - intros r w api. apply A_run_exists.
  - intros r w api. apply B_run_exists.
  - intros r w w' api api'. apply A_run_agrees.
  - intros r w api api'. apply B_run_agrees.
Qed.

(** C10 on Ethereum.  A first invocation of index.js meets an event
    whose asset is named [__proto__]: it writes to [Object.prototype]
    and falls back.  An answer with 200 units of an asset named
    [totalAmount] and a million raw units of USDC is then run twice by
    each variant: in a fresh process with an empty api, and in the
    process and with the api the first invocation has left.  Both runs
    issue the same calls. *)
Lemma C10_invocations_are_deterministic_witness :
  Runtime.A_calculateTVLFromAPI Sample.addresses [] ethereum
    (A.PostReturns (Some Sample.pollutingAnswer)) []
    ["__proto__"] (A.fallbackContractTVL Sample.addresses ethereum []) /\
  Runtime.A_calculateTVLFromAPI Sample.addresses [] ethereum
    (A.PostReturns (Some Sample.leftoverAnswer)) []
    [] [ Add "0xa0b8" "140000000"; Add "0xdac1" "40000000";
         Add "0x6b17" "20000000000000100000" ] /\
  Runtime.A_calculateTVLFromAPI Sample.addresses ["__proto__"] ethereum
    (A.PostReturns (Some Sample.leftoverAnswer))
    (A.fallbackContractTVL Sample.addresses ethereum [])
    ["__proto__"]
    (A.fallbackContractTVL Sample.addresses ethereum [] ++
     [ Add "0xa0b8" "140000000"; Add "0xdac1" "40000000";
       Add "0x6b17" "20000000000000100000" ]) /\
  issued []
    [ Add "0xa0b8" "140000000"; Add "0xdac1" "40000000";
      Add "0x6b17" "20000000000000100000" ] =
  issued (A.fallbackContractTVL Sample.addresses ethereum [])
    (A.fallbackContractTVL Sample.addresses ethereum [] ++
     [ Add "0xa0b8" "140000000"; Add "0xdac1" "40000000";
       Add "0x6b17" "20000000000000100000" ]) /\
  Runtime.B_calculateTVLFromAPI Sample.addresses [] ethereum
    (B.Response true (B.Body false (Some Sample.leftoverAnswer))) []
    [ AddToken "0xa0b8" (FInt 50250000) ] /\
  Runtime.B_calculateTVLFromAPI Sample.addresses ["__proto__"] ethereum
    (B.Response true (B.Body false (Some Sample.leftoverAnswer)))
    (A.fallbackContractTVL Sample.addresses ethereum [])
    (A.fallbackContractTVL Sample.addresses ethereum [] ++
     [ AddToken "0xa0b8" (FInt 50250000) ]) /\
  issued [] [ AddToken "0xa0b8" (FInt 50250000) ] =
  issued (A.fallbackContractTVL Sample.addresses ethereum [])
    (A.fallbackContractTVL Sample.addresses ethereum [] ++
     [ AddToken "0xa0b8" (FInt 50250000) ]).
Proof.
  assert (H0 : Runtime.A_calculateTVLFromAPI Sample.addresses [] ethereum
                 (A.PostReturns (Some Sample.pollutingAnswer)) []
                 ["__proto__"]
                 (A.fallbackContractTVL Sample.addresses ethereum [])).
  { apply Runtime.A_falls_back.
    eapply Runtime.A_caught; [reflexivity|vm_compute; reflexivity]. }
  assert (HA : forall w api,
             (w = [] \/ w = ["__proto__"]) ->
             exists a,
               Runtime.A_calculateTVLFromAPI Sample.addresses w ethereum
                 (A.PostReturns (Some Sample.leftoverAnswer)) api w a /\
               a = api ++ [ Add "0xa0b8" "140000000";
                            Add "0xdac1" "40000000";
                            Add "0x6b17" "20000000000000100000" ]).
  { intros w api Hw. eexists. split.
    - apply Runtime.A_adds_direct.
      destruct Hw as [->| ->];
        (eapply Runtime.A_direct;
         [reflexivity|vm_compute; reflexivity|vm_compute; reflexivity]).
    - rewrite addTokensToAPI_plan. apply (f_equal (app api)).
      vm_compute. reflexivity. }
  destruct (HA [] [] (or_introl eq_refl)) as (a1 & HA1 & ->).
  destruct (HA ["__proto__"]
              (A.fallbackContractTVL Sample.addresses ethereum [])
              (or_intror eq_refl)) as (a2 & HA2 & ->).
  split; [exact H0|]. split; [exact HA1|]. split; [exact HA2|].
  split.
  { exact (proj1 (C10_invocations_are_deterministic
                    Sample.addresses ethereum)
             _ _ _ _ _ _ _ _ _ HA1 HA2). }
  assert (HB : forall w api,
             (w = [] \/ w = ["__proto__"]) ->
             exists b,
               Runtime.B_calculateTVLFromAPI Sample.addresses w ethereum
                 (B.Response true (B.Body false (Some Sample.leftoverAnswer)))
                 api b /\
               b = api ++ [ AddToken "0xa0b8" (FInt 50250000) ]).
  { intros w api Hw. eexists. split.
    - apply Runtime.B_adds.
      destruct Hw as [->| ->];
        (eapply Runtime.B_proportional;
         [ reflexivity
         | vm_compute; reflexivity
         | split; [reflexivity|repeat constructor]
         | vm_compute; reflexivity
         | eexists; split;
           [ split; [vm_compute; reflexivity|repeat constructor]
           | vm_compute; repeat constructor ]
         | reflexivity
         | reflexivity
         | vm_compute; reflexivity ]).
    - rewrite B_addTokens_appends. apply (f_equal (app api)).
      vm_compute. reflexivity. }
  destruct (HB [] [] (or_introl eq_refl)) as (b1 & HB1 & ->).
  destruct (HB ["__proto__"]
              (A.fallbackContractTVL Sample.addresses ethereum [])
              (or_intror eq_refl)) as (b2 & HB2 & ->).
  split; [exact HB1|]. split; [exact HB2|].
  exact (proj1 (proj2 (C10_invocations_are_deterministic
                         Sample.addresses ethereum))
           _ _ _ _ _ _ _ HB1 HB2).
Defined.
